(** * tableformatter: a shallow embedding of the table layout engine

    The development follows the Go package [tableformatter]: the schema
    model, the width calculator ([decolorize], [getCellSize], [getRowSize]),
    the column-width adjuster ([AdjustFieldSizes]), the row layout engine
    ([pad], [getTableRow]), the table assembler ([getTableDelimiter],
    [getTableHeader], [getTableAsString]), the overflow folder
    ([getFoldedTableAsString], [RenderTableFoldable]), the record
    serializers ([getTableAsJSONString], [getTableAsYAMLString],
    [getTableAsCSVString]), the transposed renderers ([TransposeTable],
    [ConvertToStringTable], [RenderTransposedTable],
    [RenderTransposedTableHumanReadable]) and the sort engine ([OrderBy],
    [Less], [Len], [Swap]).  The functions that work by reflection
    ([ObjectToTable], [RenderRawObject]) and the field name formatters are
    left out.

    Conventions.
    - A Go [string] is a [string] of Rocq: a sequence of bytes; [len] counts
      bytes.
    - A Go [int] is a [Z].  The sum [FieldSize + 1] of the border wraps
      around as a signed 64-bit integer ([wrapInt]); the other additions
      the package performs are on string lengths and loop counters, which
      never reach 2^63.
    - A run-time panic (index out of range, failed type assertion, call of a
      nil function) is [None] in the [option] monad.
    - Text written to standard output by [fmt.Printf] is collected by the
      small writer monad [M].
    - Functions of other packages ([fmt.Sprintf], [time.Parse],
      [yaml.Marshal], ...) are parameters of the section [Package];
      [yaml.Marshal] can panic, and its parameter says on which documents
      it does ([marshaller]); an
      executable model of the part of [fmt.Sprintf] the package relies on is
      given in the module [Fmt] and used for the concrete scenarios. *)

From Stdlib Require Import ZArith String Ascii Lia.
From Stdlib Require Import Floats.SpecFloat DecimalString.
From stdpp Require Import base option list gmap strings.

Local Open Scope string_scope.
Local Open Scope Z_scope.

(** ** Dynamically typed cell values ([interface{}]) *)

Inductive value : Type :=
| VInt (n : Z)              (* int *)
| VString (s : string)      (* string *)
| VFloat (x : spec_float)   (* float64, as sign, mantissa and exponent *)
| VBool (b : bool)          (* bool *)
| VOther (desc : string).   (* any other value, told apart by a description *)

(** ** Byte strings *)

Definition len (s : string) : Z := Z.of_nat (String.length s).

Fixpoint repeatString (s : string) (n : nat) : string :=
  match n with
  | O => ""
  | S k => s ++ repeatString s k
  end.

(** [strings.Join] *)
Definition strings_Join (elems : list string) (sep : string) : string :=
  String.concat sep elems.

(** [strings.Split s sep] for a separator of one byte. *)
Fixpoint strings_Split (s : string) (sep : ascii) : list string :=
  match s with
  | EmptyString => [""]
  | String c rest =>
      if Ascii.eqb c sep then "" :: strings_Split rest sep
      else match strings_Split rest sep with
           | first :: others => String c first :: others
           | [] => [String c ""]
           end
  end.

(** [strings.ReplaceAll s old new] for [old] of one byte. *)
Fixpoint strings_ReplaceAll (s : string) (old : ascii) (new : string) : string :=
  match s with
  | EmptyString => ""
  | String c rest =>
      (if Ascii.eqb c old then new else String c "")
        ++ strings_ReplaceAll rest old new
  end.

(** [strconv.Itoa] *)
Definition itoa (n : Z) : string := NilZero.string_of_int (Z.to_int n).

(** *** The colour pattern [\x1b\[[0-9;]*[mG]] *)

Definition ESC : ascii := "027"%char.

Definition isParam (c : ascii) : bool :=
  let n := nat_of_ascii c in
  ((48 <=? n)%nat && (n <=? 57)%nat) || Ascii.eqb c ";".

Definition isFinal (c : ascii) : bool :=
  Ascii.eqb c "m" || Ascii.eqb c "G".

(** Length of the match of [[0-9;]*[mG]] at the start of [s].  The two
    classes are disjoint, so the greedy star never has to give back a
    byte: the run of parameter bytes is maximal or there is no match. *)
Fixpoint paramsFinal (s : string) : option nat :=
  match s with
  | EmptyString => None
  | String c rest =>
      if isFinal c then Some 1%nat
      else if isParam c then S <$> paramsFinal rest
      else None
  end.

(** Length of the match of the whole pattern at the start of [s]. *)
Definition matchColor (s : string) : option nat :=
  match s with
  | String c1 (String c2 rest) =>
      if Ascii.eqb c1 ESC && Ascii.eqb c2 "["
      then (fun n => S (S n)) <$> paramsFinal rest
      else None
  | _ => None
  end.

(** [ReplaceAllLiteralString s ""] for the pattern: leftmost matches are
    dropped, scanning resumes after each match.  [skip] is the number of
    bytes of the current match still to drop. *)
Fixpoint dropColors (skip : nat) (s : string) : string :=
  match s with
  | EmptyString => ""
  | String c rest =>
      match skip with
      | S k => dropColors k rest
      | O => match matchColor s with
             | Some n => dropColors (Nat.pred n) rest
             | None => String c (dropColors O rest)
             end
      end
  end.

(** removes all coloring characters *)
Definition decolorize (s : string) : string := dropColors O s.

(** *** UTF-8: [utf8.RuneCountInString] *)

Definition inRange (lo hi : nat) (c : ascii) : bool :=
  let n := nat_of_ascii c in ((lo <=? n)%nat && (n <=? hi)%nat).

Definition isCont (c : ascii) : bool := inRange 128 191 c.

(** Number of bytes of the rune that starts [s]; an invalid or truncated
    encoding counts as one rune of one byte. *)
Definition runeSize (s : string) : nat :=
  match s with
  | EmptyString => 0%nat
  | String c0 rest =>
      if inRange 0 127 c0 then 1%nat
      else if inRange 194 223 c0 then
        match rest with
        | String c1 _ => if isCont c1 then 2%nat else 1%nat
        | _ => 1%nat
        end
      else if inRange 224 239 c0 then
        match rest with
        | String c1 (String c2 _) =>
            let lo := if inRange 224 224 c0 then 160%nat else 128%nat in
            let hi := if inRange 237 237 c0 then 159%nat else 191%nat in
            if inRange lo hi c1 && isCont c2 then 3%nat else 1%nat
        | _ => 1%nat
        end
      else if inRange 240 244 c0 then
        match rest with
        | String c1 (String c2 (String c3 _)) =>
            let lo := if inRange 240 240 c0 then 144%nat else 128%nat in
            let hi := if inRange 244 244 c0 then 143%nat else 191%nat in
            if inRange lo hi c1 && isCont c2 && isCont c3 then 4%nat else 1%nat
        | _ => 1%nat
        end
      else 1%nat
  end.

Fixpoint countRunes (skip : nat) (s : string) : nat :=
  match s with
  | EmptyString => O
  | String _ rest =>
      match skip with
      | S k => countRunes k rest
      | O => S (countRunes (Nat.pred (runeSize s)) rest)
      end
  end.

Definition utf8_RuneCountInString (s : string) : Z := Z.of_nat (countRunes O s).

(** *** Decimal text of a [float64]: [strconv.FormatFloat x 'f' prec 64] *)

(** [m * 2^e * 10^prec] rounded to the nearest integer, ties to even. *)
Definition scaledRound (m : positive) (e : Z) (prec : nat) : Z :=
  let num := Z.pos m * 10 ^ Z.of_nat prec in
  if 0 <=? e then num * 2 ^ e
  else
    let den := 2 ^ (- e) in
    let q := num / den in
    let r := num mod den in
    if (den <? 2 * r) || ((den =? 2 * r) && Z.odd q) then q + 1 else q.

(** The digits of [n >= 0] with a decimal point before the last [prec]. *)
Definition fixedDigits (n : Z) (prec : nat) : string :=
  let ds := itoa n in
  let ds := repeatString "0" (S prec - String.length ds) ++ ds in
  let k := (String.length ds - prec)%nat in
  match prec with
  | O => ds
  | _ => substring 0 k ds ++ "." ++ substring k prec ds
  end.

(** The unsigned text and the sign of [x]. *)
Definition formatFloat (x : spec_float) (prec : nat) : bool * string :=
  match x with
  | S754_nan => (false, "NaN")
  | S754_infinity s => (s, "Inf")
  | S754_zero s => (s, fixedDigits 0 prec)
  | S754_finite s m e => (s, fixedDigits (scaledRound m e prec) prec)
  end.

(** ** An executable model of [fmt.Sprintf]

    The model covers what the package asks of [fmt]: the flags [-] and [+],
    a decimal width, a decimal precision, and the verbs [%d], [%s], [%f],
    [%v] and [%%].  Widths count runes and pad with spaces.  Everything
    else ([#], zero padding, argument indexes, [*], a width beyond the
    limit of [fmt]'s parser, a verb applied to a value of another type,
    missing or extra operands, [%v] of a [float64]) is outside the model and
    yields [None]. *)

Module Fmt.

Definition isDigit (c : ascii) : bool := inRange 48 57 c.
Definition digitVal (c : ascii) : Z := Z.of_nat (nat_of_ascii c) - 48.

(** [parsenum]: a decimal number at the start of [s]; [None] when the
    number grows past [fmt]'s limit of 10^6. *)
Fixpoint parsenum (s : string) (num : Z) (isnum : bool)
  : option (Z * bool * string) :=
  match s with
  | String c rest =>
      if isDigit c then
        if 1000000 <? num then None
        else parsenum rest (num * 10 + digitVal c) true
      else Some (num, isnum, s)
  | EmptyString => Some (num, isnum, s)
  end.

(** The flags in front of the width. *)
Fixpoint parseFlags (s : string) (minus plus : bool)
  : option (bool * bool * string) :=
  match s with
  | String c rest =>
      if Ascii.eqb c "-" then parseFlags rest true plus
      else if Ascii.eqb c "+" then parseFlags rest minus true
      else if Ascii.eqb c "0" then
        if minus then parseFlags rest minus plus else None
      else if Ascii.eqb c "#" || Ascii.eqb c " " then None
      else Some (minus, plus, s)
  | EmptyString => Some (minus, plus, s)
  end.

Definition parsePrec (s : string) : option (option Z * string) :=
  match s with
  | String c rest =>
      if Ascii.eqb c "." then
        '(num, isnum, rest') ← parsenum rest 0 false;
        if isnum : bool then Some (Some num, rest') else None
      else Some (None, s)
  | EmptyString => Some (None, s)
  end.

Definition signed (neg plus : bool) (digits : string) : string :=
  (if neg then "-" else if plus then "+" else "") ++ digits.

(** The text of one operand under a verb, before padding. *)
Definition verbText (verb : ascii) (plus : bool) (prec : option Z) (a : value)
  : option string :=
  if Ascii.eqb verb "d" then
    match a, prec with
    | VInt n, None => Some (signed (n <? 0) plus (itoa (Z.abs n)))
    | _, _ => None
    end
  else if Ascii.eqb verb "s" then
    match a, prec with
    | VString s, None => Some s
    | _, _ => None
    end
  else if Ascii.eqb verb "f" then
    match a with
    | VFloat x =>
        let p := match prec with Some p => Z.to_nat p | None => 6%nat end in
        let '(neg, txt) := formatFloat x p in
        match x with
        | S754_nan => Some (signed false plus txt)
        | S754_infinity _ => Some (signed neg true txt)
        | _ => Some (signed neg plus txt)
        end
    | _ => None
    end
  else if Ascii.eqb verb "v" then
    match a, prec with
    | VInt n, None => Some (signed (n <? 0) false (itoa (Z.abs n)))
    | VString s, None => Some s
    | VBool b, None => Some (if b then "true" else "false")
    | VOther desc, None => Some desc
    | _, _ => None
    end
  else None.

(** Padding to [wid] runes: on the right under [-], else on the left; no
    width, or a width of 0, writes the text as it is. *)
Definition padTo (minus : bool) (wid : Z) (s : string) : string :=
  if wid =? 0 then s
  else
    let fill := repeatString " " (Z.to_nat (wid - utf8_RuneCountInString s)) in
    if minus then s ++ fill else fill ++ s.

Fixpoint doPrintf (fuel : nat) (format : string) (a : list value)
  : option string :=
  match fuel with
  | O => None
  | S fuel' =>
      match format with
      | EmptyString => match a with [] => Some "" | _ => None end
      | String c rest =>
          if Ascii.eqb c "%" then
            '(minus, plus, rest) ← parseFlags rest false false;
            '(wid, widPresent, rest) ← parsenum rest 0 false;
            '(prec, rest) ← parsePrec rest;
            match rest : string with
            | EmptyString => None
            | String verb rest =>
                if Ascii.eqb verb "%" then
                  if minus || plus || widPresent || bool_decide (prec ≠ None)
                  then None
                  else String "%" <$> doPrintf fuel' rest a
                else
                  match a with
                  | [] => None
                  | arg :: a' =>
                      txt ← verbText verb plus prec arg;
                      out ← doPrintf fuel' rest a';
                      Some (padTo minus wid txt ++ out)
                  end
            end
          else String c <$> doPrintf fuel' rest a
      end
  end.

Definition unmodelled : string := "%!(UNMODELLED)".

Definition Sprintf (format : string) (a : list value) : string :=
  default unmodelled (doPrintf (S (String.length format)) format a).

End Fmt.

(** ** Standard output and panics: the monad [M]

    [None] is a panic; [Some (out, x)] is a normal return of [x] after
    [out] has been written to standard output. *)

Definition M (A : Type) : Type := option (string * A).

Definition ret {A : Type} (x : A) : M A := Some ("", x).

Definition bindM {A B : Type} (m : M A) (k : A → M B) : M B :=
  match m with
  | None => None
  | Some (out1, x) =>
      match k x with
      | None => None
      | Some (out2, y) => Some (out1 ++ out2, y)
      end
  end.

(** [fmt.Printf], once the text is formatted *)
Definition Print (s : string) : M unit := Some (s, tt).

(** A step that may panic but prints nothing. *)
Definition liftM {A : Type} (o : option A) : M A := (λ x, ("", x)) <$> o.

(** What was returned, whatever was printed. *)
Definition returned {A : Type} (m : M A) : option A := snd <$> m.

Notation "'do' x <- m ; k" := (bindM m (λ x, k))
  (at level 10, x name, m at level 100, k at level 200, only parsing).

(** ** The schema model *)

(** //SchemaField defines a field in a table *)
Record SchemaField : Type := {
  FieldName : string;
  FieldType : Z;
  FieldSize : Z;
  FieldPrecision : Z;
  FieldFormat : string
}.

(** //Table represents a table including data and schema *)
Record Table : Type := {
  Data : list (list value);
  Schema : list SchemaField
}.

Definition TypeInt : Z := 0.
Definition TypeString : Z := 1.
Definition TypeFloat : Z := 2.
Definition TypeDateTime : Z := 3.
Definition TypeInterface : Z := 4.
Definition TypeBool : Z := 5.

(** The value of a Go [int] expression whose exact value is [z]: signed
    64-bit arithmetic wraps around. *)
Definition wrapInt (z : Z) : Z := (z + 2 ^ 63) mod 2 ^ 64 - 2 ^ 63.

Definition DefaultDelimiter : string := "|".
Definition DefaultTimeFormat : string := "2006-01-02T15:04:05Z".
Definition DefaultFoldAtLength : Z := 300.

(** The assignment [f.FieldSize = n]. *)
Definition setFieldSize (f : SchemaField) (n : Z) : SchemaField :=
  {| FieldName := FieldName f; FieldType := FieldType f; FieldSize := n;
     FieldPrecision := FieldPrecision f; FieldFormat := FieldFormat f |}.

(** The line break of Go's ["\n"]. *)
Definition LF : ascii := "010"%char.
Definition nl : string := String LF "".

(** A [(string, error)] result. *)
Inductive result : Type :=
| Ok (s : string)
| Err (e : string).

Definition emptyString (length : Z) : string :=
  repeatString " " (Z.to_nat length).

(** //pad string with spaces up to certain len *)
Definition pad (s : string) (desired_len : Z) : string :=
  let current_len := len (decolorize s) in
  let l := desired_len - current_len in
  if l <=? 0 then s else s ++ emptyString l.

(** //getTableDelimiter returns a delimiter row for the schema *)
Definition getTableDelimiter (schema : list SchemaField) : string :=
  fold_left
    (λ row field, (row ++ repeatString "-" (Z.to_nat (wrapInt (FieldSize field + 1)))) ++ "+")
    schema "+".

(** The comparators of [OrderBy] that need no other package. *)
Definition lessFunc : Type := value → value → SchemaField → M bool.

Definition lessInt : lessFunc := λ a b field,
  match a, b with
  | VInt x, VInt y => ret (x <? y)
  | _, _ => None
  end.

Definition lessString : lessFunc := λ a b field,
  match a, b with
  | VString x, VString y => ret (String.ltb x y)
  | _, _ => None
  end.

Definition lessFloat : lessFunc := λ a b field,
  match a, b with
  | VFloat x, VFloat y => ret (SFltb x y)
  | _, _ => None
  end.

Definition lessBool : lessFunc := λ a b field,
  match a, b with
  | VBool x, VBool y => ret (negb (Bool.eqb x y))
  | _, _ => None
  end.

(** // MultiSorter implements the Sort interface; an entry of [less] that
    was never assigned is a nil function. *)
Record MultiSorter : Type := {
  data : list (list value);
  less : list (option lessFunc);
  schema : list SchemaField;
  indexes : list nat
}.

(** //TableSorter a multisorter for a table *)
Definition TableSorter (schema : list SchemaField) : MultiSorter :=
  {| data := []; less := []; schema := schema; indexes := [] |}.

(** The assignment [ms.data = data] that opens [Sort]; the permutation
    itself is the work of [sort.Sort] and is not modelled. *)
Definition setData (ms : MultiSorter) (data : list (list value)) : MultiSorter :=
  {| data := data; less := less ms; schema := schema ms; indexes := indexes ms |}.

Definition setKey (ms : MultiSorter) (k i : nat) (f : option lessFunc)
  : MultiSorter :=
  {| data := data ms; less := <[k := f]> (less ms); schema := schema ms;
     indexes := <[k := i]> (indexes ms) |}.

(** [ms.less[k](p[index], q[index], &ms.schema[index])] with
    [index = ms.indexes[k]]. *)
Definition callLess (ms : MultiSorter) (k : nat) (p q : list value) : M bool :=
  do index <- liftM (indexes ms !! k);
  do lessk <- liftM (less ms !! k);
  do a <- liftM (p !! index);
  do b <- liftM (q !! index);
  do field <- liftM (schema ms !! index);
  match lessk with
  | Some f => f a b field
  | None => None
  end.

(** The loop of [Less] with [n] keys still to try before the last. *)
Fixpoint lessLoop (ms : MultiSorter) (n k : nat) (p q : list value) : M bool :=
  match n with
  | O => callLess ms k p q
  | S n' =>
      do pq <- callLess ms k p q;
      if pq : bool then ret true
      else
        do qp <- callLess ms k q p;
        if qp : bool then ret false
        else lessLoop ms n' (S k) p q
  end.

(** // Less is part of sort.Interface. *)
Definition Less (ms : MultiSorter) (i j : nat) : M bool :=
  do p <- liftM (data ms !! i);
  do q <- liftM (data ms !! j);
  lessLoop ms (length (less ms) - 1) 0 p q.

(** // Len is part of sort.Interface. *)
Definition Len (ms : MultiSorter) : Z := Z.of_nat (length (data ms)).

(** // Swap is part of sort.Interface.  Both rows are read, then
    [ms.data[i]] and [ms.data[j]] are assigned in this order. *)
Definition Swap (ms : MultiSorter) (i j : nat) : option MultiSorter :=
  di ← data ms !! i;
  dj ← data ms !! j;
  Some (setData ms (<[j := di]> (<[i := dj]> (data ms)))).

(** [truncateString]: the slice [str[:length]] panics out of bounds. *)
Definition truncateString (s : string) (length : Z) : option string :=
  let str := s in
  if 0 <? len str then
    if (0 <=? length) && (length <=? len str)
    then Some (substring 0 (Z.to_nat length) str ++ "...")
    else None
  else Some "".

(** The inner loop of [TransposeTable]: column [j] of the rows from [i]
    on, appended to [newRow]. *)
Fixpoint transposeColumn (rows : list (list value)) (j : nat)
    (newRow : list value) : option (list value) :=
  match rows with
  | [] => Some newRow
  | row :: rest =>
      d ← row !! j;
      transposeColumn rest j (newRow ++ [d])
  end.

(** The outer loop of [TransposeTable], with [n] columns still to visit. *)
Fixpoint transposeLoop (n j : nat) (data dataT : list (list value))
  : option (list (list value)) :=
  match n with
  | O => Some dataT
  | S n' =>
      newRow ← transposeColumn data j [];
      transposeLoop n' (S j) data (dataT ++ [newRow])
  end.

(** //TransposeTable turns columns into rows. It assumes an uniform length
    table *)
Definition TransposeTable (t : Table) : option Table :=
  match Data t with
  | [] => Some t
  | first :: _ =>
      dataT ← transposeLoop (length first) 0 (Data t) [];
      Some {| Data := dataT; Schema := Schema t |}
  end.

(** The nil interface value, among the other values. *)
Definition VNil : value := VOther "<nil>".

Definition isNil (v : value) : bool :=
  match v with
  | VOther desc => String.eqb desc "<nil>"
  | _ => false
  end.

(** [yaml.Marshal] on a slice of maps: whether it panics on the document,
    and the [(string, error)] it returns when it does not.  The panic of
    the encoder is "cannot marshal type", for a value of a kind it has no
    encoding for; a document that holds only ints, strings, floats and
    booleans is always encoded. *)
Record marshaller : Type := {
  panics : list (gmap string value) → bool;
  returns : list (gmap string value) → result
}.

Definition plain (v : value) : bool :=
  match v with
  | VOther _ => false
  | _ => true
  end.

Definition plainDoc (maps : list (gmap string value)) : bool :=
  forallb (λ m, forallb (λ kv : string * value, plain kv.2) (map_to_list m)) maps.

(** The call [yaml.Marshal(maps)]. *)
Definition marshal (m : marshaller) (maps : list (gmap string value))
  : option result :=
  if negb (plainDoc maps) && panics m maps then None else Some (returns m maps).

(** ** The package, over the functions it imports *)

Section Package.

(** [fmt.Sprintf format a...] *)
Variable fmt_Sprintf : string → list value → string.
(** [time.Time], [time.Parse layout value] ([None] when [err != nil]) and
    [Time.Before] *)
Variable GoTime : Type.
Variable time_Parse : string → string → option GoTime.
Variable time_Before : GoTime → GoTime → bool.
(** [strings.ToLower] and [strcase.ToLowerCamel] *)
Variable strings_ToLower : string → string.
Variable strcase_ToLowerCamel : string → string.
(** [yaml.Marshal] and [json.MarshalIndent] of a slice of maps *)
Variable yaml_Marshal : marshaller.
Variable json_MarshalIndent : list (gmap string value) → string → string → result.
(** the bytes [csv.Writer.Write] emits for one record *)
Variable csv_Write : list string → string.

(** *** Sort engine *)

Definition lessDateTime : lessFunc := λ a b field,
  let layout := DefaultTimeFormat in
  let layout :=
    if bool_decide (FieldFormat field ≠ "") then FieldFormat field else layout in
  match a with
  | VString sa =>
      match time_Parse layout sa with
      | None =>
          do _ <- Print (fmt_Sprintf "could not convert string %s to date time" [VString sa]);
          ret false
      | Some ta =>
          match b with
          | VString sb =>
              match time_Parse layout sb with
              | None =>
                  do _ <- Print (fmt_Sprintf "could not convert string %s to date time" [VString sb]);
                  ret false
              | Some tb => ret (time_Before ta tb)
              end
          | _ => None
          end
      end
  | _ => None
  end.

(** The [switch field.FieldType] of [OrderBy]: the comparator for a
    type, or [None] in the [default] case. *)
Definition lessFor (fieldType : Z) : option lessFunc :=
  if fieldType =? TypeInt then Some lessInt
  else if fieldType =? TypeString then Some lessString
  else if fieldType =? TypeFloat then Some lessFloat
  else if fieldType =? TypeDateTime then Some lessDateTime
  else if fieldType =? TypeBool then Some lessBool
  else None.

(** The loop of [OrderBy] from key [k] on.  The result is the pointer
    that is returned: [None] is [nil]. *)
Fixpoint orderByLoop (ms : MultiSorter) (k : nat) (fieldNames : list string)
  : M (option MultiSorter) :=
  match fieldNames with
  | [] => ret (Some ms)
  | fn :: rest =>
      match list_find (λ f, FieldName f = fn) (schema ms) with
      | None =>
          do _ <- Print (fmt_Sprintf ("could not find field with name %s" ++ nl) [VString fn]);
          ret None
      | Some (i, field) =>
          match lessFor (FieldType field) with
          | Some f => orderByLoop (setKey ms k i (Some f)) (S k) rest
          | None =>
              do _ <- Print (fmt_Sprintf "could not find type %d" [VInt (FieldType field)]);
              orderByLoop (setKey ms k i None) (S k) rest
          end
      end
  end.

(** //OrderBy specifies the order *)
Definition OrderBy (ms : MultiSorter) (fieldNames : list string)
  : M (option MultiSorter) :=
  let n := length fieldNames in
  orderByLoop
    {| data := data ms; less := replicate n None; schema := schema ms;
       indexes := replicate n O |}
    0 fieldNames.

(** *** Row layout engine *)

(** The body of the first loop of [getTableRow]: the sub-lines of one
    cell and the new [rowHeight]. *)
Definition formatCell (field : SchemaField) (d : value) (rowHeight : nat)
  : option (list string * nat) :=
  if FieldType field =? TypeInt then
    match d with
    | VInt _ =>
        Some ([fmt_Sprintf (fmt_Sprintf " %%-%dd" [VInt (FieldSize field)]) [d]],
              rowHeight)
    | _ => None
    end
  else if FieldType field =? TypeString then
    match d with
    | VString v =>
        let s := strings_ReplaceAll v "%" "%%" in
        let splittedS := strings_Split s LF in
        let multiLineCell := map (λ r, " " ++ pad r (FieldSize field)) splittedS in
        Some (multiLineCell,
              if (rowHeight <? length multiLineCell)%nat
              then length multiLineCell else rowHeight)
    | _ => None
    end
  else if FieldType field =? TypeFloat then
    match d with
    | VFloat _ =>
        Some ([fmt_Sprintf
                 (fmt_Sprintf " %%-%d.%df"
                    [VInt (FieldSize field); VInt (FieldPrecision field)]) [d]],
              rowHeight)
    | _ => None
    end
  else
    Some ([fmt_Sprintf (fmt_Sprintf " %%-+%dv" [VInt (FieldSize field)]) [d]],
          rowHeight).

(** [for i, field := range schema] *)
Fixpoint formatCells (fields : list SchemaField) (i : nat) (row : list value)
    (rowStr : list (list string)) (rowHeight : nat)
  : option (list (list string) * nat) :=
  match fields with
  | [] => Some (rowStr, rowHeight)
  | field :: rest =>
      d ← row !! i;
      '(cell, rowHeight) ← formatCell field d rowHeight;
      formatCells rest (S i) row (rowStr ++ [cell]) rowHeight
  end.

(** //determine the max width *)
Definition maxWidthOf (cell : list string) : Z :=
  fold_left
    (λ maxWidth s, if maxWidth <? len s then len (decolorize s) else maxWidth)
    cell 0.

(** The body of the second loop: the sub-lines padded to [maxWidth] and
    the cell filled up to [rowHeight]. *)
Definition fillCell (rowHeight : nat) (cell : list string) : list string :=
  let maxWidth := maxWidthOf cell in
  map (λ s, fmt_Sprintf (fmt_Sprintf "%%-%ds" [VInt maxWidth]) [VString s]) cell
    ++ replicate (rowHeight - length cell) (emptyString maxWidth).

(** [for x := 0; x < len(rowStr); x++] for the line [y] *)
Fixpoint writeCells (rowStr : list (list string)) (y : nat) (sb : string)
  : option string :=
  match rowStr with
  | [] => Some sb
  | cell :: rest =>
      s ← cell !! y;
      writeCells rest y ((sb ++ DefaultDelimiter) ++ s)
  end.

(** [for y := 0; y < rowHeight; y++] with [n] lines still to write *)
Fixpoint writeLines (rowStr : list (list string)) (rowHeight n y : nat)
    (sb : string) : option string :=
  match n with
  | O => Some sb
  | S n' =>
      sb ← writeCells rowStr y sb;
      let sb := sb ++ DefaultDelimiter in
      let sb := if (y <? rowHeight - 1)%nat then sb ++ nl else sb in
      writeLines rowStr rowHeight n' (S y) sb
  end.

(** //getTableRow returns the string for a row with the | delimiter *)
Definition getTableRow (row : list value) (schema : list SchemaField)
  : option string :=
  '(rowStr, rowHeight) ← formatCells schema 0 row [] 1%nat;
  let rowStr := map (fillCell rowHeight) rowStr in
  writeLines rowStr rowHeight rowHeight 0 "".

(** //getTableHeader returns the row for header *)
Definition getTableHeader (schema : list SchemaField) : option string :=
  let alteredSchema :=
    map (λ field, {| FieldName := ""; FieldType := TypeString;
                     FieldSize := FieldSize field; FieldPrecision := 0;
                     FieldFormat := "" |}) schema in
  let header := map (λ field, VString (FieldName field)) schema in
  getTableRow header alteredSchema.

(** *** Width calculator *)

(** [maxW] over the lines of [s] *)
Definition maxLineLen (s : string) : Z :=
  fold_left (λ maxW w, if maxW <? len w then len w else maxW)
    (strings_Split s LF) 0.

(** // GetCellSize calculates how wide a cell is *)
Definition getCellSize (d : value) (field : SchemaField) : option Z :=
  s ← (if FieldType field =? TypeInt then
         match d with VInt _ => Some (fmt_Sprintf "%d" [d]) | _ => None end
       else if FieldType field =? TypeString then
         match d with VString v => Some (decolorize v) | _ => None end
       else if FieldType field =? TypeFloat then
         match d with
         | VFloat _ =>
             Some (fmt_Sprintf
                     (fmt_Sprintf "%%.%df" [VInt (FieldPrecision field)]) [d])
         | _ => None
         end
       else Some (decolorize (fmt_Sprintf "%v" [d])));
  Some (maxLineLen s).

(** [for i := 0; i < rowSize; i++] of [getRowSize], over the fields from
    index [i] on *)
Fixpoint rowSizeLoop (data : list (list value)) (fields : list SchemaField)
    (i : nat) (size : Z) : option Z :=
  match fields with
  | [] => Some size
  | f :: rest =>
      row ← data !! O;
      d ← row !! i;
      cellSize ← getCellSize d f;
      rowSizeLoop data rest (S i) (size + cellSize)
  end.

(** //getRowSize returns the row size of a table *)
Definition getRowSize (data : list (list value)) (schema : list SchemaField)
  : option Z :=
  rowSizeLoop data schema 0 0.

(** *** Column-width adjuster *)

(** [for k := 0; k < rowCount; k++] of [AdjustFieldSizes], over the rows
    from [k] on *)
Fixpoint columnLoop (rows : list (list value)) (i : nat) (f : SchemaField)
    (maxLen : Z) : option Z :=
  match rows with
  | [] => Some maxLen
  | row :: rest =>
      d ← row !! i;
      cellSize ← getCellSize d f;
      columnLoop rest i f (if maxLen <? cellSize then cellSize else maxLen)
  end.

(** [for i := 0; i < rowSize; i++] with [n] columns still to visit; the
    schema is updated in place. *)
Fixpoint adjustLoop (n i : nat) (data : list (list value))
    (schema : list SchemaField) : option (list SchemaField) :=
  match n with
  | O => Some schema
  | S n' =>
      f ← schema !! i;
      let maxLen := FieldSize f in
      let maxLen :=
        if maxLen <? len (FieldName f) then len (FieldName f) else maxLen in
      maxLen ← columnLoop data i f maxLen;
      let schema :=
        if FieldSize f <? maxLen
        then <[i := setFieldSize f (maxLen + 1)]> schema (* //we leave a little room to the right *)
        else schema in
      adjustLoop n' (S i) data schema
  end.

(** //AdjustFieldSizes expands field sizes to match the widest cell *)
Definition AdjustFieldSizes (t : Table) : option Table :=
  schema ← adjustLoop (length (Schema t)) 0 (Data t) (Schema t);
  Some {| Data := Data t; Schema := schema |}.

(** *** Table assembler *)

(** //getTableAsString returns the string representation of a table. *)
Definition getTableAsString (data : list (list value))
    (schema : list SchemaField) : option string :=
  header ← getTableHeader schema;
  body ← mapM (λ row, getTableRow row schema) data;
  let rows :=
    ([getTableDelimiter schema; header; getTableDelimiter schema]
       ++ body ++ [getTableDelimiter schema])%list in
  Some (strings_Join rows nl ++ nl).

(** *** Record serializers *)

(** [rowAsMap[key field] = row[i]] for every field from index [i] on *)
Fixpoint rowAsMap (key : SchemaField → string) (fields : list SchemaField)
    (i : nat) (row : list value) (m : gmap string value)
  : option (gmap string value) :=
  match fields with
  | [] => Some m
  | field :: rest =>
      d ← row !! i;
      rowAsMap key rest (S i) row (<[key field := d]> m)
  end.

Definition dataAsMap (key : SchemaField → string) (data : list (list value))
    (schema : list SchemaField) : option (list (gmap string value)) :=
  mapM (λ row, rowAsMap key schema 0 row ∅) data.

Definition decolorized (r : result) : result :=
  match r with
  | Ok s => Ok (decolorize s)
  | Err e => Err e
  end.

(** //getTableAsYAMLString returns a yaml.Marshal string for the given data *)
Definition getTableAsYAMLString (data : list (list value))
    (schema : list SchemaField) : option result :=
  maps ← dataAsMap
    (λ field, strcase_ToLowerCamel (strings_ToLower (FieldName field)))
    data schema;
  ret ← marshal yaml_Marshal maps;
  Some (decolorized ret).

(** //getTableAsJSONString returns a json.MarshalIndent string for the given data *)
Definition getTableAsJSONString (data : list (list value))
    (schema : list SchemaField) : option result :=
  maps ← dataAsMap FieldName data schema;
  Some (decolorized (json_MarshalIndent maps "" (String "009" ""))).

(** One field of a record of [getTableAsCSVString]. *)
Definition csvField (field : SchemaField) (d : value) : option string :=
  if FieldType field =? TypeInt then
    match d with VInt _ => Some (fmt_Sprintf "%d" [d]) | _ => None end
  else if FieldType field =? TypeString then
    match d with VString v => Some v | _ => None end
  else if FieldType field =? TypeFloat then
    match d with VFloat _ => Some (fmt_Sprintf "%f" [d]) | _ => None end
  else if FieldType field =? TypeInterface then
    Some (fmt_Sprintf "%v" [d])
  else if FieldType field =? TypeDateTime then
    match d with VString v => Some v | _ => None end
  else Some (fmt_Sprintf "%v" [d]).

Fixpoint csvRecord (fields : list SchemaField) (i : nat) (row : list value)
  : option (list string) :=
  match fields with
  | [] => Some []
  | field :: rest =>
      d ← row !! i;
      s ← csvField field d;
      others ← csvRecord rest (S i) row;
      Some (s :: others)
  end.

(** //getTableAsCSVString returns a table as a csv *)
Definition getTableAsCSVString (data : list (list value))
    (schema : list SchemaField) : option result :=
  records ← mapM (csvRecord schema 0) data;
  let buf := String.concat "" (map csv_Write (map FieldName schema :: records)) in
  Some (Ok (decolorize buf)).

(** *** Overflow folder *)

(** The loop of [getFoldedTableAsString]: one serialized record per row,
    stopping at the first error. *)
Fixpoint foldRows (rows : list (list value)) (schema : list SchemaField)
    (newData : list (list value)) : option (string + list (list value)) :=
  match rows with
  | [] => Some (inr newData)
  | row :: rest =>
      r ← getTableAsYAMLString [row] schema;
      match r with
      | Err e => Some (inl e)
      | Ok cell => foldRows rest schema (newData ++ [[VString cell]])
      end
  end.

(** //getFoldedTableAsString returns the string representation of a table
    with the fields collapsed *)
Definition getFoldedTableAsString (data : list (list value))
    (schema : list SchemaField) : option result :=
  let newSchema :=
    [ {| FieldName := "Values"; FieldType := TypeString; FieldSize := 5;
         FieldPrecision := 0; FieldFormat := "" |} ] in
  r ← foldRows data schema [];
  match r with
  | inl e => Some (Err e)
  | inr newData =>
      table ← AdjustFieldSizes {| Data := newData; Schema := newSchema |};
      Ok <$> getTableAsString (Data table) (Schema table)
  end.

(** *** Rendering *)

Definition isFormat (format : string) (names : list string) : bool :=
  bool_decide (format ∈ names).

(** //RenderTableFoldable renders a table object as a string.  The table
    is returned with the result: its schema is adjusted in place. *)
Definition RenderTableFoldable (t : Table) (tableName topLine format : string)
    (foldAtLength : Z) : option (result * Table) :=
  if isFormat format ["json"; "JSON"] then
    r ← getTableAsJSONString (Data t) (Schema t); Some (r, t)
  else if isFormat format ["csv"; "CSV"] then
    r ← getTableAsCSVString (Data t) (Schema t); Some (r, t)
  else if isFormat format ["yaml"; "YAML"] then
    r ← getTableAsYAMLString (Data t) (Schema t); Some (r, t)
  else if isFormat format [""] then
    let sb :=
      if bool_decide (topLine ≠ "")
      then fmt_Sprintf ("%s" ++ nl) [VString topLine] else "" in
    t ← AdjustFieldSizes t;
    rowSize ← (if (0 <? length (Data t))%nat
               then getRowSize (Data t) (Schema t) else Some 0);
    let total :=
      fmt_Sprintf ("Total: %d %s" ++ nl ++ nl)
        [VInt (Z.of_nat (length (Data t))); VString tableName] in
    if (0 <? length (Data t))%nat && (foldAtLength <? rowSize) then
      r ← getFoldedTableAsString (Data t) (Schema t);
      match r with
      | Err e => Some (Err e, t)
      | Ok s => Some (Ok ((sb ++ s) ++ total), t)
      end
    else
      s ← getTableAsString (Data t) (Schema t);
      Some (Ok ((sb ++ s) ++ total), t)
  else
    Some (Err (fmt_Sprintf
                 "Invalid format '%s' given. Valid values are json, JSON, csv, CSV, yaml or YAML."
                 [VString format]), t).

(** //RenderTable renders a table object as a string *)
Definition RenderTable (t : Table) (tableName topLine format : string)
  : option (result * Table) :=
  RenderTableFoldable t tableName topLine format DefaultFoldAtLength.

(** //RenderTableAsJSON renders the table as an array json objects *)
Definition RenderTableAsJSON (t : Table) : option (result * Table) :=
  RenderTableFoldable t "" "" "json" DefaultFoldAtLength.

(** //RenderTableAsCSV renders the table as a csv *)
Definition RenderTableAsCSV (t : Table) : option (result * Table) :=
  RenderTableFoldable t "" "" "csv" DefaultFoldAtLength.

(** //RenderTableAsYAML renders the table as a yaml object *)
Definition RenderTableAsYAML (t : Table) : option (result * Table) :=
  RenderTableFoldable t "" "" "yaml" DefaultFoldAtLength.

(** *** Transposed rendering *)

(** //ConvertToStringTable converts all cells to string cells *)
Definition ConvertToStringTable (table : Table) : Table :=
  {| Data :=
       map (λ row,
              map (λ v,
                     let v := if isNil v then VString " " else v in
                     VString (fmt_Sprintf "%v" [v]))
                  row)
           (Data table);
     Schema := Schema table |}.

(** //RenderTransposedTable renders the text format as a key-value table.
    json and csv formats remain the same as render table.  The receiver is
    returned as it is left. *)
Definition RenderTransposedTable (t : Table) (tableName topLine format : string)
  : option (result * Table) :=
  if bool_decide (format ≠ "") then RenderTable t tableName topLine format
  else
    let headerRow := map (λ s, VString (FieldName s)) (Schema t) in
    let stringsTable := ConvertToStringTable t in
    let newDataAsStrings := headerRow :: Data stringsTable in
    let newSchema :=
      [ {| FieldName := "KEY"; FieldType := TypeString; FieldSize := 5;
           FieldPrecision := 0; FieldFormat := "" |};
        {| FieldName := "VALUE"; FieldType := TypeString; FieldSize := 5;
           FieldPrecision := 0; FieldFormat := "" |} ] in
    tableTransposed ←
      TransposeTable {| Data := newDataAsStrings; Schema := newSchema |};
    r ← RenderTable tableTransposed tableName topLine format;
    Some (r.1, t).

(** The loop of [RenderTransposedTableHumanReadable] over the fields from
    index [i] on. *)
Fixpoint humanReadableLoop (fields : list SchemaField) (i : nat)
    (data : list (list value)) (sb : string) : option string :=
  match fields with
  | [] => Some sb
  | field :: rest =>
      row ← data !! O;
      d ← row !! i;
      humanReadableLoop rest (S i) data
        (sb ++ fmt_Sprintf ("%s: %v" ++ nl) [VString (FieldName field); d])
  end.

(** //RenderTransposedTableHumanReadable renders an object in a human
    readable way *)
Definition RenderTransposedTableHumanReadable (t : Table)
    (tableName topLine : string) : option result :=
  Ok <$> humanReadableLoop (Schema t) 0 (Data t) "".

End Package.

Arguments lessDateTime fmt_Sprintf {GoTime} time_Parse time_Before.
Arguments lessFor fmt_Sprintf {GoTime} time_Parse time_Before.
Arguments orderByLoop fmt_Sprintf {GoTime} time_Parse time_Before.
Arguments OrderBy fmt_Sprintf {GoTime} time_Parse time_Before.

(** ** Stand-ins for the imported functions

    The theorems below hold for every implementation of the imported
    functions.  The concrete scenarios run the package on [Fmt.Sprintf] and
    on the simple stand-ins of this module. *)

Module Sample.

(** Reads a value of the shape [dddd-dd-ddTdd:dd:ddZ] under the default
    layout as the number made of its digits; every other layout or value
    is a parse error. *)
Fixpoint readStamp (shape value : string) (acc : Z) : option Z :=
  match shape, value with
  | EmptyString, EmptyString => Some acc
  | String s shape', String c value' =>
      if Fmt.isDigit s then
        if Fmt.isDigit c then readStamp shape' value' (acc * 10 + Fmt.digitVal c)
        else None
      else if Ascii.eqb s c then readStamp shape' value' acc
      else None
  | _, _ => None
  end.

Definition time_Parse (layout value : string) : option Z :=
  if bool_decide (layout = DefaultTimeFormat)
  then readStamp layout value 0 else None.

Definition time_Before (t u : Z) : bool := t <? u.

(** Field names are kept as they are. *)
Definition keepName (s : string) : string := s.

(** One [key: value] line per field, in the order of the keys. *)
Definition marshalLine (kv : string * value) : string :=
  ("  " ++ kv.1 ++ ": ")
    ++ Fmt.Sprintf (match kv.2 with VFloat _ => "%f" | _ => "%v" end) [kv.2]
    ++ nl.

Definition yaml_Marshal : marshaller :=
  {| panics := λ _, false;
     returns := λ maps,
       Ok (String.concat ""
             (map (λ m, "-" ++ nl
                        ++ String.concat "" (map marshalLine (map_to_list m)))
                  maps)) |}.

Definition json_MarshalIndent (maps : list (gmap string value))
    (prefix indent : string) : result :=
  returns yaml_Marshal maps.

Definition csv_Write (record : list string) : string :=
  String.concat "," record ++ nl.

Definition getTableRow := getTableRow Fmt.Sprintf.
Definition AdjustFieldSizes := AdjustFieldSizes Fmt.Sprintf.
Definition getTableAsString := getTableAsString Fmt.Sprintf.
Definition RenderTableFoldable :=
  RenderTableFoldable Fmt.Sprintf keepName keepName yaml_Marshal
    json_MarshalIndent csv_Write.
Definition OrderBy := OrderBy Fmt.Sprintf time_Parse time_Before.
Definition lessDateTime := lessDateTime Fmt.Sprintf time_Parse time_Before.

Definition field (name : string) (type size precision : Z) : SchemaField :=
  {| FieldName := name; FieldType := type; FieldSize := size;
     FieldPrecision := precision; FieldFormat := "" |}.

(** The [float64] nearest to 20.1, 22.1, 2.1, 2.2, 2.3 and 1.2345. *)
Definition f20_1 : spec_float := S754_finite false 5657647031884186 (-48).
Definition f22_1 : spec_float := S754_finite false 6220596985305498 (-48).
Definition f2_1 : spec_float := S754_finite false 4728779608739021 (-51).
Definition f2_2 : spec_float := S754_finite false 4953959590107546 (-51).
Definition f2_3 : spec_float := S754_finite false 5179139571476070 (-51).
Definition f1_2345 : spec_float := S754_finite false 5559693739988877 (-52).

(** The schema and the first row of [TestGetTableAsString]. *)
Definition schema3 : list SchemaField :=
  [ field "ID" TypeInt 6 0; field "LABEL" TypeString 20 0;
    field "INST." TypeFloat 6 2 ].
Definition row3 : list value := [VInt 4; VString "str"; VFloat f20_1].

(** The schema and the data of [TestAdjustFieldSizes], and the schema
    once adjusted. *)
Definition schema4 : list SchemaField :=
  [ field "ID" TypeInt 3 0; field "LABEL" TypeString 5 0;
    field "INST." TypeFloat 0 4; field "VERY LONG FIELD NAME" TypeString 4 4 ].
Definition adjusted4 : list SchemaField :=
  [ field "ID" TypeInt 3 0; field "LABEL" TypeString 5 0;
    field "INST." TypeFloat 8 4; field "VERY LONG FIELD NAME" TypeString 21 4 ].
Definition data4 : list (list value) :=
  [ [VInt 4; VString "12345"; VFloat f20_1; VString "tes"];
    [VInt 5; VString "12"; VFloat f22_1; VString "te"];
    [VInt 6; VString ("12345" ++ nl ++ "6789"); VFloat f1_2345; VString "t"] ].

(** The rows of [data4], each serialized on its own. *)
Definition records4 : list string :=
  omap (λ row,
          match getTableAsYAMLString keepName keepName yaml_Marshal [row] adjusted4 with
          | Some (Ok c) => Some c
          | _ => None
          end) data4.

(** The data of [TestTableSortWithSchema]. *)
Definition data6 : list (list value) :=
  [ [VInt 4; VString "str"; VFloat f20_1];
    [VInt 6; VString "st11r"; VFloat f22_1];
    [VInt 5; VString "wt11r444"; VFloat f2_3];
    [VInt 5; VString "wt11r444"; VFloat f2_1];
    [VInt 5; VString "at11r43"; VFloat f2_2];
    [VInt 4; VString "xxxx"; VFloat f2_2] ].

(** [TableSorter(schema).OrderBy("LABEL", "ID", "INST.")] on that data. *)
Definition sorter6 : MultiSorter :=
  match OrderBy (TableSorter schema3) ["LABEL"; "ID"; "INST."] with
  | Some (_, Some ms) => setData ms data6
  | _ => TableSorter []
  end.

(** A column of dates. *)
Definition dateField : SchemaField := field "DATE" TypeDateTime 6 0.

(** The order [TestTableSortWithSchema] expects. *)
Definition sorted6 : list (list value) :=
  [ [VInt 5; VString "at11r43"; VFloat f2_2];
    [VInt 6; VString "st11r"; VFloat f22_1];
    [VInt 4; VString "str"; VFloat f20_1];
    [VInt 5; VString "wt11r444"; VFloat f2_1];
    [VInt 5; VString "wt11r444"; VFloat f2_3];
    [VInt 4; VString "xxxx"; VFloat f2_2] ].

(** The row of [TestGetTableRowMultiline]. *)
Definition row4 : list value :=
  [ VInt 4; VString ("123" ++ nl ++ "45"); VFloat f20_1;
    VString ("teklkkkllklklsas" ++ nl ++ "dasda" ++ nl ++ "sdasd") ].

(** The coloured text of [TestDeColorize]. *)
Definition redOn : string := String ESC "[12;41m".
Definition reset : string := String ESC "[0m".

(** A text cell of three lines, and rows around it. *)
Definition abc : string := "a" ++ nl ++ "bb" ++ nl ++ "ccc".
Definition four : string := "1" ++ nl ++ "2" ++ nl ++ "3" ++ nl ++ "4".

(** A cell whose second line is coloured, and the same cell without the
    colour sequences. *)
Definition red (s : string) : string :=
  (String ESC "[31m" ++ s) ++ String ESC "[0m".
Definition coloured : string := "aaaaaaaa" ++ nl ++ red "b".
Definition plain : string := "aaaaaaaa" ++ nl ++ "b".

(** The sorter of [TestTableSortWithSchema], before it is given data. *)
Definition keys6 : MultiSorter :=
  match OrderBy (TableSorter schema3) ["LABEL"; "ID"; "INST."] with
  | Some (_, Some ms) => ms
  | _ => TableSorter []
  end.

(** A table of three rows of two cells, and one whose second row is
    longer than its first. *)
Definition grid : Table :=
  {| Data := [ [VInt 1; VString "a"]; [VInt 2; VString "b"];
               [VInt 3; VString "c"] ];
     Schema := [field "ID" TypeInt 3 0; field "LABEL" TypeString 5 0] |}.
Definition ragged : Table :=
  {| Data := [ [VInt 1; VString "a"]; [VInt 2; VString "b"; VString "extra"] ];
     Schema := [field "ID" TypeInt 3 0; field "LABEL" TypeString 5 0] |}.

End Sample.

(** ** Notions used to state the properties *)

(** The type assertion of the row renderer and of the width calculator
    succeeds on [d]. *)
Definition cellTyped (f : SchemaField) (d : value) : bool :=
  if FieldType f =? TypeInt then match d with VInt _ => true | _ => false end
  else if FieldType f =? TypeString then match d with VString _ => true | _ => false end
  else if FieldType f =? TypeFloat then match d with VFloat _ => true | _ => false end
  else true.

(** Every field from index [i] on finds a cell of its type in [row]. *)
Fixpoint rowTyped (fields : list SchemaField) (i : nat) (row : list value) : Prop :=
  match fields with
  | [] => True
  | f :: rest =>
      (∃ d, row !! i = Some d ∧ cellTyped f d = true) ∧ rowTyped rest (S i) row
  end.

(** The largest of [base] and [sizes]. *)
Definition widest (base : Z) (sizes : list Z) : Z := foldr Z.max base sizes.

(** No byte of [s] is [c]. *)
Fixpoint freeOf (c : ascii) (s : string) : bool :=
  match s with
  | EmptyString => true
  | String c' rest => negb (Ascii.eqb c' c) && freeOf c rest
  end.

(** The height of a row: the largest number of sub-lines, at least
    [base]. *)
Definition heightOf (base : nat) (cells : list (list string)) : nat :=
  foldl (λ h cell, Nat.max h (length cell)) base cells.

(** The physical line [y] of a row whose cells are [rowStr]. *)
Definition rowLine (rowStr : list (list string)) (y : nat) : string :=
  String.concat ""
    (map (λ cell, DefaultDelimiter ++ default "" (cell !! y)) rowStr)
    ++ DefaultDelimiter.

Definition sumZ (l : list Z) : Z := foldr Z.add 0 l.

(** The schema [getTableHeader] renders the names with. *)
Definition headerField (f : SchemaField) : SchemaField :=
  {| FieldName := ""; FieldType := TypeString; FieldSize := FieldSize f;
     FieldPrecision := 0; FieldFormat := "" |}.

(** The column of a folded table, [w] wide. *)
Definition valuesField (w : Z) : SchemaField :=
  {| FieldName := "Values"; FieldType := TypeString; FieldSize := w;
     FieldPrecision := 0; FieldFormat := "" |}.

Section Notions.

Variable fmt_Sprintf : string → list value → string.

(** The measured widths of column [i]. *)
Definition cellSizes (rows : list (list value)) (i : nat) (f : SchemaField)
  : option (list Z) :=
  mapM (λ row : list value, d ← row !! i; getCellSize fmt_Sprintf d f) rows.

(** One pass of the loop of [AdjustFieldSizes], on the field of column [i]. *)
Definition adjustField (data : list (list value)) (i : nat) (f : SchemaField)
  : option SchemaField :=
  maxLen ← columnLoop fmt_Sprintf data i f
    (if FieldSize f <? len (FieldName f) then len (FieldName f) else FieldSize f);
  Some (if FieldSize f <? maxLen then setFieldSize f (maxLen + 1) else f).

(** The passes for the fields from column [i] on. *)
Fixpoint adjustFrom (data : list (list value)) (i : nat)
    (fields : list SchemaField) : option (list SchemaField) :=
  match fields with
  | [] => Some []
  | f :: rest =>
      f' ← adjustField data i f;
      rest' ← adjustFrom data (S i) rest;
      Some (f' :: rest')
  end.

(** The sub-lines of the cells of a row, before they are filled. *)
Definition cellLines (f : SchemaField) (d : value) : option (list string) :=
  fst <$> formatCell fmt_Sprintf f d 1%nat.

(** The sub-lines of the cells of the fields from column [i] on. *)
Fixpoint rowCells (fields : list SchemaField) (i : nat) (row : list value)
  : option (list (list string)) :=
  match fields with
  | [] => Some []
  | f :: rest =>
      d ← row !! i;
      cell ← cellLines f d;
      cells ← rowCells rest (S i) row;
      Some (cell :: cells)
  end.

(** The measured widths of the cells of [row], from column [i] on. *)
Fixpoint rowWidths (fields : list SchemaField) (i : nat) (row : list value)
  : option (list Z) :=
  match fields with
  | [] => Some []
  | f :: rest =>
      d ← row !! i;
      w ← getCellSize fmt_Sprintf d f;
      ws ← rowWidths rest (S i) row;
      Some (w :: ws)
  end.

(** The second pass of the row renderer on a sub-line: [%-<n>s]. *)
Definition padLine (n : Z) (s : string) : string :=
  fmt_Sprintf (fmt_Sprintf "%%-%ds" [VInt n]) [VString s].

End Notions.

(** A byte that can neither continue nor start the tail of a colour
    sequence. *)
Definition stopsColour (c : ascii) : bool :=
  negb (isParam c || isFinal c || Ascii.eqb c "[").

(** [t] is empty or begins with such a byte. *)
Definition stopsAtStart (t : string) : bool :=
  match t with
  | EmptyString => true
  | String c _ => stopsColour c
  end.

(** [c] is one colour sequence, from its first to its last byte. *)
Definition isColour (c : string) : Prop := matchColor c = Some (String.length c).

(** The type assertions of [getTableAsCSVString] succeed on [d]. *)
Definition csvTyped (f : SchemaField) (d : value) : bool :=
  if FieldType f =? TypeInt then match d with VInt _ => true | _ => false end
  else if FieldType f =? TypeString then match d with VString _ => true | _ => false end
  else if FieldType f =? TypeFloat then match d with VFloat _ => true | _ => false end
  else if FieldType f =? TypeInterface then true
  else if FieldType f =? TypeDateTime then match d with VString _ => true | _ => false end
  else true.

(** Every field from index [i] on finds in [row] a cell that
    [getTableAsCSVString] accepts. *)
Fixpoint csvRowTyped (fields : list SchemaField) (i : nat) (row : list value)
  : Prop :=
  match fields with
  | [] => True
  | f :: rest =>
      (∃ d, row !! i = Some d ∧ csvTyped f d = true) ∧ csvRowTyped rest (S i) row
  end.

(** The number of bytes of [s] that are [c]. *)
Fixpoint countOf (c : ascii) (s : string) : nat :=
  match s with
  | EmptyString => O
  | String c' rest => ((if Ascii.eqb c' c then 1 else 0) + countOf c rest)%nat
  end.

(** The schema of a transposed table. *)
Definition keyValueSchema : list SchemaField :=
  [ {| FieldName := "KEY"; FieldType := TypeString; FieldSize := 5;
       FieldPrecision := 0; FieldFormat := "" |};
    {| FieldName := "VALUE"; FieldType := TypeString; FieldSize := 5;
       FieldPrecision := 0; FieldFormat := "" |} ].

(** The formats [RenderTableFoldable] knows. *)
Definition knownFormats : list string :=
  ["json"; "JSON"; "csv"; "CSV"; "yaml"; "YAML"; ""].

(** ** Byte strings: basic facts *)

Lemma append_nil_r (s : string) : s ++ "" = s.
Proof.
  induction s as [|c s IH]; [reflexivity|].
  change (String c (s ++ "") = String c s). by rewrite IH.
Qed.

Lemma append_cons (c : ascii) (s t : string) : String c s ++ t = String c (s ++ t).
Proof. reflexivity. Qed.

Lemma append_assoc (s t u : string) : (s ++ t) ++ u = s ++ (t ++ u).
Proof.
  induction s as [|c s IH]; [reflexivity|].
  rewrite !append_cons. by rewrite IH.
Qed.

Lemma len_append (s t : string) : len (s ++ t) = len s + len t.
Proof.
  unfold len. induction s as [|c s IH]; [change ("" ++ t) with t; simpl; lia|].
  rewrite append_cons. simpl String.length. rewrite !Nat2Z.inj_succ. lia.
Qed.

Lemma len_repeatString_one (c : ascii) (n : nat) :
  len (repeatString (String c "") n) = Z.of_nat n.
Proof.
  unfold len. induction n as [|n IH]; [reflexivity|].
  change (repeatString (String c "") (S n))
    with (String c (repeatString (String c "") n)).
  simpl String.length. rewrite !Nat2Z.inj_succ. lia.
Qed.

(** ** Sort engine: properties *)

Lemma returned_bindM {A B : Type} (m : M A) (k : A → M B) :
  returned (bindM m k) = returned m ≫= (λ x, returned (k x)).
Proof.
  unfold returned, bindM.
  destruct m as [[out x]|]; simpl; [|reflexivity].
  destruct (k x) as [[out' y]|]; reflexivity.
Qed.

Lemma returned_bindM_lift {A B : Type} (x : A) (k : A → M B) :
  returned (bindM (liftM (Some x)) k) = returned (k x).
Proof. rewrite returned_bindM. reflexivity. Qed.

Lemma returned_is_Some {A : Type} (m : M A) :
  is_Some m → ∃ x, returned m = Some x.
Proof. intros [[out x] ->]. exists x. reflexivity. Qed.

Lemma returned_bindM_liftM {A B : Type} (o : option A) (k : A → M B) :
  returned (bindM (liftM o) k) = o ≫= (λ x, returned (k x)).
Proof. destruct o; [apply returned_bindM_lift | reflexivity]. Qed.

Lemma callLess_returned ms k p q :
  returned (callLess ms k p q)
  = index ← indexes ms !! k;
    lessk ← less ms !! k;
    a ← p !! index;
    b ← q !! index;
    field ← schema ms !! index;
    match lessk with
    | Some f => returned (f a b field)
    | None => None
    end.
Proof.
  unfold callLess. unfold lessFunc in *.
  rewrite returned_bindM_liftM.
  destruct (indexes ms !! k) as [index|]; cbn [mbind option_bind]; [|done].
  rewrite returned_bindM_liftM.
  match goal with
  | |- context [?o ≫= _] =>
      destruct o as [lessk|]; cbn [mbind option_bind]; [|done]
  end.
  rewrite returned_bindM_liftM.
  destruct (p !! index) as [a|]; cbn [mbind option_bind]; [|done].
  rewrite returned_bindM_liftM.
  destruct (q !! index) as [b|]; cbn [mbind option_bind]; [|done].
  rewrite returned_bindM_liftM.
  destruct (schema ms !! index) as [field|]; [|done].
  by destruct lessk.
Qed.

(** The comparison of key [k], spelled out: the comparator and the column
    of the key, the two cells and the field, and what the comparator
    answers on the cells in the order of the pair. *)
Lemma callLess_cells ms k p q f index a b field :
  less ms !! k = Some (Some f) →
  indexes ms !! k = Some index →
  p !! index = Some a →
  q !! index = Some b →
  schema ms !! index = Some field →
  returned (callLess ms k p q) = returned (f a b field)
  ∧ returned (callLess ms k q p) = returned (f b a field).
Proof.
  intros Hf Hindex Ha Hb Hfield. rewrite !callLess_returned.
  rewrite Hindex. cbn [mbind option_bind]. rewrite Hf. cbn [mbind option_bind].
  rewrite Ha, Hb. cbn [mbind option_bind]. rewrite Hfield. by split.
Qed.

(** The loop of [Less] from key [k0] on, with [n] keys before the last
    one: the keys from [k0] up to [k] are tried in order, and nothing
    after key [k] is looked at once it decides. *)
Lemma lessLoop_first_deciding ms p q k f index a b field : ∀ n k0,
  (k0 ≤ k ≤ k0 + n)%nat →
  (∀ k', (k0 ≤ k' < k)%nat →
     ∃ f' index' a' b' field',
       less ms !! k' = Some (Some f') ∧ indexes ms !! k' = Some index'
       ∧ p !! index' = Some a' ∧ q !! index' = Some b'
       ∧ schema ms !! index' = Some field'
       ∧ returned (f' a' b' field') = Some false
       ∧ returned (f' b' a' field') = Some false) →
  less ms !! k = Some (Some f) →
  indexes ms !! k = Some index →
  p !! index = Some a →
  q !! index = Some b →
  schema ms !! index = Some field →
  (returned (f a b field) = Some true →
   returned (lessLoop ms n k0 p q) = Some true)
  ∧ (returned (f a b field) = Some false →
     returned (f b a field) = Some true →
     returned (lessLoop ms n k0 p q) = Some false)
  ∧ (k = (k0 + n)%nat →
     returned (lessLoop ms n k0 p q) = returned (f a b field)).
Proof.
  intros n k0 Hk Htied Hf Hindex Ha Hb Hfield.
  destruct (callLess_cells _ _ _ _ _ _ _ _ _ Hf Hindex Ha Hb Hfield)
    as [Hpq Hqp].
  revert k0 Hk Htied. induction n as [|n IH]; intros k0 Hk Htied.
  { assert (k0 = k) as -> by lia. cbn [lessLoop]. rewrite Hpq.
    split; [done|]. split; [by intros -> | done]. }
  cbn [lessLoop]. rewrite returned_bindM.
  destruct (decide (k0 = k)) as [->|Hne].
  - rewrite Hpq. split; [by intros ->|]. split; [|lia].
    intros -> Hrev. cbn [mbind option_bind].
    rewrite returned_bindM, Hqp, Hrev. reflexivity.
  - destruct (Htied k0) as (f' & index' & a' & b' & field' & Hf' & Hindex'
                            & Ha' & Hb' & Hfield' & Hfwd & Hrev); [lia|].
    destruct (callLess_cells _ _ _ _ _ _ _ _ _ Hf' Hindex' Ha' Hb' Hfield')
      as [Hpq' Hqp'].
    rewrite Hpq', Hfwd. cbn [mbind option_bind].
    rewrite returned_bindM, Hqp', Hrev. cbn [mbind option_bind].
    destruct (IH (S k0)) as (Htrue & Hfalse & Hlast); [lia| |].
    { intros k' Hk'. apply Htied. lia. }
    split; [done|]. split; [done|]. intros ->. apply Hlast. lia.
Qed.

(** C2. [Less] tries the keys in the given order.  Take a pair of rows
    and a key [k] such that every key before it is tied on the pair
    (its comparator, applied to the two cells of its column, says no in
    both orders).  If the comparator of key [k] says yes on the cells in
    the order of the pair, [Less] returns true; if it says no and says
    yes on the cells in the other order, [Less] returns false; the keys
    after [k] are not looked at.  If [k] is the last key, [Less] gives
    what its comparator gives on the cells in the order of the pair; so a
    pair tied on every key gets what the last comparator gives in either
    order, namely false. *)
Theorem Less_first_deciding_key (ms : MultiSorter) (i j : nat)
    (p q : list value) (k index : nat) (f : lessFunc) (a b : value)
    (field : SchemaField) :
  data ms !! i = Some p →
  data ms !! j = Some q →
  (∀ k', (k' < k)%nat →
     ∃ f' index' a' b' field',
       less ms !! k' = Some (Some f') ∧ indexes ms !! k' = Some index'
       ∧ p !! index' = Some a' ∧ q !! index' = Some b'
       ∧ schema ms !! index' = Some field'
       ∧ returned (f' a' b' field') = Some false
       ∧ returned (f' b' a' field') = Some false) →
  less ms !! k = Some (Some f) →
  indexes ms !! k = Some index →
  p !! index = Some a →
  q !! index = Some b →
  schema ms !! index = Some field →
  (returned (f a b field) = Some true → returned (Less ms i j) = Some true)
  ∧ (returned (f a b field) = Some false →
     returned (f b a field) = Some true →
     returned (Less ms i j) = Some false)
  ∧ (S k = length (less ms) →
     returned (Less ms i j) = returned (f a b field)
     ∧ (returned (f a b field) = Some false →
        returned (f b a field) = Some false →
        returned (Less ms i j) = returned (f b a field))).
Proof.
  intros Hp Hq Htied Hf Hindex Ha Hb Hfield.
  assert (k < length (less ms))%nat as Hk by (by eapply lookup_lt_Some).
  assert (returned (Less ms i j)
          = returned (lessLoop ms (length (less ms) - 1) 0 p q)) as ->.
  { unfold Less. rewrite Hp, Hq.
    rewrite returned_bindM_lift. cbv beta. by rewrite returned_bindM_lift. }
  destruct (lessLoop_first_deciding ms p q k f index a b field
              (length (less ms) - 1) 0) as (Htrue & Hfalse & Hlast);
    try done.
  { lia. }
  { intros k' Hk'. apply Htied. lia. }
  split; [done|]. split; [done|]. intros Hlen.
  rewrite Hlast by lia. split; [done|]. by intros -> ->.
Qed.

Lemma Less_first_deciding_key_witness :
  let ms := Sample.sorter6 in
  let p := [VInt 5; VString "wt11r444"; VFloat Sample.f2_3] in
  let q := [VInt 5; VString "wt11r444"; VFloat Sample.f2_1] in
  data ms !! 2%nat = Some p ∧ data ms !! 3%nat = Some q
  ∧ less ms !! 2%nat = Some (Some lessFloat)
  ∧ indexes ms !! 2%nat = Some 2%nat
  ∧ returned (lessFloat (VFloat Sample.f2_3) (VFloat Sample.f2_1)
                (Sample.field "INST." TypeFloat 6 2)) = Some false
  ∧ returned (lessFloat (VFloat Sample.f2_1) (VFloat Sample.f2_3)
                (Sample.field "INST." TypeFloat 6 2)) = Some true
  ∧ returned (Less ms 2 3) = Some false.
Proof.
  intros ms p q.
  split; [reflexivity|]. split; [reflexivity|]. split; [reflexivity|].
  split; [reflexivity|]. split; [reflexivity|]. split; [reflexivity|].
  refine (proj1 (proj2
            (Less_first_deciding_key ms 2 3 p q 2 2 lessFloat
               (VFloat Sample.f2_3) (VFloat Sample.f2_1)
               (Sample.field "INST." TypeFloat 6 2)
               eq_refl eq_refl _ eq_refl eq_refl eq_refl eq_refl eq_refl))
            eq_refl eq_refl).
  intros [|[|k']] Hk'; [| |lia].
  - exists lessString, 1%nat, (VString "wt11r444"), (VString "wt11r444"),
      (Sample.field "LABEL" TypeString 20 0).
    repeat (split; [reflexivity|]). reflexivity.
  - exists lessInt, 0%nat, (VInt 5), (VInt 5), (Sample.field "ID" TypeInt 6 0).
    repeat (split; [reflexivity|]). reflexivity.
Defined.

Section SortProperties.

Variable fmt_Sprintf : string → list value → string.
Context {GoTime : Type}.
Variable time_Parse : string → string → option GoTime.
Variable time_Before : GoTime → GoTime → bool.

Local Abbreviation lessFor := (lessFor fmt_Sprintf time_Parse time_Before).
Local Abbreviation lessDateTime :=
  (lessDateTime fmt_Sprintf time_Parse time_Before).

(** C6. The comparator [OrderBy] installs for a Boolean column returns
    true exactly when its operands differ; on (true, false) and on
    (false, true) it gives the same answer, so both orders of a pair of
    different values are "less". *)
Theorem lessBool_differs (a b : bool) (field : SchemaField) :
  lessFor TypeBool = Some lessBool
  ∧ lessBool (VBool a) (VBool b) field = ret (bool_decide (a ≠ b))
  ∧ (returned (lessBool (VBool a) (VBool b) field) = Some true ↔ a ≠ b)
  ∧ lessBool (VBool true) (VBool false) field
    = lessBool (VBool false) (VBool true) field
  ∧ lessBool (VBool a) (VBool b) field = lessBool (VBool b) (VBool a) field
  ∧ ∃ x y, x ≠ y
      ∧ returned (lessBool (VBool x) (VBool y) field) = Some true
      ∧ returned (lessBool (VBool y) (VBool x) field) = Some true.
Proof.
  split; [reflexivity|].
  split; [destruct a, b; reflexivity|].
  split; [destruct a, b; cbn; split; intros; congruence|].
  split; [reflexivity|].
  split; [destruct a, b; reflexivity|].
  exists true, false. repeat split; discriminate.
Qed.

(** The layout [lessDateTime] parses with. *)
Let layoutOf (field : SchemaField) : string :=
  if bool_decide (FieldFormat field = "")
  then "2006-01-02T15:04:05Z" else FieldFormat field.

Let notice (s : string) : string :=
  fmt_Sprintf "could not convert string %s to date time" [VString s].

(** C7. The comparator [OrderBy] installs for a DateTime column parses
    with the column's [FieldFormat] when it is not empty and with
    "2006-01-02T15:04:05Z" otherwise; two operands that parse are compared
    chronologically; an operand that does not parse is reported on
    standard output and the comparator returns false, in either order of
    the pair, without a panic. *)
Theorem lessDateTime_degrades (field : SchemaField) (a b : string) :
  lessFor TypeDateTime = Some lessDateTime
  ∧ (∀ ta tb, time_Parse (layoutOf field) a = Some ta →
              time_Parse (layoutOf field) b = Some tb →
              lessDateTime (VString a) (VString b) field
              = ret (time_Before ta tb))
  ∧ (time_Parse (layoutOf field) a = None →
     lessDateTime (VString a) (VString b) field = Some (notice a, false))
  ∧ (∀ ta, time_Parse (layoutOf field) a = Some ta →
           time_Parse (layoutOf field) b = None →
           lessDateTime (VString a) (VString b) field = Some (notice b, false))
  ∧ (time_Parse (layoutOf field) a = None
     ∨ time_Parse (layoutOf field) b = None →
     returned (lessDateTime (VString a) (VString b) field) = Some false
     ∧ returned (lessDateTime (VString b) (VString a) field) = Some false).
Proof.
  assert ((if bool_decide (FieldFormat field ≠ "")
           then FieldFormat field else DefaultTimeFormat) = layoutOf field)
    as Hlayout.
  { unfold layoutOf. repeat case_bool_decide; done. }
  assert (∀ x y, time_Parse (layoutOf field) x = None →
                 lessDateTime (VString x) (VString y) field
                 = Some (notice x, false)) as Hbad.
  { intros x y Hx. unfold lessDateTime. cbv zeta. rewrite Hlayout, Hx.
    unfold notice, bindM, Print, ret. by rewrite append_nil_r. }
  assert (∀ x y tx, time_Parse (layoutOf field) x = Some tx →
                    lessDateTime (VString x) (VString y) field
                    = match time_Parse (layoutOf field) y with
                      | None => Some (notice y, false)
                      | Some ty => ret (time_Before tx ty)
                      end) as Hgood.
  { intros x y tx Hx. unfold lessDateTime. cbv zeta. rewrite Hlayout, Hx.
    destruct (time_Parse _ y); [reflexivity|].
    unfold notice, bindM, Print, ret. by rewrite append_nil_r. }
  split; [reflexivity|].
  split. { intros ta tb Ha Hb. rewrite (Hgood _ _ _ Ha), Hb. reflexivity. }
  split. { apply Hbad. }
  split. { intros ta Ha Hb. rewrite (Hgood _ _ _ Ha), Hb. reflexivity. }
  intros Hfail.
  destruct (time_Parse (layoutOf field) a) as [ta|] eqn:Ha;
    destruct (time_Parse (layoutOf field) b) as [tb|] eqn:Hb.
  - destruct Hfail; discriminate.
  - rewrite (Hgood _ _ _ Ha), Hb, (Hbad _ _ Hb). done.
  - rewrite (Hbad _ _ Ha), (Hgood _ _ _ Hb), Ha. done.
  - rewrite (Hbad _ _ Ha), (Hbad _ _ Hb). done.
Qed.

End SortProperties.

Lemma lessDateTime_degrades_witness :
  let bad := "29 Nov 2013" in
  let good := "2013-11-29T13:00:01Z" in
  (Sample.time_Parse "2006-01-02T15:04:05Z" bad = None
   ∨ Sample.time_Parse "2006-01-02T15:04:05Z" good = None)
  ∧ returned (Sample.lessDateTime (VString bad) (VString good) Sample.dateField)
    = Some false
  ∧ returned (Sample.lessDateTime (VString good) (VString bad) Sample.dateField)
    = Some false.
Proof.
  intros bad good.
  split; [left; reflexivity|].
  apply (lessDateTime_degrades Fmt.Sprintf Sample.time_Parse Sample.time_Before
           Sample.dateField bad good).
  left. reflexivity.
Defined.

(** ** Column-width adjuster: properties *)

Lemma widest_max (a b : Z) (sizes : list Z) :
  widest (Z.max a b) sizes = Z.max a (widest b sizes).
Proof.
  induction sizes as [|c sizes IH]; [reflexivity|].
  unfold widest in *. simpl. rewrite IH. lia.
Qed.

Lemma widest_ge_base (b : Z) (sizes : list Z) : b <= widest b sizes.
Proof.
  induction sizes as [|c sizes IH]; unfold widest in *; simpl; lia.
Qed.

Section AdjusterProperties.

Variable fmt_Sprintf : string → list value → string.

Local Abbreviation getCellSize := (getCellSize fmt_Sprintf).
Local Abbreviation columnLoop := (columnLoop fmt_Sprintf).
Local Abbreviation adjustLoop := (adjustLoop fmt_Sprintf).
Local Abbreviation AdjustFieldSizes := (AdjustFieldSizes fmt_Sprintf).
Local Abbreviation cellSizes := (cellSizes fmt_Sprintf).
Local Abbreviation adjustField := (adjustField fmt_Sprintf).
Local Abbreviation adjustFrom := (adjustFrom fmt_Sprintf).

(** The measured width of a cell does not depend on the width of its
    column. *)
Lemma getCellSize_setFieldSize d f n :
  getCellSize d (setFieldSize f n) = getCellSize d f.
Proof. reflexivity. Qed.

Lemma cellSizes_setFieldSize rows i f n :
  cellSizes rows i (setFieldSize f n) = cellSizes rows i f.
Proof. reflexivity. Qed.

(** The loop over a column computes the largest of its start value and
    the measured widths. *)
Lemma columnLoop_widest rows i f : ∀ m,
  columnLoop rows i f m = widest m <$> cellSizes rows i f.
Proof.
  induction rows as [|row rows IH]; intros m; [reflexivity|].
  unfold cellSizes in *. simpl.
  destruct (row !! i) as [d|]; [|reflexivity]. simpl.
  destruct (getCellSize d f) as [c|]; [|reflexivity]. cbn.
  rewrite IH.
  destruct (mapM _ rows) as [sizes|]; [|reflexivity]. cbn.
  f_equal. replace (if m <? c then c else m) with (Z.max c m)
    by (destruct (Z.ltb_spec m c); lia).
  apply widest_max.
Qed.

(** One pass on a field: what it returns, in terms of the widest text of
    the column. *)
Lemma adjustField_Some data i f f' :
  adjustField data i f = Some f' ↔
  ∃ sizes, cellSizes data i f = Some sizes
    ∧ f' = (if FieldSize f <? widest (len (FieldName f)) sizes
            then setFieldSize f (widest (len (FieldName f)) sizes + 1)
            else f).
Proof.
  unfold adjustField. rewrite columnLoop_widest.
  replace (if FieldSize f <? len (FieldName f)
           then len (FieldName f) else FieldSize f)
    with (Z.max (FieldSize f) (len (FieldName f)))
    by (destruct (Z.ltb_spec (FieldSize f) (len (FieldName f))); lia).
  destruct (cellSizes data i f) as [sizes|]; simpl.
  - rewrite widest_max.
    set (m := widest (len (FieldName f)) sizes).
    assert ((if FieldSize f <? Z.max (FieldSize f) m
             then setFieldSize f (Z.max (FieldSize f) m + 1) else f)
            = (if FieldSize f <? m then setFieldSize f (m + 1) else f)) as ->.
    { destruct (Z.ltb_spec (FieldSize f) m);
        destruct (Z.ltb_spec (FieldSize f) (Z.max (FieldSize f) m));
        try lia; [|reflexivity].
      by replace (Z.max (FieldSize f) m) with m by lia. }
    split.
    + intros [= <-]. by exists sizes.
    + intros (sizes' & [= <-] & ->). reflexivity.
  - split; [discriminate|]. intros (sizes' & [=] & _).
Qed.

(** A second pass on an adjusted field changes nothing. *)
Lemma adjustField_idempotent data i f f' :
  adjustField data i f = Some f' → adjustField data i f' = Some f'.
Proof.
  intros Hf. pose proof Hf as (sizes & Hsizes & ->)%adjustField_Some.
  set (m := widest (len (FieldName f)) sizes) in *.
  destruct (Z.ltb_spec (FieldSize f) m) as [Hlt|Hge]; [|exact Hf].
  apply adjustField_Some. exists sizes.
  rewrite cellSizes_setFieldSize. split; [exact Hsizes|].
  change (FieldName (setFieldSize f (m + 1))) with (FieldName f).
  change (FieldSize (setFieldSize f (m + 1))) with (m + 1).
  fold m. destruct (Z.ltb_spec (m + 1) m); [lia|reflexivity].
Qed.

(** The loop of [AdjustFieldSizes] visits the columns one after the other
    and rewrites only the field of the column it visits. *)
Lemma adjustLoop_adjustFrom data post : ∀ pre,
  adjustLoop (length post) (length pre) data (pre ++ post)
  = (λ post', (pre ++ post')%list) <$> adjustFrom data (length pre) post.
Proof.
  induction post as [|f post IH]; intros pre.
  - simpl. by rewrite app_nil_r.
  - simpl. rewrite list_lookup_middle by reflexivity. simpl.
    unfold adjustField.
    destruct (columnLoop _ _ _ _) as [maxLen|]; [|reflexivity].
    simpl.
    assert (∀ g, adjustLoop (length post) (S (length pre)) data (pre ++ g :: post)
                 = (λ post', (pre ++ g :: post')%list)
                     <$> adjustFrom data (S (length pre)) post) as Hnext.
    { intros g. specialize (IH (pre ++ [g])%list).
      rewrite length_app, Nat.add_1_r, <- !app_assoc in IH. simpl in IH.
      rewrite IH. destruct (adjustFrom _ _ post); simpl; [|reflexivity].
      by rewrite <- app_assoc. }
    destruct (FieldSize f <? maxLen).
    + rewrite (insert_app_r_alt pre (f :: post) (length pre)) by lia.
      rewrite Nat.sub_diag. simpl. rewrite Hnext.
      by destruct (adjustFrom _ _ post).
    + rewrite Hnext. by destruct (adjustFrom _ _ post).
Qed.

Lemma AdjustFieldSizes_adjustFrom t :
  AdjustFieldSizes t
  = (λ schema, {| Data := Data t; Schema := schema |})
      <$> adjustFrom (Data t) 0 (Schema t).
Proof.
  unfold AdjustFieldSizes.
  pose proof (adjustLoop_adjustFrom (Data t) (Schema t) []) as Hloop.
  simpl in Hloop. rewrite Hloop.
  by destruct (adjustFrom _ _ _).
Qed.

Lemma adjustFrom_lookup data fields : ∀ i fields' j f,
  adjustFrom data i fields = Some fields' →
  fields !! j = Some f →
  ∃ f', fields' !! j = Some f' ∧ adjustField data (i + j) f = Some f'.
Proof.
  induction fields as [|g fields IH]; intros i fields' j f Hadj Hj; [done|].
  simpl in Hadj.
  destruct (adjustField data i g) as [g'|] eqn:Hg; [|done]. simpl in Hadj.
  destruct (adjustFrom data (S i) fields) as [rest'|] eqn:Hrest; [|done].
  injection Hadj as <-.
  destruct j as [|j]; simpl in *.
  - injection Hj as <-. exists g'. by rewrite Nat.add_0_r.
  - destruct (IH _ _ _ _ Hrest Hj) as (f' & Hf' & Hadj').
    exists f'. split; [done|]. by rewrite Nat.add_succ_r.
Qed.

Lemma adjustFrom_length data fields : ∀ i fields',
  adjustFrom data i fields = Some fields' → length fields' = length fields.
Proof.
  induction fields as [|g fields IH]; intros i fields' Hadj.
  - by injection Hadj as <-.
  - simpl in Hadj. destruct (adjustField data i g); [|done]. simpl in Hadj.
    destruct (adjustFrom data (S i) fields) eqn:Hrest; [|done].
    injection Hadj as <-. simpl. f_equal. eauto.
Qed.

Lemma adjustFrom_idempotent data fields : ∀ i fields',
  adjustFrom data i fields = Some fields' →
  adjustFrom data i fields' = Some fields'.
Proof.
  induction fields as [|g fields IH]; intros i fields' Hadj.
  - by injection Hadj as <-.
  - simpl in Hadj.
    destruct (adjustField data i g) as [g'|] eqn:Hg; [|done]. simpl in Hadj.
    destruct (adjustFrom data (S i) fields) as [rest'|] eqn:Hrest; [|done].
    injection Hadj as <-. simpl.
    rewrite (adjustField_idempotent _ _ _ _ Hg). simpl.
    by rewrite (IH _ _ Hrest).
Qed.

(** C4. When [AdjustFieldSizes] returns, a second call on the adjusted
    table (same data) returns the very same table: the field sizes are
    left exactly as the first call set them. *)
Theorem AdjustFieldSizes_idempotent (t t' : Table) :
  AdjustFieldSizes t = Some t' → AdjustFieldSizes t' = Some t'.
Proof.
  rewrite !AdjustFieldSizes_adjustFrom.
  destruct (adjustFrom (Data t) 0 (Schema t)) as [schema'|] eqn:Hadj; [|done].
  intros [= <-]. simpl.
  by rewrite (adjustFrom_idempotent _ _ _ _ Hadj).
Qed.

(** C8. When [AdjustFieldSizes] returns, every column keeps its field but
    for [FieldSize], which never decreases: it is unchanged when it is at
    least the largest of the length of the header name and the measured
    widths of the cells of the column, and otherwise becomes that maximum
    plus 1.  The data is untouched. *)
Theorem AdjustFieldSizes_grows (t t' : Table) (i : nat) (f : SchemaField) :
  AdjustFieldSizes t = Some t' →
  Schema t !! i = Some f →
  Data t' = Data t
  ∧ length (Schema t') = length (Schema t)
  ∧ ∃ f' sizes,
      Schema t' !! i = Some f'
      ∧ cellSizes (Data t) i f = Some sizes
      ∧ FieldSize f <= FieldSize f'
      ∧ f' = setFieldSize f (FieldSize f')
      ∧ (widest (len (FieldName f)) sizes <= FieldSize f →
         FieldSize f' = FieldSize f)
      ∧ (FieldSize f < widest (len (FieldName f)) sizes →
         FieldSize f' = widest (len (FieldName f)) sizes + 1).
Proof.
  rewrite AdjustFieldSizes_adjustFrom.
  destruct (adjustFrom (Data t) 0 (Schema t)) as [schema'|] eqn:Hadj; [|done].
  intros [= <-] Hi. simpl.
  split; [reflexivity|]. split.
  { by eapply adjustFrom_length. }
  destruct (adjustFrom_lookup _ _ _ _ _ _ Hadj Hi) as (f' & Hf' & Hpass).
  apply adjustField_Some in Hpass as (sizes & Hsizes & ->).
  exists (if FieldSize f <? widest (len (FieldName f)) sizes
          then setFieldSize f (widest (len (FieldName f)) sizes + 1) else f),
         sizes.
  split; [exact Hf'|]. split; [exact Hsizes|].
  destruct (Z.ltb_spec (FieldSize f) (widest (len (FieldName f)) sizes));
    simpl; repeat split; try lia; by destruct f.
Qed.

End AdjusterProperties.

Lemma AdjustFieldSizes_idempotent_witness :
  let t := {| Data := Sample.data4; Schema := Sample.schema4 |} in
  let t' := {| Data := Sample.data4; Schema := Sample.adjusted4 |} in
  Sample.AdjustFieldSizes t = Some t' ∧ Sample.AdjustFieldSizes t' = Some t'.
Proof.
  intros t t'. split; [reflexivity|].
  apply (AdjustFieldSizes_idempotent Fmt.Sprintf t t'). reflexivity.
Defined.

Lemma AdjustFieldSizes_grows_witness :
  let t := {| Data := Sample.data4; Schema := Sample.schema4 |} in
  let t' := {| Data := Sample.data4; Schema := Sample.adjusted4 |} in
  let f := Sample.field "INST." TypeFloat 0 4 in
  Sample.AdjustFieldSizes t = Some t'
  ∧ Schema t !! 2%nat = Some f
  ∧ Data t' = Data t
  ∧ length (Schema t') = length (Schema t)
  ∧ ∃ f' sizes,
      Schema t' !! 2%nat = Some f'
      ∧ cellSizes Fmt.Sprintf (Data t) 2 f = Some sizes
      ∧ FieldSize f <= FieldSize f'
      ∧ f' = setFieldSize f (FieldSize f')
      ∧ (widest (len (FieldName f)) sizes <= FieldSize f →
         FieldSize f' = FieldSize f)
      ∧ (FieldSize f < widest (len (FieldName f)) sizes →
         FieldSize f' = widest (len (FieldName f)) sizes + 1).
Proof.
  intros t t' f. split; [reflexivity|]. split; [reflexivity|].
  apply (AdjustFieldSizes_grows Fmt.Sprintf t t' 2 f); reflexivity.
Defined.

(** ** Row layout engine: properties *)

Lemma concat_cons (s : string) (l : list string) :
  String.concat "" (s :: l) = s ++ String.concat "" l.
Proof. destruct l; simpl; [by rewrite append_nil_r | reflexivity]. Qed.

Lemma strings_Join_cons (s t : string) (l : list string) (sep : string) :
  strings_Join (s :: t :: l) sep = s ++ sep ++ strings_Join (t :: l) sep.
Proof. reflexivity. Qed.

Lemma heightOf_cons base cell cells :
  heightOf base (cell :: cells) = heightOf (Nat.max base (length cell)) cells.
Proof. reflexivity. Qed.

Lemma heightOf_ge_base cells : ∀ base, (base ≤ heightOf base cells)%nat.
Proof.
  induction cells as [|cell cells IH]; intros base; [done|].
  rewrite heightOf_cons. specialize (IH (Nat.max base (length cell))). lia.
Qed.

Lemma heightOf_ge_cell cells : ∀ base cell,
  cell ∈ cells → (length cell ≤ heightOf base cells)%nat.
Proof.
  induction cells as [|c cells IH]; intros base cell Hin.
  - by apply elem_of_nil in Hin.
  - rewrite heightOf_cons. apply elem_of_cons in Hin as [->|Hin].
    + pose proof (heightOf_ge_base cells (Nat.max base (length c))). lia.
    + by apply IH.
Qed.

Section LayoutProperties.

Variable fmt_Sprintf : string → list value → string.

Local Abbreviation formatCell := (formatCell fmt_Sprintf).
Local Abbreviation formatCells := (formatCells fmt_Sprintf).
Local Abbreviation fillCell := (fillCell fmt_Sprintf).
Local Abbreviation getTableRow := (getTableRow fmt_Sprintf).
Local Abbreviation getTableHeader := (getTableHeader fmt_Sprintf).
Local Abbreviation getTableAsString := (getTableAsString fmt_Sprintf).
Local Abbreviation getCellSize := (getCellSize fmt_Sprintf).
Local Abbreviation cellLines := (cellLines fmt_Sprintf).
Local Abbreviation rowCells := (rowCells fmt_Sprintf).
Local Abbreviation padLine := (padLine fmt_Sprintf).

(** The first loop: only a text cell can raise the height of the row. *)
Lemma formatCell_cellLines f d h :
  (1 ≤ h)%nat →
  formatCell f d h = (λ cell, (cell, Nat.max h (length cell))) <$> cellLines f d.
Proof.
  intros Hh. unfold cellLines, formatCell.
  destruct (FieldType f =? TypeInt).
  { destruct d; simpl; try reflexivity. do 2 f_equal. lia. }
  destruct (FieldType f =? TypeString).
  { destruct d; simpl; try reflexivity. do 2 f_equal.
    set (n := length _).
    destruct (Nat.ltb_spec h n); destruct (Nat.ltb_spec 1 n); lia. }
  destruct (FieldType f =? TypeFloat).
  { destruct d; simpl; try reflexivity. do 2 f_equal. lia. }
  simpl. do 2 f_equal. lia.
Qed.

Lemma cellLines_is_Some f d : is_Some (cellLines f d) ↔ cellTyped f d = true.
Proof.
  unfold cellLines, formatCell, cellTyped.
  destruct (FieldType f =? TypeInt);
    [|destruct (FieldType f =? TypeString);
      [|destruct (FieldType f =? TypeFloat)]];
    destruct d; simpl; split; (done || by eauto || by intros []).
Qed.

Lemma getCellSize_is_Some f d : is_Some (getCellSize d f) ↔ cellTyped f d = true.
Proof.
  unfold getCellSize, cellTyped.
  destruct (FieldType f =? TypeInt);
    [|destruct (FieldType f =? TypeString);
      [|destruct (FieldType f =? TypeFloat)]];
    destruct d; simpl; split; (done || by eauto || by intros []).
Qed.

Lemma formatCells_rowCells fields : ∀ i row rowStr h,
  (1 ≤ h)%nat →
  formatCells fields i row rowStr h
  = (λ cells, ((rowStr ++ cells)%list, heightOf h cells)) <$> rowCells fields i row.
Proof.
  induction fields as [|f fields IH]; intros i row rowStr h Hh; simpl.
  { by rewrite app_nil_r. }
  destruct (row !! i) as [d|]; [|reflexivity]. simpl.
  rewrite formatCell_cellLines by done.
  destruct (cellLines f d) as [cell|]; [|reflexivity]. simpl.
  rewrite IH by lia.
  destruct (rowCells fields (S i) row) as [cells|]; [|reflexivity]. simpl.
  by rewrite <- app_assoc.
Qed.

Lemma rowCells_is_Some fields : ∀ i row,
  is_Some (rowCells fields i row) ↔ rowTyped fields i row.
Proof.
  induction fields as [|f fields IH]; intros i row; simpl.
  { split; [done | by eauto]. }
  rewrite <- IH. split.
  - intros [cells Hcells].
    destruct (row !! i) as [d|]; [|done]. simpl in Hcells.
    destruct (cellLines f d) as [cell|] eqn:Hcell; [|done]. simpl in Hcells.
    destruct (rowCells fields (S i) row); [|done].
    split; [|by eauto]. exists d. split; [done|].
    apply cellLines_is_Some. by eauto.
  - intros [(d & -> & Hd) [cells ->]]. simpl.
    apply cellLines_is_Some in Hd as [cell ->]. simpl. by eauto.
Qed.

Lemma rowCells_length fields : ∀ i row cells,
  rowCells fields i row = Some cells → length cells = length fields.
Proof.
  induction fields as [|f fields IH]; intros i row cells; simpl.
  { by intros [= <-]. }
  destruct (row !! i) as [d|]; [|done]. simpl.
  destruct (cellLines f d) as [cell|]; [|done]. simpl.
  destruct (rowCells fields (S i) row) as [rest|] eqn:Hrest; [|done].
  intros [= <-]. simpl. f_equal. eauto.
Qed.

Lemma rowCells_lookup fields : ∀ i row cells j f,
  rowCells fields i row = Some cells →
  fields !! j = Some f →
  ∃ d cell, row !! (i + j)%nat = Some d ∧ cellLines f d = Some cell
            ∧ cells !! j = Some cell.
Proof.
  induction fields as [|g fields IH]; intros i row cells j f; simpl; [done|].
  destruct (row !! i) as [d|] eqn:Hd; [|done]. simpl.
  destruct (cellLines g d) as [cell|] eqn:Hcell; [|done]. simpl.
  destruct (rowCells fields (S i) row) as [rest|] eqn:Hrest; [|done].
  intros [= <-] Hj. destruct j as [|j]; simpl in *.
  - injection Hj as <-. exists d, cell. by rewrite Nat.add_0_r.
  - destruct (IH _ _ _ _ _ Hrest Hj) as (d' & cell' & Hd' & Hcell' & Hj').
    exists d', cell'. by rewrite Nat.add_succ_r.
Qed.

Lemma fillCell_length h cell :
  length (fillCell h cell) = Nat.max h (length cell).
Proof.
  unfold fillCell. rewrite length_app, length_map, length_replicate. lia.
Qed.

(** The inner loop of the third pass writes the line [y] cell by cell. *)
Lemma writeCells_spec rowStr y : ∀ sb,
  Forall (λ cell, (y < length cell)%nat) rowStr →
  writeCells rowStr y sb
  = Some (sb ++ String.concat ""
                  (map (λ cell, DefaultDelimiter ++ default "" (cell !! y)) rowStr)).
Proof.
  induction rowStr as [|cell rowStr IH]; intros sb Hall.
  { simpl. by rewrite append_nil_r. }
  apply Forall_cons in Hall as [Hcell Hall].
  destruct (lookup_lt_is_Some_2 cell y Hcell) as [s Hs].
  simpl writeCells. rewrite Hs. cbn [mbind option_bind].
  rewrite IH by done. rewrite map_cons, concat_cons, Hs. simpl default.
  by rewrite !append_assoc.
Qed.

(** The third pass writes the lines [y], [y+1], ... separated by line
    breaks. *)
Lemma writeLines_spec rowStr h n : ∀ y sb,
  Forall (λ cell, (h ≤ length cell)%nat) rowStr →
  (y + n = h)%nat →
  writeLines rowStr h n y sb
  = Some (sb ++ strings_Join (map (rowLine rowStr) (seq y n)) nl).
Proof.
  induction n as [|n IH]; intros y sb Hall Hy.
  { simpl. by rewrite append_nil_r. }
  cbn [writeLines].
  rewrite writeCells_spec
    by (eapply Forall_impl; [exact Hall | simpl; intros; lia]).
  cbn [mbind option_bind]. rewrite IH by (done || lia). f_equal.
  change (seq y (S n)) with (y :: seq (S y) n). rewrite map_cons.
  destruct n as [|n].
  - destruct (Nat.ltb_spec y (h - 1)); [lia|].
    change (strings_Join (map (rowLine rowStr) (seq (S y) 0)) nl) with "".
    change (strings_Join (rowLine rowStr y :: map (rowLine rowStr) (seq (S y) 0)) nl)
      with (rowLine rowStr y).
    unfold rowLine. by rewrite append_nil_r, append_assoc.
  - destruct (Nat.ltb_spec y (h - 1)); [|lia].
    change (seq (S y) (S n)) with (S y :: seq (S (S y)) n).
    rewrite !map_cons, (strings_Join_cons (rowLine rowStr y)).
    unfold rowLine at 3. by rewrite !append_assoc.
Qed.

(** The row renderer: the cells are formatted, filled to the height of
    the row and written line by line. *)
Lemma getTableRow_spec row schema :
  getTableRow row schema
  = (λ cells,
       let h := heightOf 1 cells in
       strings_Join (map (rowLine (map (fillCell h) cells)) (seq 0 h)) nl)
      <$> rowCells schema 0 row.
Proof.
  unfold getTableRow. rewrite formatCells_rowCells by done.
  destruct (rowCells schema 0 row) as [cells|]; [|reflexivity]. simpl.
  rewrite writeLines_spec; [reflexivity| |lia].
  apply Forall_forall. intros cell (c & -> & _)%list_elem_of_fmap.
  rewrite fillCell_length. lia.
Qed.

(** A row is rendered exactly when every cell has the type of its
    column. *)
Lemma getTableRow_is_Some row schema :
  is_Some (getTableRow row schema) ↔ rowTyped schema 0 row.
Proof.
  rewrite getTableRow_spec, <- rowCells_is_Some.
  destruct (rowCells schema 0 row); simpl; split; (by eauto || by intros []).
Qed.

End LayoutProperties.

(** ** Table assembler and rendering: properties *)

Section RenderProperties.

Variable fmt_Sprintf : string → list value → string.
Variable strings_ToLower strcase_ToLowerCamel : string → string.
Variable yaml_Marshal : marshaller.
Variable json_MarshalIndent : list (gmap string value) → string → string → result.
Variable csv_Write : list string → string.

Local Abbreviation getTableRow := (getTableRow fmt_Sprintf).
Local Abbreviation getTableHeader := (getTableHeader fmt_Sprintf).
Local Abbreviation getTableAsString := (getTableAsString fmt_Sprintf).
Local Abbreviation getCellSize := (getCellSize fmt_Sprintf).
Local Abbreviation getRowSize := (getRowSize fmt_Sprintf).
Local Abbreviation rowSizeLoop := (rowSizeLoop fmt_Sprintf).
Local Abbreviation rowWidths := (rowWidths fmt_Sprintf).
Local Abbreviation cellSizes := (cellSizes fmt_Sprintf).
Local Abbreviation adjustField := (adjustField fmt_Sprintf).
Local Abbreviation adjustFrom := (adjustFrom fmt_Sprintf).
Local Abbreviation AdjustFieldSizes := (AdjustFieldSizes fmt_Sprintf).
Local Abbreviation getTableAsYAMLString :=
  (getTableAsYAMLString strings_ToLower strcase_ToLowerCamel yaml_Marshal).
Local Abbreviation foldRows :=
  (foldRows strings_ToLower strcase_ToLowerCamel yaml_Marshal).
Local Abbreviation getFoldedTableAsString :=
  (getFoldedTableAsString fmt_Sprintf strings_ToLower strcase_ToLowerCamel
     yaml_Marshal).
Local Abbreviation RenderTableFoldable :=
  (RenderTableFoldable fmt_Sprintf strings_ToLower strcase_ToLowerCamel
     yaml_Marshal json_MarshalIndent csv_Write).

(** The header is a row of text cells: rendering it cannot panic. *)
Lemma header_rowTyped schema : ∀ pre,
  rowTyped (map headerField schema) (length pre)
    (pre ++ map (λ f, VString (FieldName f)) schema).
Proof.
  induction schema as [|f schema IH]; intros pre; simpl; [done|].
  split.
  - exists (VString (FieldName f)). split; [|reflexivity].
    by apply list_lookup_middle.
  - specialize (IH (pre ++ [VString (FieldName f)])%list).
    by rewrite length_app, Nat.add_1_r, <- app_assoc in IH.
Qed.

Lemma getTableHeader_is_Some schema : is_Some (getTableHeader schema).
Proof.
  unfold getTableHeader. apply getTableRow_is_Some.
  apply (header_rowTyped schema []).
Qed.

(** A table whose rows have the types of the schema is assembled without
    a panic. *)
Lemma getTableAsString_is_Some data schema :
  Forall (rowTyped schema 0) data → is_Some (getTableAsString data schema).
Proof.
  intros Htyped. unfold getTableAsString.
  destruct (getTableHeader_is_Some schema) as [header ->]. simpl.
  assert (is_Some (mapM (λ row, getTableRow row schema) data)) as [body ->].
  { apply mapM_is_Some. eapply Forall_impl; [exact Htyped|].
    intros row Hrow. by apply getTableRow_is_Some. }
  simpl. by eauto.
Qed.

(** What the adjuster has measured has the types of the schema. *)
Lemma adjustFrom_rowTyped data fields : ∀ i fields',
  adjustFrom data i fields = Some fields' →
  Forall (rowTyped fields i) data.
Proof.
  induction fields as [|f fields IH]; intros i fields' Hadj.
  { apply Forall_forall. by intros. }
  simpl in Hadj.
  destruct (adjustField data i f) as [f'|] eqn:Hf; [|done]. simpl in Hadj.
  destruct (adjustFrom data (S i) fields) as [rest'|] eqn:Hrest; [|done].
  apply adjustField_Some in Hf as (sizes & Hsizes & _).
  assert (is_Some (cellSizes data i f)) as Hall%mapM_is_Some_1 by eauto.
  specialize (IH _ _ Hrest).
  rewrite Forall_forall in *. intros row Hrow. simpl. split; [|by apply IH].
  specialize (Hall row Hrow). simpl in Hall.
  destruct (row !! i) as [d|]; [|by destruct Hall].
  exists d. split; [done|]. by apply (getCellSize_is_Some fmt_Sprintf).
Qed.

(** Conversely, the adjuster returns on every table whose rows have the
    types of the schema. *)
Lemma adjustFrom_is_Some data fields : ∀ i,
  Forall (rowTyped fields i) data → is_Some (adjustFrom data i fields).
Proof.
  induction fields as [|f fields IH]; intros i Htyped; simpl; [by eauto|].
  assert (is_Some (cellSizes data i f)) as [sizes Hsizes].
  { apply mapM_is_Some_2. eapply Forall_impl; [exact Htyped|].
    intros row [(d & Hd & Hty) _]. simpl. rewrite Hd. simpl.
    by apply (getCellSize_is_Some fmt_Sprintf). }
  assert (is_Some (adjustField data i f)) as [f' ->].
  { eexists. apply adjustField_Some. by exists sizes. }
  destruct (IH (S i)) as [rest' ->]; [|simpl; by eauto].
  eapply Forall_impl; [exact Htyped|]. by intros row [_ Hrest].
Qed.

Lemma AdjustFieldSizes_is_Some t :
  Forall (rowTyped (Schema t) 0) (Data t) → is_Some (AdjustFieldSizes t).
Proof.
  intros Htyped. rewrite AdjustFieldSizes_adjustFrom.
  destruct (adjustFrom_is_Some _ _ _ Htyped) as [schema' ->]. simpl. by eauto.
Qed.

Lemma AdjustFieldSizes_rowTyped t t' :
  AdjustFieldSizes t = Some t' →
  Data t' = Data t ∧ Forall (rowTyped (Schema t') 0) (Data t).
Proof.
  rewrite AdjustFieldSizes_adjustFrom.
  destruct (adjustFrom (Data t) 0 (Schema t)) as [schema'|] eqn:Hadj; [|done].
  intros [= <-]. simpl. split; [reflexivity|].
  apply adjustFrom_idempotent in Hadj.
  by eapply adjustFrom_rowTyped.
Qed.

(** [getRowSize] adds up the measured widths of the first row. *)
Lemma rowSizeLoop_rowWidths row rows fields : ∀ i size,
  rowSizeLoop (row :: rows) fields i size
  = (λ ws, size + sumZ ws) <$> rowWidths fields i row.
Proof.
  induction fields as [|f fields IH]; intros i size; simpl.
  { f_equal. unfold sumZ. simpl. lia. }
  destruct (row !! i) as [d|]; [|reflexivity]. simpl.
  destruct (getCellSize d f) as [w|]; [|reflexivity]. simpl.
  rewrite IH.
  destruct (rowWidths fields (S i) row) as [ws|]; [|reflexivity]. simpl.
  f_equal. unfold sumZ. simpl. lia.
Qed.

Lemma getRowSize_rowWidths row rows schema :
  getRowSize (row :: rows) schema = sumZ <$> rowWidths schema 0 row.
Proof.
  change (rowSizeLoop (row :: rows) schema 0 0 = sumZ <$> rowWidths schema 0 row).
  rewrite rowSizeLoop_rowWidths. by destruct (rowWidths schema 0 row).
Qed.

Lemma rowWidths_is_Some fields : ∀ i row,
  rowTyped fields i row → is_Some (rowWidths fields i row).
Proof.
  induction fields as [|f fields IH]; intros i row; simpl; [by eauto|].
  intros [(d & -> & Hd) Hrest]. simpl.
  apply (getCellSize_is_Some fmt_Sprintf) in Hd as [w ->]. simpl.
  destruct (IH _ _ Hrest) as [ws ->]. simpl. by eauto.
Qed.

(** With no rows the adjuster only looks at the names. *)
Lemma adjustFrom_no_rows fields : ∀ i, is_Some (adjustFrom [] i fields).
Proof.
  induction fields as [|f fields IH]; intros i; simpl; [by eauto|].
  destruct (IH (S i)) as [rest' ->]. simpl. by eauto.
Qed.

Lemma isFormat_text :
  isFormat "" ["json"; "JSON"] = false ∧ isFormat "" ["csv"; "CSV"] = false
  ∧ isFormat "" ["yaml"; "YAML"] = false ∧ isFormat "" [""] = true.
Proof. by vm_compute. Qed.

(** C10. A table with no rows, rendered as text, is rendered without an
    error and without a panic: the folding branch is not taken, the first
    row is never read (reading it would panic for a schema with a column),
    and the output is the caption, the borders and the header only, then
    the footer for a total of 0. *)
Theorem render_empty_table (schema : list SchemaField)
    (tableName topLine : string) (foldAtLength : Z) :
  ∃ schema' header,
    AdjustFieldSizes {| Data := []; Schema := schema |}
    = Some {| Data := []; Schema := schema' |}
    ∧ getTableHeader schema' = Some header
    ∧ getRowSize [] schema'
      = (if bool_decide (schema = []) then Some 0 else None)
    ∧ RenderTableFoldable {| Data := []; Schema := schema |}
        tableName topLine "" foldAtLength
      = Some
          (Ok (((if bool_decide (topLine ≠ "")
                 then fmt_Sprintf ("%s" ++ nl) [VString topLine] else "")
                ++ (strings_Join
                      [ getTableDelimiter schema'; header;
                        getTableDelimiter schema'; getTableDelimiter schema' ]
                      nl ++ nl))
               ++ fmt_Sprintf ("Total: %d %s" ++ nl ++ nl)
                    [VInt 0; VString tableName]),
           {| Data := []; Schema := schema' |}).
Proof.
  destruct (adjustFrom_no_rows schema 0) as [schema' Hadj].
  destruct (getTableHeader_is_Some schema') as [header Hheader].
  assert (AdjustFieldSizes {| Data := []; Schema := schema |}
          = Some {| Data := []; Schema := schema' |}) as Hadjust.
  { rewrite AdjustFieldSizes_adjustFrom. simpl. by rewrite Hadj. }
  exists schema', header. split; [exact Hadjust|]. split; [exact Hheader|].
  split.
  { pose proof (adjustFrom_length _ _ _ _ _ Hadj) as Hlen.
    by destruct schema as [|f schema]; destruct schema' as [|f' schema']. }
  unfold RenderTableFoldable.
  destruct isFormat_text as (-> & -> & -> & ->).
  rewrite Hadjust. simpl.
  unfold getTableAsString. rewrite Hheader. reflexivity.
Qed.

Lemma foldRows_cons row rows schema newData :
  foldRows (row :: rows) schema newData
  = r ← getTableAsYAMLString [row] schema;
    match r with
    | Err e => Some (inl e)
    | Ok cell => foldRows rows schema (newData ++ [[VString cell]])
    end.
Proof. reflexivity. Qed.

(** The folder serializes the rows one by one. *)
Lemma foldRows_spec rows schema cells :
  Forall2 (λ row c, getTableAsYAMLString [row] schema = Some (Ok c)) rows cells →
  ∀ newData,
    foldRows rows schema newData
    = Some (inr (newData ++ map (λ c, [VString c]) cells)%list).
Proof.
  induction 1 as [|row c rows cells Hrow _ IH]; intros newData.
  { simpl. by rewrite app_nil_r. }
  rewrite foldRows_cons, Hrow. cbn [mbind option_bind].
  rewrite IH. by rewrite <- app_assoc.
Qed.

Lemma folded_cellSizes cells w :
  cellSizes (map (λ c, [VString c]) cells) 0 (valuesField w)
  = Some (map (λ c, maxLineLen (decolorize c)) cells).
Proof.
  unfold cellSizes. induction cells as [|c cells IH]; [reflexivity|].
  simpl in *. by rewrite IH.
Qed.

(** The folded table has one text column, named "Values", at least 5
    wide once adjusted. *)
Lemma folded_adjust cells :
  ∃ w, 5 <= w
    ∧ AdjustFieldSizes
        {| Data := map (λ c, [VString c]) cells; Schema := [valuesField 5] |}
      = Some {| Data := map (λ c, [VString c]) cells;
                Schema := [valuesField w] |}.
Proof.
  set (sizes := map (λ c, maxLineLen (decolorize c)) cells).
  exists (widest (len "Values") sizes + 1).
  pose proof (widest_ge_base (len "Values") sizes) as Hge.
  change (len "Values") with 6 in *.
  split; [lia|].
  rewrite AdjustFieldSizes_adjustFrom. simpl.
  assert (adjustField (map (λ c, [VString c]) cells) 0 (valuesField 5)
          = Some (valuesField (widest 6 sizes + 1))) as ->; [|reflexivity].
  apply adjustField_Some. exists sizes.
  split; [apply folded_cellSizes|].
  change (FieldSize (valuesField 5)) with 5.
  change (len (FieldName (valuesField 5))) with 6.
  destruct (Z.ltb_spec 5 (widest 6 sizes)); [reflexivity|lia].
Qed.

Lemma folded_rowTyped cells w :
  Forall (rowTyped [valuesField w] 0) (map (λ c, [VString c]) cells).
Proof.
  apply Forall_forall. intros row (c & -> & _)%list_elem_of_fmap.
  simpl. split; [|done]. by exists (VString c).
Qed.

Lemma getFoldedTableAsString_spec data schema cells :
  Forall2 (λ row c, getTableAsYAMLString [row] schema = Some (Ok c)) data cells →
  ∃ w tbl,
    5 <= w
    ∧ getTableAsString (map (λ c, [VString c]) cells) [valuesField w] = Some tbl
    ∧ getFoldedTableAsString data schema = Some (Ok tbl).
Proof.
  intros Hcells.
  destruct (folded_adjust cells) as (w & Hw & Hadjust).
  destruct (getTableAsString_is_Some _ _ (folded_rowTyped cells w))
    as [tbl Htbl].
  exists w, tbl. split; [exact Hw|]. split; [exact Htbl|].
  unfold getFoldedTableAsString.
  rewrite (foldRows_spec _ _ _ Hcells []). simpl.
  change (AdjustFieldSizes
            {| Data := map (λ c, [VString c]) cells; Schema := [valuesField 5] |}
          ≫= (λ table, Ok <$> getTableAsString (Data table) (Schema table))
          = Some (Ok tbl)).
  rewrite Hadjust. simpl. by rewrite Htbl.
Qed.

(** C1. A table with at least one row, rendered as text: the widths are
    adjusted, the measured widths of the cells of the first row are added
    up and compared with the threshold.  Above the threshold, and when
    every row is serialized without an error, the output is the caption,
    the bordered table of the single text column "Values" (at least 5
    wide) holding one serialized record per row, and the footer; otherwise
    it is the caption, the bordered table of the adjusted schema and the
    footer.  The footer is formatted from the number of rows of the table
    in both cases. *)
Theorem render_text_table (t t' : Table) (tableName topLine : string)
    (foldAtLength : Z) :
  Data t ≠ [] →
  AdjustFieldSizes t = Some t' →
  let caption :=
    if bool_decide (topLine ≠ "")
    then fmt_Sprintf ("%s" ++ nl) [VString topLine] else "" in
  let total :=
    fmt_Sprintf ("Total: %d %s" ++ nl ++ nl)
      [VInt (Z.of_nat (length (Data t))); VString tableName] in
  ∃ row rows widths,
    Data t = row :: rows
    ∧ rowWidths (Schema t') 0 row = Some widths
    ∧ getRowSize (Data t) (Schema t') = Some (sumZ widths)
    ∧ (foldAtLength < sumZ widths →
       ∀ cells,
         Forall2 (λ row c, getTableAsYAMLString [row] (Schema t') = Some (Ok c))
           (Data t) cells →
         ∃ w tbl,
           5 <= w
           ∧ length cells = length (Data t)
           ∧ getTableAsString (map (λ c, [VString c]) cells) [valuesField w]
             = Some tbl
           ∧ RenderTableFoldable t tableName topLine "" foldAtLength
             = Some (Ok ((caption ++ tbl) ++ total), t'))
    ∧ (sumZ widths <= foldAtLength →
       ∃ tbl,
         getTableAsString (Data t) (Schema t') = Some tbl
         ∧ RenderTableFoldable t tableName topLine "" foldAtLength
           = Some (Ok ((caption ++ tbl) ++ total), t')).
Proof.
  intros Hrows Hadjust caption total.
  destruct (AdjustFieldSizes_rowTyped _ _ Hadjust) as [Hdata Htyped].
  destruct (Data t) as [|row rows] eqn:Ht; [done|].
  pose proof Htyped as [Hrow _]%Forall_cons.
  destruct (rowWidths_is_Some _ _ _ Hrow) as [widths Hwidths].
  assert (getRowSize (row :: rows) (Schema t') = Some (sumZ widths)) as Hsize.
  { by rewrite getRowSize_rowWidths, Hwidths. }
  exists row, rows, widths.
  split; [reflexivity|]. split; [exact Hwidths|]. split; [exact Hsize|].
  assert (RenderTableFoldable t tableName topLine "" foldAtLength
          = (if foldAtLength <? sumZ widths
             then r ← getFoldedTableAsString (row :: rows) (Schema t');
                  match r with
                  | Err e => Some (Err e, t')
                  | Ok s => Some (Ok ((caption ++ s) ++ total), t')
                  end
             else s ← getTableAsString (row :: rows) (Schema t');
                  Some (Ok ((caption ++ s) ++ total), t'))) as Hrender.
  { unfold RenderTableFoldable.
    destruct isFormat_text as (-> & -> & -> & ->).
    rewrite Hadjust. cbn [mbind option_bind]. rewrite Hdata.
    change (0 <? length (row :: rows))%nat with true. cbv iota.
    rewrite Hsize. reflexivity. }
  rewrite Hrender. split.
  - intros Hfold cells Hcells.
    destruct (getFoldedTableAsString_spec _ _ _ Hcells)
      as (w & tbl & Hw & Htbl & Hfolded).
    exists w, tbl. split; [exact Hw|].
    split; [symmetry; by eapply Forall2_length|].
    split; [exact Htbl|].
    destruct (Z.ltb_spec foldAtLength (sumZ widths)); [|lia].
    by rewrite Hfolded.
  - intros Hfit.
    destruct (getTableAsString_is_Some _ _ Htyped) as [tbl Htbl].
    exists tbl. split; [exact Htbl|].
    destruct (Z.ltb_spec foldAtLength (sumZ widths)); [lia|].
    by rewrite Htbl.
Qed.

End RenderProperties.

Lemma render_text_table_witness :
  let t := {| Data := Sample.data4; Schema := Sample.schema4 |} in
  let t' := {| Data := Sample.data4; Schema := Sample.adjusted4 |} in
  Data t ≠ []
  ∧ Sample.AdjustFieldSizes t = Some t'
  ∧ (∃ tbl,
       Sample.getTableAsString (Data t) (Schema t') = Some tbl
       ∧ Sample.RenderTableFoldable t "test" "" "" 300
         = Some (Ok (tbl ++ "Total: 3 test" ++ nl ++ nl), t'))
  ∧ (∃ w tbl,
       5 <= w
       ∧ Sample.getTableAsString (map (λ c, [VString c]) Sample.records4)
           [valuesField w] = Some tbl
       ∧ Sample.RenderTableFoldable t "test" "" "" 10
         = Some (Ok (tbl ++ "Total: 3 test" ++ nl ++ nl), t')).
Proof.
  intros t t'.
  split; [discriminate|]. split; [reflexivity|].
  split.
  - destruct (render_text_table Fmt.Sprintf Sample.keepName Sample.keepName
                Sample.yaml_Marshal Sample.json_MarshalIndent Sample.csv_Write
                t t' "test" "" 300)
      as (row & rows & widths & Hdata & Hwidths & _ & _ & Hfit);
      [discriminate | reflexivity |].
    injection Hdata as <- <-. vm_compute in Hwidths. injection Hwidths as <-.
    destruct Hfit as (tbl & Htbl & Hrender); [by vm_compute|].
    exists tbl. split; [exact Htbl | exact Hrender].
  - destruct (render_text_table Fmt.Sprintf Sample.keepName Sample.keepName
                Sample.yaml_Marshal Sample.json_MarshalIndent Sample.csv_Write
                t t' "test" "" 10)
      as (row & rows & widths & Hdata & Hwidths & _ & Hfold & _);
      [discriminate | reflexivity |].
    injection Hdata as <- <-. vm_compute in Hwidths. injection Hwidths as <-.
    destruct (Hfold ltac:(by vm_compute) Sample.records4)
      as (w & tbl & Hw & _ & Htbl & Hrender).
    { repeat constructor. }
    exists w, tbl. split; [exact Hw|]. split; [exact Htbl | exact Hrender].
Defined.

(** ** The delimiter line *)

Lemma getTableDelimiter_from schema : ∀ row,
  fold_left
    (λ row field, (row ++ repeatString "-" (Z.to_nat (wrapInt (FieldSize field + 1)))) ++ "+")
    schema row
  = row ++ String.concat ""
             (map (λ f, repeatString "-" (Z.to_nat (wrapInt (FieldSize f + 1))) ++ "+") schema).
Proof.
  induction schema as [|f schema IH]; intros row.
  { simpl. by rewrite append_nil_r. }
  cbn [fold_left]. rewrite IH, map_cons, concat_cons.
  by rewrite !append_assoc.
Qed.

Lemma plus_dashes schema :
  "+" ++ String.concat ""
           (map (λ f, repeatString "-" (Z.to_nat (wrapInt (FieldSize f + 1))) ++ "+") schema)
  = String.concat ""
      (map (λ f, "+" ++ repeatString "-" (Z.to_nat (wrapInt (FieldSize f + 1)))) schema)
    ++ "+".
Proof.
  induction schema as [|f schema IH]; [reflexivity|].
  rewrite !map_cons, !concat_cons, !append_assoc.
  by rewrite <- IH.
Qed.

Lemma wrapInt_small (z : Z) : - 2 ^ 63 <= z < 2 ^ 63 → wrapInt z = z.
Proof.
  intros Hz. unfold wrapInt.
  change (2 ^ 63) with 9223372036854775808 in *.
  change (2 ^ 64) with 18446744073709551616.
  rewrite Z.mod_small; lia.
Qed.

(** C9. The delimiter line is, for each column, '+' then [FieldSize + 1]
    dashes, with a final '+'; the sum is made in an [int], and is
    [FieldSize + 1] itself whenever that is an [int].  For
    the schema ID (Integer, 6), LABEL (Text, 20), INST. (Float, 6,
    precision 2) it is
    "+-------+---------------------+-------+", and the row 4, "str", 20.1 is
    rendered as "| 4     | str                 | 20.10 |". *)
Theorem scenario_delimiter_and_row :
  (∀ schema,
     getTableDelimiter schema
     = String.concat ""
         (map (λ f, "+" ++ repeatString "-"
                             (Z.to_nat (wrapInt (FieldSize f + 1)))) schema)
       ++ "+")
  ∧ (∀ schema,
       Forall (λ f, - 2 ^ 63 <= FieldSize f < 2 ^ 63 - 1) schema →
       getTableDelimiter schema
       = String.concat ""
           (map (λ f, "+" ++ repeatString "-" (Z.to_nat (FieldSize f + 1)))
              schema)
         ++ "+")
  ∧ getTableDelimiter Sample.schema3 = "+-------+---------------------+-------+"
  ∧ Sample.getTableRow Sample.row3 Sample.schema3
    = Some "| 4     | str                 | 20.10 |".
Proof.
  assert (∀ schema,
            getTableDelimiter schema
            = String.concat ""
                (map (λ f, "+" ++ repeatString "-"
                                    (Z.to_nat (wrapInt (FieldSize f + 1))))
                   schema)
              ++ "+") as Hexact.
  { intros schema. unfold getTableDelimiter.
    by rewrite getTableDelimiter_from, plus_dashes. }
  split; [exact Hexact|]. split; [|split; reflexivity].
  intros schema Hsizes. rewrite Hexact. f_equal. f_equal.
  apply map_ext_Forall. eapply Forall_impl; [exact Hsizes|].
  intros f Hf. cbv beta in *. rewrite wrapInt_small; [done | lia].
Qed.

(** ** Colour sequences in a row *)

(** C3. [pad] measures the de-colorized text, but the second pass of
    [getTableRow] compares the raw length of a sub-line with [maxWidth]
    before it stores the de-colorized length, and pads with [%-<n>s], which
    counts the raw text.  On a text cell (column 5 wide) whose first line is
    "aaaaaaaa" and whose second line is a red "b", the stored width drops
    from 9 to 6 and the second line is left 6 wide: once the colour
    sequences are dropped, the rendered lines differ from the lines of the
    same row without colour, and the right border moves. *)
Theorem colour_breaks_alignment :
  let field := Sample.field "LABEL" TypeString 5 0 in
  decolorize Sample.coloured = Sample.plain
  ∧ pad (Sample.red "b") 5 = Sample.red "b" ++ "    "
  ∧ maxWidthOf [" aaaaaaaa"; " " ++ Sample.red "b" ++ "    "] = 6
  ∧ maxWidthOf [" aaaaaaaa"; " b    "] = 9
  ∧ Sample.getTableRow [VString Sample.plain] [field]
    = Some ("| aaaaaaaa|" ++ nl ++ "| b       |")
  ∧ Sample.getTableRow [VString Sample.coloured] [field]
    = Some ("| aaaaaaaa|" ++ nl ++ "| " ++ Sample.red "b" ++ "    |")
  ∧ decolorize <$> Sample.getTableRow [VString Sample.coloured] [field]
    = Some ("| aaaaaaaa|" ++ nl ++ "| b    |")
  ∧ decolorize <$> Sample.getTableRow [VString Sample.coloured] [field]
    ≠ Sample.getTableRow [VString Sample.plain] [field].
Proof. by vm_compute. Qed.

(** ** Rows with a cell of several lines *)

Lemma dropColors_free (s : string) :
  freeOf ESC s = true → dropColors O s = s.
Proof.
  induction s as [|c s IH]; [reflexivity|].
  cbn [freeOf]. intros [Hc Hs]%andb_prop.
  assert (matchColor (String c s) = None) as Hnone.
  { unfold matchColor. destruct s; [reflexivity|].
    destruct (Ascii.eqb c ESC); [discriminate | reflexivity]. }
  cbn [dropColors]. rewrite Hnone. f_equal. by apply IH.
Qed.

Lemma freeOf_append (c : ascii) (s t : string) :
  freeOf c (s ++ t) = freeOf c s && freeOf c t.
Proof.
  induction s as [|c' s IH]; [reflexivity|].
  rewrite append_cons. cbn [freeOf]. rewrite IH. by rewrite andb_assoc.
Qed.

Lemma freeOf_spaces (n : nat) : freeOf ESC (repeatString " " n) = true.
Proof.
  induction n as [|n IH]; [reflexivity|].
  change (repeatString " " (S n)) with (String " " (repeatString " " n)).
  cbn [freeOf]. by rewrite IH.
Qed.

(** A padded line without colour: [pad] fills it to the width of the
    column, and its de-colorized length is that width plus the leading
    space. *)
Lemma padded_line (r : string) (w : Z) :
  freeOf ESC r = true → len r < w →
  pad r w = r ++ emptyString (w - len r)
  ∧ decolorize (" " ++ pad r w) = " " ++ pad r w
  ∧ len (" " ++ pad r w) = w + 1.
Proof.
  intros Hfree Hlen.
  assert (pad r w = r ++ emptyString (w - len r)) as Hpad.
  { unfold pad, decolorize. rewrite dropColors_free by done.
    destruct (Z.leb_spec (w - len r) 0); [lia | reflexivity]. }
  split; [exact Hpad|]. rewrite Hpad. split.
  - apply dropColors_free.
    rewrite !freeOf_append, Hfree. unfold emptyString.
    by rewrite freeOf_spaces.
  - rewrite !len_append. unfold emptyString.
    rewrite len_repeatString_one. change (len " ") with 1. lia.
Qed.

Lemma heightOf_le cells : ∀ base bound,
  (base ≤ bound)%nat →
  Forall (λ cell, (length cell ≤ bound)%nat) cells →
  (heightOf base cells ≤ bound)%nat.
Proof.
  induction cells as [|c cells IH]; intros base bound Hbase Hall; [done|].
  apply Forall_cons in Hall as [Hc Hall].
  rewrite heightOf_cons. apply IH; [lia | done].
Qed.

(** The width stored for a cell of one sub-line is its de-colorized
    length. *)
Lemma maxWidthOf_single (s : string) : maxWidthOf [s] = len (decolorize s).
Proof.
  unfold maxWidthOf. simpl.
  destruct (Z.ltb_spec 0 (len s)) as [|Hle]; [reflexivity|].
  destruct s; [reflexivity|]. unfold len in Hle. simpl in Hle. lia.
Qed.

(** Lines without a line break, joined by line breaks, are split back
    into themselves. *)
Lemma strings_Split_free (s : string) :
  freeOf LF s = true → strings_Split s LF = [s].
Proof.
  induction s as [|c s IH]; [reflexivity|].
  cbn [freeOf strings_Split]. intros [Hc Hs]%andb_prop.
  destruct (Ascii.eqb c LF); [discriminate|]. by rewrite IH.
Qed.

Lemma strings_Split_line (s t : string) :
  freeOf LF s = true →
  strings_Split (s ++ nl ++ t) LF = s :: strings_Split t LF.
Proof.
  induction s as [|c s IH]; [reflexivity|].
  cbn [freeOf]. intros [Hc Hs]%andb_prop.
  rewrite append_cons. cbn [strings_Split].
  destruct (Ascii.eqb c LF); [discriminate|]. by rewrite IH.
Qed.

Section MultiLineRows.

Variable fmt_Sprintf : string → list value → string.

Local Abbreviation getTableRow := (getTableRow fmt_Sprintf).
Local Abbreviation fillCell := (fillCell fmt_Sprintf).
Local Abbreviation cellLines := (cellLines fmt_Sprintf).
Local Abbreviation rowCells := (rowCells fmt_Sprintf).
Local Abbreviation padLine := (padLine fmt_Sprintf).

(** The three sub-lines of the cell "a\nbb\nccc" in a column [w] wide. *)
Lemma cellLines_abc (f : SchemaField) :
  FieldType f = TypeString → 5 <= FieldSize f →
  cellLines f (VString Sample.abc)
  = Some [ " a" ++ emptyString (FieldSize f - 1);
           " bb" ++ emptyString (FieldSize f - 2);
           " ccc" ++ emptyString (FieldSize f - 3) ].
Proof.
  intros Hty Hw. unfold cellLines, formatCell. rewrite Hty.
  change (TypeString =? TypeInt) with false.
  change (TypeString =? TypeString) with true. cbv iota.
  change (strings_Split (strings_ReplaceAll Sample.abc "%" "%%") LF)
    with ["a"; "bb"; "ccc"].
  cbn [map fmap option_fmap option_map fst].
  destruct (padded_line "a" (FieldSize f)) as (-> & _);
    [reflexivity | change (len "a") with 1; lia |].
  destruct (padded_line "bb" (FieldSize f)) as (-> & _);
    [reflexivity | change (len "bb") with 2; lia |].
  destruct (padded_line "ccc" (FieldSize f)) as (-> & _);
    [reflexivity | change (len "ccc") with 3; lia |].
  reflexivity.
Qed.

Lemma maxWidthOf_abc (w : Z) :
  5 <= w →
  maxWidthOf [ " a" ++ emptyString (w - 1); " bb" ++ emptyString (w - 2);
               " ccc" ++ emptyString (w - 3) ] = w + 1.
Proof.
  intros Hw.
  destruct (padded_line "a" w) as (Ha & Hda & Hla);
    [reflexivity | change (len "a") with 1; lia |].
  destruct (padded_line "bb" w) as (Hb & Hdb & Hlb);
    [reflexivity | change (len "bb") with 2; lia |].
  destruct (padded_line "ccc" w) as (Hc & Hdc & Hlc);
    [reflexivity | change (len "ccc") with 3; lia |].
  rewrite Ha in Hda, Hla. rewrite Hb in Hdb, Hlb. rewrite Hc in Hdc, Hlc.
  change (len "a") with 1 in *. change (len "bb") with 2 in *.
  change (len "ccc") with 3 in *.
  change (" " ++ "a" ++ emptyString (w - 1))
    with (" a" ++ emptyString (w - 1)) in *.
  change (" " ++ "bb" ++ emptyString (w - 2))
    with (" bb" ++ emptyString (w - 2)) in *.
  change (" " ++ "ccc" ++ emptyString (w - 3))
    with (" ccc" ++ emptyString (w - 3)) in *.
  unfold maxWidthOf. cbn [fold_left].
  rewrite Hla, Hlb, Hlc, Hda, Hla.
  destruct (Z.ltb_spec 0 (w + 1)); [|lia].
  by rewrite !Z.ltb_irrefl.
Qed.

(** Only a text cell has more than one sub-line. *)
Lemma cellLines_single (g : SchemaField) (d : value) (cell : list string) :
  FieldType g ≠ TypeString → cellLines g d = Some cell → ∃ s, cell = [s].
Proof.
  intros Hty. unfold cellLines, formatCell.
  destruct (FieldType g =? TypeInt).
  { destruct d; simpl; try done. intros [= <-]. by eauto. }
  destruct (Z.eqb_spec (FieldType g) TypeString) as [|_]; [done|].
  destruct (FieldType g =? TypeFloat).
  { destruct d; simpl; try done. intros [= <-]. by eauto. }
  simpl. intros [= <-]. by eauto.
Qed.

Lemma rowCells_lookup_inv fields i row cells j cell :
  rowCells fields i row = Some cells →
  cells !! j = Some cell →
  ∃ g d, fields !! j = Some g ∧ row !! (i + j)%nat = Some d
         ∧ cellLines g d = Some cell.
Proof.
  intros Hcells Hj.
  pose proof (rowCells_length _ _ _ _ _ Hcells) as Hlen.
  destruct (lookup_lt_is_Some_2 fields j) as [g Hg].
  { rewrite <- Hlen. by eapply lookup_lt_Some. }
  destruct (rowCells_lookup _ _ _ _ _ _ _ Hcells Hg)
    as (d & cell' & Hd & Hcell & Hj').
  exists g, d. split; [done|]. split; [done|]. congruence.
Qed.


End MultiLineRows.



(** ** The model of [fmt] on the formats of the renderer *)

(** The footer: "Total: ", the number of rows, a space, the label and two
    line breaks. *)
Lemma Fmt_total (n : nat) (name : string) :
  Fmt.Sprintf ("Total: %d %s" ++ nl ++ nl) [VInt (Z.of_nat n); VString name]
  = "Total: " ++ itoa (Z.of_nat n) ++ " " ++ name ++ nl ++ nl.
Proof.
  destruct (Z.of_nat n) as [|p|p] eqn:Hn; [reflexivity | | lia].
  vm_compute. reflexivity.
Qed.

(** The caption: the top line and a line break. *)
Lemma Fmt_caption (topLine : string) :
  Fmt.Sprintf ("%s" ++ nl) [VString topLine] = topLine ++ nl.
Proof. vm_compute. reflexivity. Qed.

(** [Sample.f20_1] is the [float64] of the literal 20.1: a mantissa of 53
    bits, at less than half a unit in the last place from 201/10. *)
Lemma f20_1_nearest :
  Sample.f20_1 = S754_finite false 5657647031884186 (-48)
  ∧ 2 ^ 52 <= 5657647031884186 < 2 ^ 53
  ∧ Z.abs (10 * 5657647031884186 - 201 * 2 ^ 48) < 5.
Proof. by vm_compute. Qed.

(** ** The tests of the repository, on the model *)

Example test_GetTableHeader :
  getTableHeader Fmt.Sprintf Sample.schema3
  = Some "| ID    | LABEL               | INST. |".
Proof. reflexivity. Qed.

Example test_GetTableAsString :
  Sample.getTableAsString
    [ Sample.row3; [VInt 5; VString "st11r"; VFloat Sample.f22_1];
      [VInt 6; VString "st11r444"; VFloat Sample.f2_1] ]
    Sample.schema3
  = Some (strings_Join
            [ "+-------+---------------------+-------+";
              "| ID    | LABEL               | INST. |";
              "+-------+---------------------+-------+";
              "| 4     | str                 | 20.10 |";
              "| 5     | st11r               | 22.10 |";
              "| 6     | st11r444            | 2.10  |";
              "+-------+---------------------+-------+" ] nl ++ nl).
Proof. reflexivity. Qed.

Example test_AdjustFieldSizes :
  map FieldSize
    <$> (Schema <$> Sample.AdjustFieldSizes
                      {| Data := Sample.data4; Schema := Sample.schema4 |})
  = Some [3; 5; 8; 21].
Proof. reflexivity. Qed.

Example test_GetRowSize :
  getRowSize Fmt.Sprintf Sample.data4 Sample.schema4 = Some 16.
Proof. reflexivity. Qed.

Example test_GetTableRowMultiline :
  Sample.getTableRow Sample.row4 Sample.schema4
  = Some (strings_Join
            [ "| 4  | 123  | 20.1000| teklkkkllklklsas|";
              "|    | 45   |        | dasda           |";
              "|    |      |        | sdasd           |" ] nl).
Proof. reflexivity. Qed.

Example test_DeColorize :
  let o := "  test   " in
  let s := (String ESC "[12;41m" ++ o) ++ String ESC "[0m" in
  let field := Sample.field "INST." TypeString 1 0 in
  decolorize s = o
  ∧ getCellSize Fmt.Sprintf (VString s) field
    = getCellSize Fmt.Sprintf (VString o) field.
Proof. by vm_compute. Qed.

Example test_Pad : pad "test" 7 = "test   ".
Proof. reflexivity. Qed.

(** In the order [TestTableSortWithSchema] expects, no row is less than
    the row before it. *)
Example test_TableSortWithSchema :
  ∀ i, (i < 5)%nat →
       returned (Less (setData Sample.sorter6 Sample.sorted6) (S i) i)
       = Some false.
Proof.
  intros i Hi. by destruct i as [|[|[|[|[|i]]]]]; [vm_compute ..| lia].
Qed.

(** * Further properties of the package *)

(** ** Colour sequences and measured widths *)

Lemma paramsFinal_bound (s : string) (n : nat) :
  paramsFinal s = Some n → (1 ≤ n ≤ String.length s)%nat.
Proof.
  revert n. induction s as [|c s IH]; intros n; [done|].
  cbn [paramsFinal].
  destruct (isFinal c); [intros [= <-]; simpl; lia|].
  destruct (isParam c); [|done].
  destruct (paramsFinal s) as [m|]; [|done].
  intros [= <-]. specialize (IH m eq_refl). simpl. lia.
Qed.

Lemma matchColor_bound (s : string) (n : nat) :
  matchColor s = Some n → (3 ≤ n ≤ String.length s)%nat.
Proof.
  unfold matchColor. destruct s as [|c1 [|c2 rest]]; try done.
  destruct (Ascii.eqb c1 ESC && Ascii.eqb c2 "["); [|done].
  destruct (paramsFinal rest) as [m|] eqn:Hm; [|done].
  intros [= <-]. apply paramsFinal_bound in Hm. simpl. lia.
Qed.

(** A match is not changed by what follows it. *)
Lemma paramsFinal_app (r t : string) (n : nat) :
  paramsFinal r = Some n → paramsFinal (r ++ t) = Some n.
Proof.
  revert n. induction r as [|c r IH]; intros n; [done|].
  rewrite append_cons. cbn [paramsFinal].
  destruct (isFinal c); [done|]. destruct (isParam c); [|done].
  destruct (paramsFinal r) as [m|]; [|done].
  intros [= <-]. by rewrite (IH m).
Qed.

Lemma matchColor_app (c t : string) (n : nat) :
  matchColor c = Some n → matchColor (c ++ t) = Some n.
Proof.
  unfold matchColor. destruct c as [|c1 [|c2 rest]]; try done.
  rewrite !append_cons.
  destruct (Ascii.eqb c1 ESC && Ascii.eqb c2 "["); [|done].
  destruct (paramsFinal rest) as [m|] eqn:Hm; [|done].
  intros [= <-]. by rewrite (paramsFinal_app _ _ _ Hm).
Qed.

(** No match runs into a tail that is empty or begins with a stop byte. *)
Lemma paramsFinal_app_stop (s t : string) :
  stopsAtStart t = true → paramsFinal (s ++ t) = paramsFinal s.
Proof.
  intros Ht. induction s as [|c s IH].
  - destruct t as [|c t]; [done|]. change ("" ++ String c t) with (String c t).
    cbn [paramsFinal]. cbn [stopsAtStart] in Ht. unfold stopsColour in Ht.
    destruct (isFinal c); [by rewrite orb_true_r in Ht|].
    by destruct (isParam c).
  - rewrite append_cons. cbn [paramsFinal]. by rewrite IH.
Qed.

Lemma matchColor_app_stop (s t : string) :
  s ≠ "" → stopsAtStart t = true → matchColor (s ++ t) = matchColor s.
Proof.
  intros Hs Ht. destruct s as [|c1 [|c2 rest]]; [done| |].
  - destruct t as [|c t]; [done|].
    change (String c1 "" ++ String c t) with (String c1 (String c t)).
    cbn [matchColor stopsAtStart] in *. unfold stopsColour in Ht.
    destruct (Ascii.eqb c "["); [by rewrite !orb_true_r in Ht|].
    by rewrite andb_false_r.
  - rewrite !append_cons. cbn [matchColor].
    by rewrite paramsFinal_app_stop.
Qed.

Lemma dropColors_app_stop (t : string) :
  stopsAtStart t = true →
  ∀ s k, (k ≤ String.length s)%nat →
         dropColors k (s ++ t) = dropColors k s ++ dropColors 0 t.
Proof.
  intros Ht. induction s as [|c s IH]; intros k Hk.
  { simpl in Hk. by replace k with 0%nat by lia. }
  rewrite append_cons. destruct k as [|k]; cbn [dropColors].
  - rewrite <- append_cons, matchColor_app_stop by done.
    destruct (matchColor (String c s)) as [n|] eqn:Hn.
    + apply matchColor_bound in Hn. simpl in Hn. apply IH. lia.
    + rewrite append_cons. f_equal. apply IH. lia.
  - apply IH. simpl in Hk. lia.
Qed.

Lemma dropColors_all (s : string) : dropColors (String.length s) s = "".
Proof. induction s as [|c s IH]; [reflexivity | exact IH]. Qed.

Lemma dropColors_skip (a s : string) :
  dropColors (String.length a) (a ++ s) = dropColors 0 s.
Proof. induction a as [|c a IH]; [reflexivity | exact IH]. Qed.

Lemma decolorize_colour_l (c s : string) :
  isColour c → decolorize (c ++ s) = decolorize s.
Proof.
  unfold isColour, decolorize. intros Hc.
  pose proof (matchColor_app c s _ Hc) as Hcs.
  destruct c as [|c1 c]; [done|].
  rewrite append_cons in *. cbn [dropColors]. rewrite Hcs.
  apply dropColors_skip.
Qed.

Lemma decolorize_colour (c : string) : isColour c → decolorize c = "".
Proof.
  intros Hc. rewrite <- (append_nil_r c) at 1.
  by rewrite decolorize_colour_l.
Qed.

Lemma isColour_stops (c : string) : isColour c → stopsAtStart c = true.
Proof.
  unfold isColour, matchColor. destruct c as [|c1 [|c2 rest]]; try done.
  destruct (Ascii.eqb_spec c1 ESC) as [->|]; [reflexivity | done].
Qed.

Lemma decolorize_colour_r (s c : string) :
  isColour c → decolorize (s ++ c) = decolorize s.
Proof.
  intros Hc. unfold decolorize.
  rewrite dropColors_app_stop by (by apply isColour_stops || lia).
  pose proof (decolorize_colour c Hc) as Hnil. unfold decolorize in Hnil.
  rewrite Hnil. apply append_nil_r.
Qed.

Lemma decolorize_spaces (s : string) (n : nat) :
  decolorize (s ++ repeatString " " n) = decolorize s ++ repeatString " " n.
Proof.
  unfold decolorize.
  assert (stopsAtStart (repeatString " " n) = true) as Hstop
    by (by destruct n).
  rewrite dropColors_app_stop by (done || lia).
  by rewrite (dropColors_free (repeatString " " n)) by apply freeOf_spaces.
Qed.

(** Dropping colours never lengthens a text. *)
Lemma dropColors_length (s : string) : ∀ k,
  (String.length (dropColors k s) ≤ String.length s)%nat.
Proof.
  induction s as [|c s IH]; intros k; [done|].
  destruct k as [|k]; cbn [dropColors].
  - destruct (matchColor (String c s)).
    + specialize (IH (Nat.pred n)). simpl. lia.
    + specialize (IH 0%nat). simpl. lia.
  - specialize (IH k). simpl. lia.
Qed.

(** X1. The measured width of a text cell ignores colour sequences put
    around the text: with a complete colour sequence in front and another
    behind, [decolorize] gives what it gives on the bare text, and so does
    [getCellSize] in a text column. *)
Theorem width_ignores_colour (fmt_Sprintf : string → list value → string)
    (f : SchemaField) (c1 c2 s : string) :
  isColour c1 → isColour c2 → FieldType f = TypeString →
  decolorize ((c1 ++ s) ++ c2) = decolorize s
  ∧ getCellSize fmt_Sprintf (VString ((c1 ++ s) ++ c2)) f
    = getCellSize fmt_Sprintf (VString s) f.
Proof.
  intros H1 H2 Hty.
  assert (decolorize ((c1 ++ s) ++ c2) = decolorize s) as Hdec
    by (by rewrite decolorize_colour_r, decolorize_colour_l).
  split; [exact Hdec|].
  unfold getCellSize. rewrite Hty.
  change (TypeString =? TypeInt) with false.
  change (TypeString =? TypeString) with true. cbv iota.
  by rewrite Hdec.
Qed.

Lemma width_ignores_colour_witness :
  let f := Sample.field "INST." TypeString 1 0 in
  let s := "  test   " in
  isColour Sample.redOn ∧ isColour Sample.reset ∧ FieldType f = TypeString
  ∧ decolorize ((Sample.redOn ++ s) ++ Sample.reset) = decolorize s
  ∧ getCellSize Fmt.Sprintf (VString ((Sample.redOn ++ s) ++ Sample.reset)) f
    = getCellSize Fmt.Sprintf (VString s) f.
Proof.
  intros f s. split; [reflexivity|]. split; [reflexivity|].
  split; [reflexivity|].
  apply (width_ignores_colour Fmt.Sprintf f Sample.redOn Sample.reset s);
    reflexivity.
Defined.

Lemma emptyString_nonpos (l : Z) : l <= 0 → emptyString l = "".
Proof. intros Hl. unfold emptyString. by replace (Z.to_nat l) with 0%nat by lia. Qed.

Lemma len_emptyString (l : Z) : len (emptyString l) = Z.max 0 l.
Proof. unfold emptyString. rewrite len_repeatString_one. lia. Qed.


Lemma strings_Split_nonempty (s : string) (sep : ascii) : strings_Split s sep ≠ [].
Proof.
  destruct s as [|c s]; [done|]. cbn [strings_Split].
  destruct (Ascii.eqb c sep); [done|]. by destruct (strings_Split s sep).
Qed.

(** Splitting around a separator: the parts of the left, then the parts
    of the right. *)
Lemma strings_Split_app (x y : string) (sep : ascii) :
  strings_Split (x ++ String sep y) sep
  = (strings_Split x sep ++ strings_Split y sep)%list.
Proof.
  induction x as [|c x IH].
  - change ("" ++ String sep y) with (String sep y). cbn [strings_Split].
    by rewrite Ascii.eqb_refl.
  - rewrite append_cons. cbn [strings_Split]. rewrite IH.
    destruct (Ascii.eqb c sep); [done|].
    pose proof (strings_Split_nonempty x sep).
    by destruct (strings_Split x sep).
Qed.

Lemma maxLen_widest (lines : list string) : ∀ m,
  fold_left (λ maxW w, if maxW <? len w then len w else maxW) lines m
  = widest m (map len lines).
Proof.
  induction lines as [|w lines IH]; intros m; [done|].
  cbn [fold_left map]. rewrite IH. unfold widest. cbn [foldr].
  fold (widest m (map len lines)).
  replace (if m <? len w then len w else m) with (Z.max (len w) m)
    by (destruct (Z.ltb_spec m (len w)); lia).
  apply widest_max.
Qed.

Lemma widest_app (m : Z) (a b : list Z) :
  widest m (a ++ b) = Z.max (widest m a) (widest m b).
Proof.
  pose proof (widest_ge_base m b).
  induction a as [|x a IH]; unfold widest in *; simpl; [lia|].
  rewrite IH. lia.
Qed.

Lemma maxLineLen_lines (a b : string) :
  maxLineLen (a ++ nl ++ b) = Z.max (maxLineLen a) (maxLineLen b).
Proof.
  unfold maxLineLen. change (nl ++ b) with (String LF b).
  rewrite strings_Split_app, !maxLen_widest, map_app. apply widest_app.
Qed.

Lemma decolorize_lines (a b : string) :
  decolorize (a ++ nl ++ b) = decolorize a ++ nl ++ decolorize b.
Proof.
  unfold decolorize. change (nl ++ b) with (String LF b).
  rewrite dropColors_app_stop by (done || lia). f_equal.
  cbn [dropColors].
  assert (matchColor (String LF b) = None) as -> by (by destruct b).
  reflexivity.
Qed.

(** X3. The measured width of a text of several lines is the largest of
    the measured widths of its parts: for a text column, the width of
    [a], a line break and [b] is the larger of the widths of [a] and of
    [b], whatever colour sequences and further line breaks they hold. *)
Theorem width_of_lines (fmt_Sprintf : string → list value → string)
    (f : SchemaField) (a b : string) :
  FieldType f = TypeString →
  ∃ wa wb,
    getCellSize fmt_Sprintf (VString a) f = Some wa
    ∧ getCellSize fmt_Sprintf (VString b) f = Some wb
    ∧ getCellSize fmt_Sprintf (VString (a ++ nl ++ b)) f = Some (Z.max wa wb).
Proof.
  intros Hty.
  exists (maxLineLen (decolorize a)), (maxLineLen (decolorize b)).
  unfold getCellSize. rewrite Hty.
  change (TypeString =? TypeInt) with false.
  change (TypeString =? TypeString) with true. cbv iota.
  cbn [mbind option_bind]. split; [done|]. split; [done|].
  by rewrite decolorize_lines, maxLineLen_lines.
Qed.

Lemma width_of_lines_witness :
  let f := Sample.field "LABEL" TypeString 5 0 in
  FieldType f = TypeString
  ∧ ∃ wa wb,
      getCellSize Fmt.Sprintf (VString "12345") f = Some wa
      ∧ getCellSize Fmt.Sprintf (VString (Sample.red "6789")) f = Some wb
      ∧ getCellSize Fmt.Sprintf
          (VString ("12345" ++ nl ++ Sample.red "6789")) f
        = Some (Z.max wa wb).
Proof.
  intros f. split; [reflexivity|].
  apply (width_of_lines Fmt.Sprintf f "12345" (Sample.red "6789")).
  reflexivity.
Defined.

(** ** Width calculator and adjuster *)

Lemma maxLineLen_nonneg (s : string) : 0 <= maxLineLen s.
Proof. unfold maxLineLen. rewrite maxLen_widest. apply widest_ge_base. Qed.

Lemma getCellSize_nonneg fmt_Sprintf d f w :
  getCellSize fmt_Sprintf d f = Some w → 0 <= w.
Proof.
  unfold getCellSize.
  destruct (if FieldType f =? TypeInt then _ else _) as [s|]; [|done].
  intros [= <-]. apply maxLineLen_nonneg.
Qed.

Lemma rowWidths_nonneg fmt_Sprintf fields : ∀ i row widths,
  rowWidths fmt_Sprintf fields i row = Some widths →
  length widths = length fields ∧ Forall (λ w, 0 <= w) widths.
Proof.
  induction fields as [|f fields IH]; intros i row widths; simpl.
  { by intros [= <-]. }
  destruct (row !! i) as [d|]; [|done]. simpl.
  destruct (getCellSize fmt_Sprintf d f) as [w|] eqn:Hw; [|done]. simpl.
  destruct (rowWidths fmt_Sprintf fields (S i) row) as [ws|] eqn:Hws; [|done].
  intros [= <-]. destruct (IH _ _ _ Hws) as [Hlen Hall].
  split; [simpl; by f_equal|].
  apply Forall_cons. split; [by eapply getCellSize_nonneg | done].
Qed.

Lemma sumZ_nonneg (l : list Z) : Forall (λ w, 0 <= w) l → 0 <= sumZ l.
Proof.
  induction 1 as [|w l Hw _ IH]; unfold sumZ in *; simpl; lia.
Qed.

(** X4. [getRowSize] measures the first row only: the rows after it do
    not change the result.  Without a row it panics as soon as the schema
    has a column, and gives 0 for an empty schema.  When it returns, the
    size is the sum of one non-negative width per column. *)
Theorem getRowSize_first_row (fmt_Sprintf : string → list value → string)
    (row : list value) (rows : list (list value)) (schema : list SchemaField) :
  getRowSize fmt_Sprintf (row :: rows) schema = getRowSize fmt_Sprintf [row] schema
  ∧ getRowSize fmt_Sprintf [] schema
    = (if bool_decide (schema = []) then Some 0 else None)
  ∧ (∀ size, getRowSize fmt_Sprintf (row :: rows) schema = Some size →
             ∃ widths, rowWidths fmt_Sprintf schema 0 row = Some widths
                       ∧ length widths = length schema
                       ∧ Forall (λ w, 0 <= w) widths
                       ∧ size = sumZ widths ∧ 0 <= size).
Proof.
  split; [by rewrite !getRowSize_rowWidths|].
  split; [by destruct schema|].
  intros size. rewrite getRowSize_rowWidths.
  destruct (rowWidths fmt_Sprintf schema 0 row) as [widths|] eqn:Hw; [|done].
  intros [= <-]. exists widths.
  destruct (rowWidths_nonneg _ _ _ _ _ Hw) as [Hlen Hall].
  repeat split; try done. by apply sumZ_nonneg.
Qed.

Lemma widest_ge_lookup (b : Z) (sizes : list Z) (k : nat) (w : Z) :
  sizes !! k = Some w → w <= widest b sizes.
Proof.
  revert k. induction sizes as [|x sizes IH]; intros k; [done|].
  unfold widest in *. destruct k as [|k]; simpl.
  - intros [= <-]. lia.
  - intros Hk. specialize (IH _ Hk). lia.
Qed.

(** X5. After [AdjustFieldSizes] every column is wide enough: its width
    is at least the length of its name and at least the measured width of
    each of its cells. *)
Theorem AdjustFieldSizes_fits (fmt_Sprintf : string → list value → string)
    (t t' : Table) (i k : nat) (f' : SchemaField) (row : list value) :
  AdjustFieldSizes fmt_Sprintf t = Some t' →
  Schema t' !! i = Some f' →
  Data t !! k = Some row →
  len (FieldName f') <= FieldSize f'
  ∧ ∃ d w, row !! i = Some d
           ∧ getCellSize fmt_Sprintf d f' = Some w
           ∧ w <= FieldSize f'.
Proof.
  rewrite AdjustFieldSizes_adjustFrom.
  destruct (adjustFrom fmt_Sprintf (Data t) 0 (Schema t)) as [schema'|] eqn:Hadj;
    [|done].
  intros [= <-] Hf' Hrow. simpl in Hf'.
  pose proof (adjustFrom_length _ _ _ _ _ Hadj) as Hlen.
  destruct (lookup_lt_is_Some_2 (Schema t) i) as [f Hf].
  { rewrite <- Hlen. by eapply lookup_lt_Some. }
  destruct (adjustFrom_lookup _ _ _ _ _ _ _ Hadj Hf) as (f'' & Hf'' & Hpass).
  rewrite Hf' in Hf''. injection Hf'' as <-. simpl in Hpass.
  apply adjustField_Some in Hpass as (sizes & Hsizes & Hnew).
  pose proof (widest_ge_base (len (FieldName f)) sizes) as Hname.
  apply mapM_Some_1 in Hsizes.
  destruct (Forall2_lookup_l _ _ _ _ _ Hsizes Hrow) as (w & Hw & Hcell).
  pose proof (widest_ge_lookup (len (FieldName f)) _ _ _ Hw) as Hge.
  destruct (row !! i) as [d|]; [|done]. simpl in Hcell.
  assert (FieldName f' = FieldName f ∧ getCellSize fmt_Sprintf d f' = Some w
          ∧ widest (len (FieldName f)) sizes <= FieldSize f') as (Hn & Hc & Hs).
  { rewrite Hnew.
    destruct (Z.ltb_spec (FieldSize f) (widest (len (FieldName f)) sizes));
      repeat split; try done; simpl; lia. }
  rewrite Hn. split; [lia|]. exists d, w. repeat split; try done. lia.
Qed.

Lemma AdjustFieldSizes_fits_witness :
  let t := {| Data := Sample.data4; Schema := Sample.schema4 |} in
  let t' := {| Data := Sample.data4; Schema := Sample.adjusted4 |} in
  let f' := Sample.field "VERY LONG FIELD NAME" TypeString 21 4 in
  let row := [VInt 4; VString "12345"; VFloat Sample.f20_1; VString "tes"] in
  Sample.AdjustFieldSizes t = Some t'
  ∧ Schema t' !! 3%nat = Some f'
  ∧ Data t !! 0%nat = Some row
  ∧ len (FieldName f') <= FieldSize f'
  ∧ ∃ d w, row !! 3%nat = Some d
           ∧ getCellSize Fmt.Sprintf d f' = Some w
           ∧ w <= FieldSize f'.
Proof.
  intros t t' f' row.
  split; [reflexivity|]. split; [reflexivity|]. split; [reflexivity|].
  apply (AdjustFieldSizes_fits Fmt.Sprintf t t' 3 0 f' row); reflexivity.
Defined.

(** X6. [AdjustFieldSizes] returns exactly when every row holds, for each
    column of the schema, a cell that passes the type assertion of the
    column (an int in an Integer column, a string in a Text column, a
    float64 in a Float column, anything in the others); a row that is too
    short or a cell of another type makes it panic. *)
Theorem AdjustFieldSizes_returns_iff
    (fmt_Sprintf : string → list value → string) (t : Table) :
  is_Some (AdjustFieldSizes fmt_Sprintf t)
  ↔ Forall (rowTyped (Schema t) 0) (Data t).
Proof.
  split; [|apply AdjustFieldSizes_is_Some].
  rewrite AdjustFieldSizes_adjustFrom.
  destruct (adjustFrom fmt_Sprintf (Data t) 0 (Schema t)) as [schema'|] eqn:Hadj.
  - intros _. by eapply adjustFrom_rowTyped.
  - by intros [? [=]].
Qed.

(** ** Rendering: formats, panics and errors *)

Section RenderingOutcomes.

Variable fmt_Sprintf : string → list value → string.
Variable strings_ToLower strcase_ToLowerCamel : string → string.
Variable yaml_Marshal : marshaller.
Variable json_MarshalIndent : list (gmap string value) → string → string → result.
Variable csv_Write : list string → string.

Local Abbreviation getTableAsString := (getTableAsString fmt_Sprintf).
Local Abbreviation getRowSize := (getRowSize fmt_Sprintf).
Local Abbreviation AdjustFieldSizes := (AdjustFieldSizes fmt_Sprintf).
Local Abbreviation getTableAsYAMLString :=
  (getTableAsYAMLString strings_ToLower strcase_ToLowerCamel yaml_Marshal).
Local Abbreviation getTableAsJSONString :=
  (getTableAsJSONString json_MarshalIndent).
Local Abbreviation getTableAsCSVString :=
  (getTableAsCSVString fmt_Sprintf csv_Write).
Local Abbreviation foldRows :=
  (foldRows strings_ToLower strcase_ToLowerCamel yaml_Marshal).
Local Abbreviation getFoldedTableAsString :=
  (getFoldedTableAsString fmt_Sprintf strings_ToLower strcase_ToLowerCamel
     yaml_Marshal).
Local Abbreviation RenderTableFoldable :=
  (RenderTableFoldable fmt_Sprintf strings_ToLower strcase_ToLowerCamel
     yaml_Marshal json_MarshalIndent csv_Write).

(** X7. Only the text format touches the table.  A format that is not
    one of json, JSON, csv, CSV, yaml, YAML or the empty string is
    answered with the "Invalid format" error, whatever the table holds
    (matching is exact: "text" or "Json" are invalid); and under every
    format but the empty one the table comes back as it was, its widths
    not adjusted. *)
Theorem render_other_formats (t : Table) (tableName topLine format : string)
    (foldAtLength : Z) :
  (format ∉ knownFormats →
   RenderTableFoldable t tableName topLine format foldAtLength
   = Some (Err (fmt_Sprintf
                  "Invalid format '%s' given. Valid values are json, JSON, csv, CSV, yaml or YAML."
                  [VString format]), t))
  ∧ (format ≠ "" →
     ∀ r t', RenderTableFoldable t tableName topLine format foldAtLength
             = Some (r, t') → t' = t).
Proof.
  unfold RenderTableFoldable, knownFormats. split.
  - intros Hnot.
    rewrite list_elem_of_In in Hnot. simpl in Hnot.
    assert (∀ names, (∀ x, In x names →
                           In x ["json"; "JSON"; "csv"; "CSV"; "yaml"; "YAML"; ""]) →
                     isFormat format names = false) as Hno.
    { intros names Hsub. apply bool_decide_eq_false.
      intros Hin%list_elem_of_In%Hsub. simpl in Hin. tauto. }
    rewrite !Hno; [done|..]; simpl; tauto.
  - intros Hne r t'.
    assert (isFormat format [""] = false) as Htext.
    { apply bool_decide_eq_false. by intros ->%list_elem_of_singleton. }
    rewrite Htext.
    destruct (isFormat format ["json"; "JSON"]).
    { destruct (getTableAsJSONString _ _); simpl; [|done]. by intros [= _ <-]. }
    destruct (isFormat format ["csv"; "CSV"]).
    { destruct (getTableAsCSVString _ _); simpl; [|done]. by intros [= _ <-]. }
    destruct (isFormat format ["yaml"; "YAML"]).
    { destruct (getTableAsYAMLString _ _); simpl; [|done]. by intros [= _ <-]. }
    by intros [= _ <-].
Qed.

Lemma rowTyped_rowAsMap key fields : ∀ i row m,
  rowTyped fields i row → is_Some (rowAsMap key fields i row m).
Proof.
  induction fields as [|f fields IH]; intros i row m; simpl; [by eauto|].
  intros [(d & -> & _) Hrest]. simpl. by apply IH.
Qed.

(** A document of plain cells is always encoded. *)
Lemma rowAsMap_plain key fields : ∀ i row m m',
  Forall (λ d, plain d = true) row →
  map_Forall (λ _ v, plain v = true) m →
  rowAsMap key fields i row m = Some m' →
  map_Forall (λ _ v, plain v = true) m'.
Proof.
  induction fields as [|f fields IH]; intros i row m m' Hrow Hm; simpl.
  { by intros [= <-]. }
  destruct (row !! i) as [d|] eqn:Hd; simpl; [|done].
  apply IH; [done|]. apply map_Forall_insert_2; [|done].
  rewrite Forall_forall in Hrow. apply Hrow.
  by eapply list_elem_of_lookup_2.
Qed.

Lemma plainDoc_single m :
  map_Forall (λ _ v, plain v = true) m → plainDoc [m] = true.
Proof.
  intros Hm. unfold plainDoc. cbn [forallb]. rewrite andb_true_r.
  apply forallb_forall. intros [k v] Hin.
  apply (Hm k v). apply elem_of_map_to_list. by apply list_elem_of_In.
Qed.

Lemma marshal_plain maps :
  plainDoc maps = true → marshal yaml_Marshal maps = Some (returns yaml_Marshal maps).
Proof. intros Hplain. unfold marshal. by rewrite Hplain. Qed.

Lemma plain_yaml schema row :
  rowTyped schema 0 row →
  Forall (λ d, plain d = true) row →
  is_Some (getTableAsYAMLString [row] schema).
Proof.
  intros Hrow Hplain. unfold getTableAsYAMLString, dataAsMap. simpl.
  destruct (rowTyped_rowAsMap
              (λ field, strcase_ToLowerCamel (strings_ToLower (FieldName field)))
              schema 0 row ∅ Hrow) as [m Hm].
  rewrite Hm. simpl. rewrite marshal_plain; [simpl; by eauto|].
  apply plainDoc_single.
  by eapply rowAsMap_plain; [exact Hplain | apply map_Forall_empty | exact Hm].
Qed.

(** The folder stops at the first row whose serialization fails. *)
Lemma foldRows_cases rows schema :
  Forall (λ row, is_Some (getTableAsYAMLString [row] schema)) rows →
  ∀ newData,
    (∃ cells,
       Forall2 (λ row c, getTableAsYAMLString [row] schema = Some (Ok c))
         rows cells
       ∧ foldRows rows schema newData
         = Some (inr (newData ++ map (λ c, [VString c]) cells)%list))
    ∨ (∃ row e,
         row ∈ rows
         ∧ getTableAsYAMLString [row] schema = Some (Err e)
         ∧ foldRows rows schema newData = Some (inl e)).
Proof.
  induction 1 as [|row rows Hrow _ IH]; intros newData.
  { left. exists []. split; [constructor|]. simpl. by rewrite app_nil_r. }
  destruct Hrow as [[c|e] Hr].
  - destruct (IH (newData ++ [[VString c]])%list)
      as [(cells & Hcells & Hfold)|(row' & e & Hin & Hrow' & Hfold)].
    + left. exists (c :: cells). split; [by constructor|].
      rewrite foldRows_cons, Hr. cbn [mbind option_bind].
      rewrite Hfold. by rewrite <- app_assoc.
    + right. exists row', e. split; [by apply list_elem_of_further|].
      split; [done|].
      rewrite foldRows_cons, Hr. cbn [mbind option_bind]. exact Hfold.
  - right. exists row, e. split; [by apply list_elem_of_here|].
    split; [done|]. by rewrite foldRows_cons, Hr.
Qed.

(** A panic of the serializer on a row reached by the folder is a panic
    of the folder. *)
Lemma foldRows_panic schema row rest : ∀ before newData,
  Forall (λ r, ∃ c, getTableAsYAMLString [r] schema = Some (Ok c)) before →
  getTableAsYAMLString [row] schema = None →
  foldRows (before ++ row :: rest) schema newData = None.
Proof.
  induction before as [|r before IH]; intros newData Hprefix Hrow.
  { simpl app. by rewrite foldRows_cons, Hrow. }
  apply Forall_cons in Hprefix as [[c Hc] Hprefix].
  change ((r :: before) ++ row :: rest)%list
    with (r :: (before ++ row :: rest))%list.
  rewrite foldRows_cons, Hc. cbn [mbind option_bind]. by apply IH.
Qed.

(** An error of the serializer on a row reached by the folder ends the
    folding: the rows after it are not looked at. *)
Lemma foldRows_error schema row rest e : ∀ before newData,
  Forall (λ r, ∃ c, getTableAsYAMLString [r] schema = Some (Ok c)) before →
  getTableAsYAMLString [row] schema = Some (Err e) →
  foldRows (before ++ row :: rest) schema newData = Some (inl e).
Proof.
  induction before as [|r before IH]; intros newData Hprefix Hrow.
  { simpl app. by rewrite foldRows_cons, Hrow. }
  apply Forall_cons in Hprefix as [[c Hc] Hprefix].
  change ((r :: before) ++ row :: rest)%list
    with (r :: (before ++ row :: rest))%list.
  rewrite foldRows_cons, Hc. cbn [mbind option_bind]. by apply IH.
Qed.

Lemma getFoldedTableAsString_cases data schema :
  Forall (λ row, is_Some (getTableAsYAMLString [row] schema)) data →
  (∃ tbl, getFoldedTableAsString data schema = Some (Ok tbl))
  ∨ (∃ row e,
       row ∈ data
       ∧ getTableAsYAMLString [row] schema = Some (Err e)
       ∧ getFoldedTableAsString data schema = Some (Err e)).
Proof.
  intros Hreturns.
  destruct (foldRows_cases _ _ Hreturns [])
    as [(cells & Hcells & Hfold)|(row & e & Hin & Hrow & Hfold)].
  - left.
    destruct (getFoldedTableAsString_spec fmt_Sprintf strings_ToLower
                strcase_ToLowerCamel yaml_Marshal _ _ _ Hcells)
      as (w & tbl & _ & _ & Hfolded).
    by exists tbl.
  - right. exists row, e. split; [done|]. split; [done|].
    unfold getFoldedTableAsString.
    change (foldRows data schema [] ≫= (λ r,
              match r with
              | inl e => Some (Err e)
              | inr newData =>
                  table ← AdjustFieldSizes
                    {| Data := newData; Schema := [valuesField 5] |};
                  Ok <$> getTableAsString (Data table) (Schema table)
              end) = Some (Err e)).
    by rewrite Hfold.
Qed.

Lemma getFoldedTableAsString_panic schema before row rest :
  Forall (λ r, ∃ c, getTableAsYAMLString [r] schema = Some (Ok c)) before →
  getTableAsYAMLString [row] schema = None →
  getFoldedTableAsString (before ++ row :: rest) schema = None.
Proof.
  intros Hprefix Hrow. unfold getFoldedTableAsString.
  change (foldRows (before ++ row :: rest) schema [] ≫= (λ r,
            match r with
            | inl e => Some (Err e)
            | inr newData =>
                table ← AdjustFieldSizes
                  {| Data := newData; Schema := [valuesField 5] |};
                Ok <$> getTableAsString (Data table) (Schema table)
            end) = None).
  by rewrite foldRows_panic.
Qed.

Lemma getFoldedTableAsString_error schema before row rest e :
  Forall (λ r, ∃ c, getTableAsYAMLString [r] schema = Some (Ok c)) before →
  getTableAsYAMLString [row] schema = Some (Err e) →
  getFoldedTableAsString (before ++ row :: rest) schema = Some (Err e).
Proof.
  intros Hprefix Hrow. unfold getFoldedTableAsString.
  change (foldRows (before ++ row :: rest) schema [] ≫= (λ r,
            match r with
            | inl e => Some (Err e)
            | inr newData =>
                table ← AdjustFieldSizes
                  {| Data := newData; Schema := [valuesField 5] |};
                Ok <$> getTableAsString (Data table) (Schema table)
            end) = Some (Err e)).
  by rewrite (foldRows_error _ _ _ e).
Qed.

(** X8. Rendered as text, a table whose rows have the types of the schema
    has its widths adjusted, and the measure of its first row returns.
    If the table has no row or the first row is not beyond the fold
    length, a text comes back.  If the table is folded, the rows are
    serialized in order up to the first one that is not serialized: an
    error of the encoder on it is the result, a panic of the encoder on
    it is a panic, and the rows after it are not looked at; when the
    encoder returns on every row a result comes back, and it is an error
    only when a row fails to serialize.  A table that holds only ints,
    strings, floats and booleans is rendered without a panic. *)
Theorem render_text_returns (t : Table) (tableName topLine : string)
    (foldAtLength : Z) :
  Forall (rowTyped (Schema t) 0) (Data t) →
  ∃ t',
    AdjustFieldSizes t = Some t'
    ∧ Data t' = Data t
    ∧ (Data t ≠ [] → is_Some (getRowSize (Data t) (Schema t')))
    ∧ (Data t = []
       ∨ (∃ size, getRowSize (Data t) (Schema t') = Some size
                  ∧ size <= foldAtLength) →
       ∃ s, RenderTableFoldable t tableName topLine "" foldAtLength
            = Some (Ok s, t'))
    ∧ (∀ size,
         Data t ≠ [] →
         getRowSize (Data t) (Schema t') = Some size →
         foldAtLength < size →
         (Forall (λ row, is_Some (getTableAsYAMLString [row] (Schema t')))
            (Data t) →
          ∃ r, RenderTableFoldable t tableName topLine "" foldAtLength
               = Some (r, t')
               ∧ ∀ e, r = Err e →
                   ∃ row, row ∈ Data t
                          ∧ getTableAsYAMLString [row] (Schema t')
                            = Some (Err e))
         ∧ (∀ before row rest,
              Data t = (before ++ row :: rest)%list →
              Forall (λ r, ∃ c, getTableAsYAMLString [r] (Schema t')
                                = Some (Ok c)) before →
              (getTableAsYAMLString [row] (Schema t') = None →
               RenderTableFoldable t tableName topLine "" foldAtLength = None)
              ∧ (∀ e, getTableAsYAMLString [row] (Schema t') = Some (Err e) →
                      RenderTableFoldable t tableName topLine "" foldAtLength
                      = Some (Err e, t'))))
    ∧ (Forall (Forall (λ d, plain d = true)) (Data t) →
       is_Some (RenderTableFoldable t tableName topLine "" foldAtLength)).
Proof.
  intros Htyped0.
  destruct (AdjustFieldSizes_is_Some fmt_Sprintf t Htyped0) as [t' Hadjust].
  destruct (AdjustFieldSizes_rowTyped _ _ _ Hadjust) as [Hdata Htyped].
  exists t'. split; [done|]. split; [done|].
  assert (RenderTableFoldable t tableName topLine "" foldAtLength
          = rowSize ← (if (0 <? length (Data t))%nat
                        then getRowSize (Data t) (Schema t') else Some 0);
            if (0 <? length (Data t))%nat && (foldAtLength <? rowSize) then
              r ← getFoldedTableAsString (Data t) (Schema t');
              match r with
              | Err e => Some (Err e, t')
              | Ok s =>
                  Some (Ok (((if bool_decide (topLine ≠ "")
                              then fmt_Sprintf ("%s" ++ nl) [VString topLine]
                              else "") ++ s)
                            ++ fmt_Sprintf ("Total: %d %s" ++ nl ++ nl)
                                 [VInt (Z.of_nat (length (Data t)));
                                  VString tableName]), t')
              end
            else
              s ← getTableAsString (Data t) (Schema t');
              Some (Ok (((if bool_decide (topLine ≠ "")
                          then fmt_Sprintf ("%s" ++ nl) [VString topLine]
                          else "") ++ s)
                        ++ fmt_Sprintf ("Total: %d %s" ++ nl ++ nl)
                             [VInt (Z.of_nat (length (Data t)));
                              VString tableName]), t')) as Hrender.
  { unfold RenderTableFoldable.
    destruct isFormat_text as (-> & -> & -> & ->).
    rewrite Hadjust. cbn [mbind option_bind]. by rewrite Hdata. }
  destruct (getTableAsString_is_Some fmt_Sprintf _ _ Htyped) as [tbl Htbl].
  assert (Data t ≠ [] → ∃ size, getRowSize (Data t) (Schema t') = Some size)
    as Hsize.
  { destruct (Data t) as [|row rows]; [done|]. intros _.
    apply Forall_cons in Htyped as [Hrow _].
    destruct (rowWidths_is_Some fmt_Sprintf _ _ _ Hrow) as [widths Hwidths].
    exists (sumZ widths). by rewrite getRowSize_rowWidths, Hwidths. }
  split; [intros Hne; destruct (Hsize Hne) as [size ->]; by eauto|].
  split; [|split].
  - intros [Hnil|(size & Hrow & Hfit)]; rewrite Hrender.
    + rewrite Hnil in *. simpl. rewrite Htbl. simpl. by eauto.
    + rewrite Hrow. destruct (0 <? length (Data t))%nat;
        cbn [mbind option_bind].
      * destruct (Z.ltb_spec foldAtLength size); [lia|]. simpl.
        rewrite Htbl. simpl. by eauto.
      * simpl. rewrite Htbl. simpl. by eauto.
  - intros size Hne Hrow Hfold.
    assert ((0 <? length (Data t))%nat = true) as Hpos.
    { destruct (Data t); [done | reflexivity]. }
    assert ((foldAtLength <? size) = true) as Hlt by (by apply Z.ltb_lt).
    rewrite Hrender, Hpos, Hrow. cbn [mbind option_bind andb]. rewrite Hlt.
    split.
    + intros Hreturns.
      destruct (getFoldedTableAsString_cases _ _ Hreturns)
        as [[folded Hfolded]|(row' & e & Hin & Hrow' & Hfolded)];
        rewrite Hfolded; cbn [mbind option_bind].
      * eexists. split; [reflexivity|]. by intros e.
      * eexists. split; [reflexivity|]. intros e' [= <-]. by exists row'.
    + intros before row rest Hsplit Hprefix. rewrite Hsplit. split.
      * intros Hpanic. by rewrite getFoldedTableAsString_panic.
      * intros e Herr. by rewrite (getFoldedTableAsString_error _ _ _ _ e).
  - intros Hplain. rewrite Hrender.
    destruct (Data t) as [|row rows] eqn:Ht.
    { simpl. rewrite Htbl. simpl. by eauto. }
    destruct Hsize as [size Hrow]; [done|].
    change (0 <? length (row :: rows))%nat with true. cbv iota.
    rewrite Hrow. cbn [mbind option_bind andb].
    destruct (foldAtLength <? size).
    + destruct (getFoldedTableAsString_cases (row :: rows) (Schema t'))
        as [[folded Hfolded]|(row' & e & Hin & Hrow' & Hfolded)].
      { rewrite Forall_forall in Htyped, Hplain. apply Forall_forall.
        intros r Hr. apply plain_yaml; [by apply Htyped | by apply Hplain]. }
      * rewrite Hfolded. simpl. by eauto.
      * rewrite Hfolded. simpl. by eauto.
    + rewrite Htbl. simpl. by eauto.
Qed.

End RenderingOutcomes.

Lemma render_text_returns_witness :
  let t := {| Data := Sample.data4; Schema := Sample.schema4 |} in
  Forall (rowTyped (Schema t) 0) (Data t)
  ∧ ∃ t',
      Sample.AdjustFieldSizes t = Some t'
      ∧ Data t' = Data t
      ∧ is_Some (Sample.RenderTableFoldable t "test" "" "" 300).
Proof.
  intros t.
  assert (Forall (rowTyped (Schema t) 0) (Data t)) as Htyped.
  { repeat (apply Forall_cons; split;
            [repeat (split; [eexists; split; reflexivity|]); exact I|]).
    constructor. }
  assert (Forall (Forall (λ d, plain d = true)) (Data t)) as Hplain.
  { repeat (apply Forall_cons; split;
            [repeat (apply Forall_cons; split; [reflexivity|]);
             apply Forall_nil_2|]).
    apply Forall_nil_2. }
  split; [exact Htyped|].
  destruct (render_text_returns Fmt.Sprintf Sample.keepName Sample.keepName
              Sample.yaml_Marshal Sample.json_MarshalIndent Sample.csv_Write
              t "test" "" 300 Htyped) as (t' & Hadj & Hdata & _ & _ & _ & Hreturns).
  exists t'. split; [exact Hadj|]. split; [exact Hdata|].
  exact (Hreturns Hplain).
Defined.

(** ** Record serializers *)

Lemma rowAsMap_other key fields k : ∀ i row m m',
  rowAsMap key fields i row m = Some m' →
  Forall (λ f, key f ≠ k) fields →
  m' !! k = m !! k.
Proof.
  induction fields as [|f fields IH]; intros i row m m'; simpl.
  { by intros [= <-]. }
  destruct (row !! i) as [d|]; [|done]. simpl.
  intros Hrest [Hf Hall]%Forall_cons.
  rewrite (IH _ _ _ _ Hrest Hall). by apply lookup_insert_ne.
Qed.

Lemma rowAsMap_lookup key fields : ∀ i row m m' j f,
  rowAsMap key fields i row m = Some m' →
  fields !! j = Some f →
  (∀ j' f', (j < j')%nat → fields !! j' = Some f' → key f' ≠ key f) →
  ∃ d, row !! (i + j)%nat = Some d ∧ m' !! key f = Some d.
Proof.
  induction fields as [|g fields IH]; intros i row m m' j f; simpl; [done|].
  destruct (row !! i) as [d|] eqn:Hd; [|done]. simpl.
  intros Hrest Hj Hlater. destruct j as [|j]; simpl in Hj.
  - injection Hj as ->. exists d. rewrite Nat.add_0_r. split; [done|].
    rewrite (rowAsMap_other _ _ (key f) _ _ _ _ Hrest).
    + apply lookup_insert_eq.
    + apply Forall_forall. intros f' [j' Hj']%list_elem_of_lookup.
      apply (Hlater (S j')); [lia | done].
  - destruct (IH _ _ _ _ _ _ Hrest Hj) as (d' & Hd' & Hm').
    { intros j' f' Hlt Hf'. apply (Hlater (S j')); [lia | done]. }
    exists d'. by rewrite Nat.add_succ_r.
Qed.

Lemma rowAsMap_is_Some key fields : ∀ i row m,
  is_Some (rowAsMap key fields i row m)
  ↔ (i + length fields ≤ length row)%nat ∨ fields = [].
Proof.
  induction fields as [|f fields IH]; intros i row m; simpl.
  { split; [by right | by eauto]. }
  destruct (row !! i) as [d|] eqn:Hd; simpl.
  - rewrite IH. apply lookup_lt_Some in Hd. split.
    + intros [Hlen| ->]; left; simpl in *; lia.
    + intros [Hlen|[=]]. destruct fields; [by right | left; simpl in *; lia].
  - apply lookup_ge_None in Hd. split; [by intros [? [=]]|].
    intros [Hlen|[=]]. lia.
Qed.

Lemma rowAsMap_size key fields : ∀ i row m m',
  rowAsMap key fields i row m = Some m' →
  (size m' ≤ size m + length fields)%nat.
Proof.
  induction fields as [|f fields IH]; intros i row m m'; simpl.
  { intros [= <-]. lia. }
  destruct (row !! i) as [d|]; [|done]. simpl. intros Hrest.
  apply IH in Hrest.
  pose proof (map_size_insert (key f) d m) as Hins.
  destruct (m !! key f); unfold id in Hins; simpl in *; lia.
Qed.

(** X9. The record built for a row by the JSON and YAML serializers maps
    each key to the cell of the last column with that key: a column whose
    key no later column repeats is found under its key with the cell of
    the row at its index; columns that share a key are merged, so the
    record never has more entries than the schema has columns. *)
Theorem record_lookup (key : SchemaField → string) (fields : list SchemaField)
    (row : list value) (m : gmap string value) (j : nat) (f : SchemaField) :
  rowAsMap key fields 0 row ∅ = Some m →
  fields !! j = Some f →
  (∀ j' f', (j < j')%nat → fields !! j' = Some f' → key f' ≠ key f) →
  (∃ d, row !! j = Some d ∧ m !! key f = Some d)
  ∧ (size m ≤ length fields)%nat.
Proof.
  intros Hm Hj Hlater. split.
  - by destruct (rowAsMap_lookup _ _ _ _ _ _ _ _ Hm Hj Hlater) as (d & Hd & Hk);
      exists d.
  - apply rowAsMap_size in Hm. by rewrite map_size_empty in Hm.
Qed.

Lemma record_lookup_witness :
  let fields := [ Sample.field "ID" TypeInt 6 0; Sample.field "LABEL" TypeString 20 0;
                  Sample.field "ID" TypeFloat 6 2 ] in
  ∃ m, rowAsMap FieldName fields 0 Sample.row3 ∅ = Some m
       ∧ m !! "ID" = Some (VFloat Sample.f20_1)
       ∧ (size m ≤ 3)%nat.
Proof.
  intros fields.
  exists (<["ID" := VFloat Sample.f20_1]>
            (<["LABEL" := VString "str"]> (<["ID" := VInt 4]> ∅))).
  split; [reflexivity|].
  destruct (record_lookup FieldName fields Sample.row3
              (<["ID" := VFloat Sample.f20_1]>
                 (<["LABEL" := VString "str"]> (<["ID" := VInt 4]> ∅)))
              2 (Sample.field "ID" TypeFloat 6 2))
    as [(d & Hd & Hm) Hsize].
  - reflexivity.
  - reflexivity.
  - intros [|[|[|j']]] f' Hlt Hf'; [lia | lia | lia | discriminate].
  - injection Hd as <-. split; [exact Hm | exact Hsize].
Defined.

Section SerializerOutcomes.

Variable fmt_Sprintf : string → list value → string.
Variable strings_ToLower strcase_ToLowerCamel : string → string.
Variable yaml_Marshal : marshaller.
Variable json_MarshalIndent : list (gmap string value) → string → string → result.
Variable csv_Write : list string → string.

Local Abbreviation getTableAsYAMLString :=
  (getTableAsYAMLString strings_ToLower strcase_ToLowerCamel yaml_Marshal).
Local Abbreviation getTableAsJSONString :=
  (getTableAsJSONString json_MarshalIndent).
Local Abbreviation getTableAsCSVString :=
  (getTableAsCSVString fmt_Sprintf csv_Write).

Lemma dataAsMap_is_Some key data schema :
  is_Some (dataAsMap key data schema)
  ↔ Forall (λ row : list value, (length schema ≤ length row)%nat) data.
Proof.
  unfold dataAsMap. rewrite mapM_is_Some. apply Forall_iff. intros row.
  simpl. rewrite rowAsMap_is_Some. simpl. split; [|by left].
  intros [Hlen| ->]; simpl; lia.
Qed.

Lemma rowAsMap_app key fields extra : ∀ i row m,
  (i + length fields ≤ length row)%nat →
  rowAsMap key fields i (row ++ extra) m = rowAsMap key fields i row m.
Proof.
  induction fields as [|f fields IH]; intros i row m Hlen; simpl; [done|].
  simpl in Hlen. rewrite lookup_app_l by lia.
  destruct (row !! i) as [d|]; [|done]. simpl. apply IH. lia.
Qed.

Lemma dataAsMap_plain key schema : ∀ rows maps,
  Forall (Forall (λ d, plain d = true)) rows →
  dataAsMap key rows schema = Some maps →
  plainDoc maps = true.
Proof.
  unfold dataAsMap.
  induction rows as [|row rows IH]; intros maps Hplain; simpl.
  { by intros [= <-]. }
  apply Forall_cons in Hplain as [Hrow Hrows].
  destruct (rowAsMap key schema 0 row ∅) as [m|] eqn:Hm; simpl; [|done].
  destruct (mapM _ rows) as [rest|] eqn:Hrest; simpl; [|done].
  intros [= <-].
  assert (plainDoc [m] = true) as Hfirst.
  { apply plainDoc_single.
    by eapply rowAsMap_plain; [exact Hrow | apply map_Forall_empty | exact Hm]. }
  unfold plainDoc in *. cbn [forallb] in *. rewrite andb_true_r in Hfirst.
  by rewrite Hfirst, (IH rest Hrows eq_refl).
Qed.

(** X10. The JSON serializer returns exactly when every row has at least
    as many cells as the schema has fields, whatever the cells and the
    field types are; a shorter row makes it panic, and cells beyond the
    schema do not reach the records.  The YAML serializer returns exactly
    when, besides, the encoder does not panic on the records; it does not
    on a table that holds only ints, strings, floats and booleans. *)
Theorem record_serializers_return (data : list (list value))
    (schema : list SchemaField) :
  (is_Some (getTableAsJSONString data schema)
   ↔ Forall (λ row : list value, (length schema ≤ length row)%nat) data)
  ∧ (is_Some (getTableAsYAMLString data schema)
     ↔ Forall (λ row : list value, (length schema ≤ length row)%nat) data
       ∧ ∀ maps,
           dataAsMap
             (λ field, strcase_ToLowerCamel (strings_ToLower (FieldName field)))
             data schema = Some maps →
           is_Some (marshal yaml_Marshal maps))
  ∧ (Forall (λ row : list value, (length schema ≤ length row)%nat) data →
     Forall (Forall (λ d, plain d = true)) data →
     is_Some (getTableAsYAMLString data schema))
  ∧ (Forall (λ row : list value, (length schema ≤ length row)%nat) data →
     ∀ extra,
       getTableAsJSONString (map (λ row, row ++ extra)%list data) schema
       = getTableAsJSONString data schema).
Proof.
  split; [|split; [|split]].
  - rewrite <- (dataAsMap_is_Some FieldName).
    unfold getTableAsJSONString.
    destruct (dataAsMap FieldName data schema); simpl;
      split; intros [? [=]]; eauto.
  - rewrite <- (dataAsMap_is_Some
                  (λ field, strcase_ToLowerCamel (strings_ToLower (FieldName field)))).
    unfold getTableAsYAMLString.
    destruct (dataAsMap _ data schema) as [maps|]; cbn [mbind option_bind].
    + destruct (marshal yaml_Marshal maps) as [ret|] eqn:Hret;
        cbn [mbind option_bind].
      * split; [|by eauto]. intros _. split; [by eauto|].
        intros ? [= <-]. rewrite Hret. by eauto.
      * split; [by intros [? [=]]|]. intros [_ Hmarshal].
        specialize (Hmarshal maps eq_refl). rewrite Hret in Hmarshal.
        by destruct Hmarshal as [? [=]].
    + split; [by intros [? [=]] | by intros [[? [=]] _]].
  - intros Hlong Hplain.
    apply (dataAsMap_is_Some
             (λ field, strcase_ToLowerCamel (strings_ToLower (FieldName field))))
      in Hlong as [maps Hmaps].
    unfold getTableAsYAMLString. rewrite Hmaps. cbn [mbind option_bind].
    rewrite (marshal_plain yaml_Marshal)
      by (by eapply dataAsMap_plain).
    simpl. by eauto.
  - intros Hlong extra. unfold getTableAsJSONString. f_equal.
    unfold dataAsMap. induction Hlong as [|row rows Hrow _ IH]; [done|].
    simpl. rewrite rowAsMap_app by (simpl; lia).
    destruct (rowAsMap FieldName schema 0 row ∅); [|done]. simpl.
    by rewrite IH.
Qed.

Lemma csvField_is_Some f d :
  is_Some (csvField fmt_Sprintf f d) ↔ csvTyped f d = true.
Proof.
  unfold csvField, csvTyped.
  repeat destruct (_ =? _); destruct d; simpl;
    split; first [done | by eauto | by intros [? [=]]].
Qed.

Lemma csvRecord_is_Some fields : ∀ i row,
  is_Some (csvRecord fmt_Sprintf fields i row) ↔ csvRowTyped fields i row.
Proof.
  induction fields as [|f fields IH]; intros i row; simpl.
  { split; [done | by eauto]. }
  rewrite <- IH. destruct (row !! i) as [d|]; simpl.
  - pose proof (csvField_is_Some f d) as Hfield.
    destruct (csvField fmt_Sprintf f d) as [s|]; simpl.
    + destruct (csvRecord fmt_Sprintf fields (S i) row); simpl.
      * split; [|by eauto]. intros _. split; [|by eauto].
        exists d. split; [done|]. apply Hfield. by eauto.
      * split; [by intros [? [=]] | by intros [_ [? [=]]]].
    + split; [by intros [? [=]]|]. intros [(d' & [= <-] & Hd) _].
      apply Hfield in Hd. by destruct Hd.
  - split; [by intros [? [=]] | by intros [(d' & [=] & _) _]].
Qed.

Lemma csvTyped_cellTyped f d : csvTyped f d = true → cellTyped f d = true.
Proof.
  unfold csvTyped, cellTyped. by repeat destruct (_ =? _); destruct d.
Qed.

Lemma csvRowTyped_rowTyped fields : ∀ i row,
  csvRowTyped fields i row → rowTyped fields i row.
Proof.
  induction fields as [|f fields IH]; intros i row; simpl; [done|].
  intros [(d & Hd & Htyped) Hrest]. split; [|by apply IH].
  exists d. split; [done | by apply csvTyped_cellTyped].
Qed.

(** X11. The CSV serializer returns exactly when every row has, for each
    field, a cell of the field's type, where a date column needs a
    string; otherwise it panics.  It never returns an error.  What it
    accepts the text renderer accepts too, and a table without rows gives
    the record of the field names alone. *)
Theorem csv_returns (data : list (list value)) (schema : list SchemaField) :
  (is_Some (getTableAsCSVString data schema)
   ↔ Forall (csvRowTyped schema 0) data)
  ∧ (∀ r, getTableAsCSVString data schema = Some r → ∃ s, r = Ok s)
  ∧ (Forall (csvRowTyped schema 0) data → Forall (rowTyped schema 0) data)
  ∧ getTableAsCSVString [] schema
    = Some (Ok (decolorize (csv_Write (map FieldName schema)))).
Proof.
  split; [|split; [|split]].
  - assert (is_Some (mapM (csvRecord fmt_Sprintf schema 0) data)
            ↔ Forall (csvRowTyped schema 0) data) as <-.
    { rewrite mapM_is_Some. apply Forall_iff. intros row.
      apply csvRecord_is_Some. }
    unfold getTableAsCSVString.
    destruct (mapM _ data); simpl; split; intros [? [=]]; eauto.
  - unfold getTableAsCSVString. intros r.
    destruct (mapM _ data); simpl; [|done]. intros [= <-]. by eauto.
  - intros Hall. eapply Forall_impl; [exact Hall|].
    intros row. apply csvRowTyped_rowTyped.
  - reflexivity.
Qed.

End SerializerOutcomes.

(** ** Transposition *)

Lemma transposeColumn_mapM rows j : ∀ newRow,
  transposeColumn rows j newRow
  = (λ c, newRow ++ c)%list <$> mapM (λ row : list value, row !! j) rows.
Proof.
  induction rows as [|row rows IH]; intros newRow; simpl.
  { by rewrite app_nil_r. }
  destruct (row !! j) as [d|]; [|done]. simpl. rewrite IH.
  destruct (mapM _ rows); simpl; [|done]. by rewrite <- app_assoc.
Qed.

Lemma transposeLoop_mapM data n : ∀ j dataT,
  transposeLoop n j data dataT
  = (λ c, dataT ++ c)%list
      <$> mapM (λ k, mapM (λ row : list value, row !! k) data) (seq j n).
Proof.
  induction n as [|n IH]; intros j dataT; simpl.
  { by rewrite app_nil_r. }
  rewrite transposeColumn_mapM.
  destruct (mapM _ data) as [newRow|]; [|done]. simpl. rewrite IH.
  destruct (mapM _ (seq (S j) n)); simpl; [|done]. by rewrite <- app_assoc.
Qed.

Lemma TransposeTable_Some t t' first rest :
  Data t = first :: rest →
  TransposeTable t = Some t' →
  Schema t' = Schema t
  ∧ length (Data t') = length first
  ∧ (∀ j rowT, Data t' !! j = Some rowT →
       length rowT = length (Data t)
       ∧ ∀ i row, Data t !! i = Some row → rowT !! i = row !! j).
Proof.
  intros Hdata. unfold TransposeTable. rewrite Hdata, transposeLoop_mapM.
  rewrite <- Hdata.
  destruct (mapM _ (seq 0 (length first))) as [dataT|] eqn:HdataT; [|done].
  simpl. intros [= <-]. simpl. apply mapM_Some in HdataT.
  split; [done|]. split.
  { apply Forall2_length in HdataT. by rewrite length_seq in HdataT. }
  intros j rowT Hj.
  destruct (Forall2_lookup_r _ _ _ _ _ HdataT Hj) as (k & Hk & HrowT).
  apply lookup_seq in Hk as [-> _]. simpl in HrowT.
  apply mapM_Some in HrowT. split.
  { by apply Forall2_length in HrowT. }
  intros i row Hi.
  destruct (Forall2_lookup_l _ _ _ _ _ HrowT Hi) as (d & Hd & Hrow).
  by rewrite Hd, Hrow.
Qed.

Lemma TransposeTable_is_Some t first rest :
  Data t = first :: rest →
  is_Some (TransposeTable t)
  ↔ Forall (λ row : list value, (length first ≤ length row)%nat) (Data t).
Proof.
  intros Hdata. unfold TransposeTable. rewrite Hdata, transposeLoop_mapM.
  rewrite <- Hdata.
  assert (is_Some (mapM (λ k, mapM (λ row : list value, row !! k) (Data t))
                     (seq 0 (length first)))
          ↔ Forall (λ row : list value, (length first ≤ length row)%nat) (Data t))
    as <-.
  { rewrite mapM_is_Some. rewrite !Forall_forall. split.
    - intros Hcols row Hrow.
      destruct (decide (length first = 0%nat)) as [->|Hpos]; [lia|].
      assert ((length first - 1)%nat ∈ seq 0 (length first)) as Hlast
        by (apply elem_of_seq; lia).
      apply Hcols in Hlast. unfold compose in Hlast.
      rewrite mapM_is_Some, Forall_forall in Hlast.
      specialize (Hlast row Hrow). simpl in Hlast.
      apply lookup_lt_is_Some in Hlast. lia.
    - intros Hrows k Hk%elem_of_seq. simpl.
      rewrite mapM_is_Some, Forall_forall. intros row Hrow. simpl.
      apply lookup_lt_is_Some. specialize (Hrows row Hrow). lia. }
  destruct (mapM _ (seq 0 (length first))); simpl;
    split; intros [? [=]]; eauto.
Qed.

(** X12. [TransposeTable] keeps the schema and turns columns into rows:
    the result has one row for each cell of the first row, each as long
    as the table has rows, and cell [i] of row [j] is cell [j] of row [i];
    cells of longer rows beyond the length of the first are dropped. *)
Theorem TransposeTable_cells (t t' : Table) (first : list value)
    (rest : list (list value)) :
  Data t = first :: rest →
  TransposeTable t = Some t' →
  Schema t' = Schema t
  ∧ length (Data t') = length first
  ∧ (∀ j rowT, Data t' !! j = Some rowT →
       length rowT = length (Data t)
       ∧ ∀ i row, Data t !! i = Some row →
           is_Some (row !! j) ∧ rowT !! i = row !! j).
Proof.
  intros Hdata Ht'.
  destruct (TransposeTable_Some _ _ _ _ Hdata Ht') as (Hschema & Hlen & Hcells).
  split; [done|]. split; [done|]. intros j rowT Hj.
  destruct (Hcells j rowT Hj) as [HlenT Hcell]. split; [done|].
  intros i row Hi. specialize (Hcell i row Hi). split; [|done].
  rewrite <- Hcell. apply lookup_lt_is_Some. rewrite HlenT.
  by apply lookup_lt_Some in Hi.
Qed.

Lemma TransposeTable_cells_witness :
  Data Sample.ragged = [VInt 1; VString "a"]
                       :: [[VInt 2; VString "b"; VString "extra"]]
  ∧ TransposeTable Sample.ragged
    = Some {| Data := [[VInt 1; VInt 2]; [VString "a"; VString "b"]];
              Schema := Schema Sample.ragged |}
  ∧ ∀ i row, Data Sample.ragged !! i = Some row →
      is_Some (row !! 1%nat) ∧ [VString "a"; VString "b"] !! i = row !! 1%nat.
Proof.
  split; [reflexivity|]. split; [reflexivity|].
  destruct (TransposeTable_cells Sample.ragged
              {| Data := [[VInt 1; VInt 2]; [VString "a"; VString "b"]];
                 Schema := Schema Sample.ragged |}
              [VInt 1; VString "a"] [[VInt 2; VString "b"; VString "extra"]])
    as (_ & _ & Hcells).
  - reflexivity.
  - reflexivity.
  - exact (proj2 (Hcells 1%nat [VString "a"; VString "b"] eq_refl)).
Defined.

(** X13. [TransposeTable] returns a table without rows as it is, and
    otherwise returns exactly when no row is shorter than the first one;
    a shorter row makes it panic. *)
Theorem TransposeTable_returns (t : Table) :
  (Data t = [] → TransposeTable t = Some t)
  ∧ (∀ first rest, Data t = first :: rest →
       (is_Some (TransposeTable t)
        ↔ Forall (λ row : list value, (length first ≤ length row)%nat) rest)).
Proof.
  split.
  - intros Hdata. unfold TransposeTable. by rewrite Hdata.
  - intros first rest Hdata.
    rewrite (TransposeTable_is_Some _ _ _ Hdata), Hdata, Forall_cons.
    split; [by intros [_ ?] | by split].
Qed.

(** X14. On a table of at least one row whose rows all have the same,
    positive number of cells, [TransposeTable] returns, and transposing
    its result gives the table back. *)
Theorem TransposeTable_involutive (t : Table) (n : nat) :
  (0 < n)%nat →
  Data t ≠ [] →
  Forall (λ row : list value, length row = n) (Data t) →
  ∃ t', TransposeTable t = Some t' ∧ TransposeTable t' = Some t.
Proof.
  intros Hn Hne Hrect.
  destruct (Data t) as [|first rest] eqn:Hdata; [done|].
  assert (length first = n) as Hfirst by (by apply Forall_cons in Hrect as [? _]).
  destruct (proj2 (TransposeTable_is_Some t first rest Hdata)) as [t' Ht'].
  { rewrite Hdata, <- Hdata, Hfirst. rewrite Hdata.
    eapply Forall_impl; [exact Hrect|]. simpl. lia. }
  exists t'. split; [done|].
  destruct (TransposeTable_Some _ _ _ _ Hdata Ht') as (Hschema & Hlen & Hcells).
  destruct (Data t') as [|firstT restT] eqn:HdataT.
  { simpl in Hlen. lia. }
  assert (length firstT = length (Data t)) as HfirstT.
  { by destruct (Hcells 0%nat firstT eq_refl). }
  destruct (proj2 (TransposeTable_is_Some t' firstT restT HdataT)) as [t'' Ht''].
  { apply Forall_forall.
    intros rowT [j Hj]%list_elem_of_lookup. rewrite HdataT in Hj.
    destruct (Hcells j rowT Hj) as [-> _]. lia. }
  rewrite Ht''. f_equal.
  destruct (TransposeTable_Some _ _ _ _ HdataT Ht'')
    as (Hschema' & Hlen' & Hcells').
  destruct t as [d sch], t'' as [d'' sch'']. simpl in *. f_equal; [|congruence].
  subst d. apply list_eq_same_length with (length (first :: rest)); [done|lia|].
  intros i row'' row Hi Hrow'' Hrow.
  destruct (Hcells' i row'' Hrow'') as [Hlen'' Hcell''].
  rewrite HdataT in Hlen'', Hcell''. simpl in Hlen''.
  assert (length row = n) as Hrowlen.
  { rewrite Forall_forall in Hrect. apply Hrect.
    by apply list_elem_of_lookup_2 in Hrow. }
  apply list_eq_same_length with n; [lia|lia|].
  intros j x y Hj Hx Hy.
  destruct (lookup_lt_is_Some_2 (firstT :: restT) j) as [rowT HrowT];
    [simpl; lia|].
  rewrite (Hcell'' j rowT HrowT) in Hx.
  destruct (Hcells j rowT HrowT) as [_ Hcell].
  rewrite (Hcell i row Hrow) in Hx. congruence.
Qed.

Lemma TransposeTable_involutive_witness :
  (0 < 2)%nat
  ∧ Data Sample.grid ≠ []
  ∧ Forall (λ row : list value, length row = 2%nat) (Data Sample.grid)
  ∧ ∃ t', TransposeTable Sample.grid = Some t'
          ∧ TransposeTable t' = Some Sample.grid.
Proof.
  assert (Forall (λ row : list value, length row = 2%nat) (Data Sample.grid))
    as Hrect.
  { repeat (apply Forall_cons; split; [reflexivity|]). apply Forall_nil_2. }
  split; [lia|]. split; [discriminate|]. split; [exact Hrect|].
  apply (TransposeTable_involutive Sample.grid 2); [lia | discriminate | exact Hrect].
Defined.

(** ** Transposed rendering *)

Section TransposedProperties.

Variable fmt_Sprintf : string → list value → string.
Variable strings_ToLower strcase_ToLowerCamel : string → string.
Variable yaml_Marshal : marshaller.
Variable json_MarshalIndent : list (gmap string value) → string → string → result.
Variable csv_Write : list string → string.

Local Abbreviation getTableAsString := (getTableAsString fmt_Sprintf).
Local Abbreviation getRowSize := (getRowSize fmt_Sprintf).
Local Abbreviation AdjustFieldSizes := (AdjustFieldSizes fmt_Sprintf).
Local Abbreviation getFoldedTableAsString :=
  (getFoldedTableAsString fmt_Sprintf strings_ToLower strcase_ToLowerCamel
     yaml_Marshal).
Local Abbreviation RenderTableFoldable :=
  (RenderTableFoldable fmt_Sprintf strings_ToLower strcase_ToLowerCamel
     yaml_Marshal json_MarshalIndent csv_Write).
Local Abbreviation RenderTable :=
  (RenderTable fmt_Sprintf strings_ToLower strcase_ToLowerCamel
     yaml_Marshal json_MarshalIndent csv_Write).
Local Abbreviation ConvertToStringTable := (ConvertToStringTable fmt_Sprintf).
Local Abbreviation RenderTransposedTable :=
  (RenderTransposedTable fmt_Sprintf strings_ToLower strcase_ToLowerCamel
     yaml_Marshal json_MarshalIndent csv_Write).
Local Abbreviation RenderTransposedTableHumanReadable :=
  (RenderTransposedTableHumanReadable fmt_Sprintf).

(** On a table of plain cells the text renderer returns exactly when the
    adjuster does. *)
Lemma render_text_is_Some t tableName topLine foldAtLength :
  Forall (Forall (λ d, plain d = true)) (Data t) →
  is_Some (RenderTableFoldable t tableName topLine "" foldAtLength)
  ↔ Forall (rowTyped (Schema t) 0) (Data t).
Proof.
  intros Hplain. split.
  - unfold RenderTableFoldable.
    destruct isFormat_text as (-> & -> & -> & ->).
    rewrite AdjustFieldSizes_adjustFrom.
    destruct (adjustFrom fmt_Sprintf (Data t) 0 (Schema t)) as [schema'|] eqn:Hadj.
    + intros _. by eapply adjustFrom_rowTyped.
    + by intros [? [=]].
  - intros Htyped0.
    destruct (AdjustFieldSizes_is_Some fmt_Sprintf t Htyped0) as [t' Hadjust].
    destruct (AdjustFieldSizes_rowTyped _ _ _ Hadjust) as [Hdata Htyped].
    unfold RenderTableFoldable.
    destruct isFormat_text as (-> & -> & -> & ->).
    rewrite Hadjust. cbn [mbind option_bind]. rewrite Hdata.
    destruct (Data t) as [|row rows] eqn:Ht.
    { destruct (getTableAsString_is_Some fmt_Sprintf [] (Schema t')) as [s Hs];
        [constructor|].
      simpl. rewrite Hs. simpl. by eauto. }
    pose proof Htyped as [Hrow _]%Forall_cons.
    destruct (rowWidths_is_Some fmt_Sprintf _ _ _ Hrow) as [widths Hwidths].
    assert (getRowSize (row :: rows) (Schema t') = Some (sumZ widths)) as Hsize
      by (by rewrite getRowSize_rowWidths, Hwidths).
    change (0 <? length (row :: rows))%nat with true. cbv iota.
    rewrite Hsize. cbn [mbind option_bind andb].
    destruct (foldAtLength <? sumZ widths).
    + destruct (getFoldedTableAsString_cases fmt_Sprintf strings_ToLower
                  strcase_ToLowerCamel yaml_Marshal (row :: rows) (Schema t'))
        as [[tbl Hfolded]|(row' & e & Hin & Hrow' & Hfolded)].
      { rewrite Forall_forall in Htyped, Hplain. apply Forall_forall.
        intros r Hr.
        apply plain_yaml; [by apply Htyped | by apply Hplain]. }
      * rewrite Hfolded; cbn [mbind option_bind]; by eauto.
      * rewrite Hfolded; cbn [mbind option_bind]; by eauto.
    + destruct (getTableAsString_is_Some fmt_Sprintf _ _ Htyped) as [tbl Htbl].
      rewrite Htbl. cbn [mbind option_bind]. by eauto.
Qed.

(** Whatever the format, [RenderTableFoldable] hands back the data it was
    given. *)
Lemma render_data t tableName topLine format foldAtLength r t' :
  RenderTableFoldable t tableName topLine format foldAtLength = Some (r, t') →
  Data t' = Data t.
Proof.
  unfold RenderTableFoldable.
  destruct (isFormat format ["json"; "JSON"]).
  { destruct (getTableAsJSONString _ _ _); simpl; [|done]. by intros [= _ <-]. }
  destruct (isFormat format ["csv"; "CSV"]).
  { destruct (getTableAsCSVString _ _ _ _); simpl; [|done]. by intros [= _ <-]. }
  destruct (isFormat format ["yaml"; "YAML"]).
  { destruct (getTableAsYAMLString _ _ _ _ _); simpl; [|done]. by intros [= _ <-]. }
  destruct (isFormat format [""]); [|by intros [= _ <-]].
  destruct (AdjustFieldSizes t) as [t1|] eqn:Hadjust; [|done].
  apply AdjustFieldSizes_rowTyped in Hadjust as [Hdata _].
  cbn [mbind option_bind].
  destruct (if (0 <? length (Data t1))%nat then _ else _) as [rowSize|];
    [|done].
  cbn [mbind option_bind].
  destruct (_ && _).
  - destruct (getFoldedTableAsString _ _) as [[s|e]|]; simpl; [| |done];
      by intros [= _ <-].
  - destruct (getTableAsString _ _); simpl; [|done]. by intros [= _ <-].
Qed.

(** Any format but the text one leaves the schema as it is. *)
Lemma render_other_unchanged t tableName topLine format foldAtLength r t' :
  format ≠ "" →
  RenderTableFoldable t tableName topLine format foldAtLength = Some (r, t') →
  t' = t.
Proof.
  intros Hformat. unfold RenderTableFoldable.
  destruct (isFormat format ["json"; "JSON"]).
  { destruct (getTableAsJSONString _ _ _); simpl; [|done]. by intros [= _ <-]. }
  destruct (isFormat format ["csv"; "CSV"]).
  { destruct (getTableAsCSVString _ _ _ _); simpl; [|done]. by intros [= _ <-]. }
  destruct (isFormat format ["yaml"; "YAML"]).
  { destruct (getTableAsYAMLString _ _ _ _ _); simpl; [|done]. by intros [= _ <-]. }
  assert (isFormat format [""] = false) as ->.
  { unfold isFormat. apply bool_decide_eq_false.
    by intros ->%list_elem_of_singleton. }
  by intros [= _ <-].
Qed.

(** The table handed to [TransposeTable] by [RenderTransposedTable]. *)
Local Abbreviation keyValueTable t :=
  ({| Data := map (λ s, VString (FieldName s)) (Schema t)
              :: Data (ConvertToStringTable t);
      Schema := keyValueSchema |}).


Lemma transposed_lengths t :
  Forall (λ row : list value,
            (length (map (λ s, VString (FieldName s)) (Schema t)) ≤ length row)%nat)
    (map (λ s, VString (FieldName s)) (Schema t)
       :: Data (ConvertToStringTable t))
  ↔ Forall (λ row : list value, (length (Schema t) ≤ length row)%nat) (Data t).
Proof.
  rewrite Forall_cons. simpl. rewrite Forall_fmap, length_map. split.
  - intros [_ Hrows]. eapply Forall_impl; [exact Hrows|].
    intros row. simpl. by rewrite length_map.
  - intros Hrows. split; [done|]. eapply Forall_impl; [exact Hrows|].
    intros row. simpl. by rewrite length_map.
Qed.

Lemma transposed_typed t tT :
  TransposeTable (keyValueTable t) = Some tT →
  Schema tT = keyValueSchema
  ∧ (Forall (rowTyped keyValueSchema 0) (Data tT)
     ↔ Schema t = [] ∨ Data t ≠ []).
Proof.
  intros HT.
  destruct (TransposeTable_Some (keyValueTable t) tT _ _ eq_refl HT)
    as (Hschema & Hlen & Hcells).
  simpl in Hschema, Hlen, Hcells. rewrite length_map in Hlen.
  split; [done|]. split.
  - intros Htyped. destruct (Schema t) as [|f fields] eqn:Hfields; [by left|].
    right. destruct (Data tT) as [|rowT rowsT] eqn:HdataT; [done|].
    apply Forall_cons in Htyped as [(_ & (d & Hd & _) & _) _].
    destruct (Hcells 0%nat rowT eq_refl) as [HlenT _].
    apply lookup_lt_Some in Hd. rewrite HlenT, length_map in Hd.
    destruct (Data t); [simpl in Hd; lia | done].
  - intros [Hfields|Hdata].
    + rewrite Hfields in Hlen. simpl in Hlen.
      destruct (Data tT); [constructor | done].
    + destruct (Data t) as [|row rows] eqn:Ht; [done|].
      apply Forall_forall. intros rowT [j Hj]%list_elem_of_lookup.
      destruct (Hcells j rowT Hj) as [HlenT Hcell]. simpl in HlenT.
      pose proof (Hcell 0%nat _ eq_refl) as Hkey.
      pose proof (Hcell 1%nat _ eq_refl) as Hvalue.
      destruct (lookup_lt_is_Some_2 rowT 0) as [d0 Hd0]; [lia|].
      destruct (lookup_lt_is_Some_2 rowT 1) as [d1 Hd1]; [lia|].
      rewrite Hd0 in Hkey. rewrite Hd1 in Hvalue.
      symmetry in Hkey, Hvalue.
      apply list_lookup_fmap_Some in Hkey as (f & -> & _).
      apply list_lookup_fmap_Some in Hvalue as (v & -> & _).
      split; [by exists (VString (FieldName f))|].
      split; [|done]. by eexists.
Qed.

(** The transposed table holds the field names and the converted cells:
    strings only. *)
Lemma transposed_plain t tT :
  TransposeTable (keyValueTable t) = Some tT →
  Forall (Forall (λ d, plain d = true)) (Data tT).
Proof.
  intros HT.
  destruct (TransposeTable_Some (keyValueTable t) tT _ _ eq_refl HT)
    as (_ & _ & Hcells).
  simpl in Hcells.
  apply Forall_forall. intros rowT [j Hj]%list_elem_of_lookup.
  destruct (Hcells j rowT Hj) as [HlenT Hcell].
  apply Forall_forall. intros d [i Hi]%list_elem_of_lookup.
  destruct (lookup_lt_is_Some_2
              (map (λ s, VString (FieldName s)) (Schema t)
                 :: Data (ConvertToStringTable t)) i) as [row Hrow].
  { pose proof (lookup_lt_Some _ _ _ Hi) as Hlt. by rewrite HlenT in Hlt. }
  rewrite (Hcell i row Hrow) in Hi.
  destruct i as [|i]; simpl in Hrow.
  - injection Hrow as <-.
    by apply list_lookup_fmap_Some in Hi as (f & -> & _).
  - apply list_lookup_fmap_Some in Hrow as (row0 & -> & _).
    by apply list_lookup_fmap_Some in Hi as (v & -> & _).
Qed.

(** X15. In the text format [RenderTransposedTable] returns exactly when
    no row is shorter than the schema and, unless the schema is empty,
    there is at least one row: on a table without rows it panics, as the
    VALUE column of the transposed table is missing.  In every format it
    leaves the receiver as it was, widths included. *)
Theorem RenderTransposedTable_returns (t : Table) (tableName topLine : string) :
  (is_Some (RenderTransposedTable t tableName topLine "")
   ↔ (Schema t = [] ∨ Data t ≠ [])
     ∧ Forall (λ row : list value, (length (Schema t) ≤ length row)%nat) (Data t))
  ∧ (∀ format r t',
       RenderTransposedTable t tableName topLine format = Some (r, t') → t' = t).
Proof.
  split.
  - unfold RenderTransposedTable.
    change (bool_decide ("" ≠ "")) with false. cbv iota zeta.
    rewrite <- transposed_lengths.
    fold keyValueSchema.
    destruct (TransposeTable _) as [tT|] eqn:HT.
    + cbn [mbind option_bind].
      destruct (transposed_typed _ _ HT) as [Hschema <-].
      assert (is_Some (TransposeTable (keyValueTable t))) as Hlens by eauto.
      rewrite (TransposeTable_is_Some (keyValueTable t) _ _ eq_refl) in Hlens.
      simpl in Hlens.
      rewrite <- Hschema, <- (render_text_is_Some tT tableName topLine
                               DefaultFoldAtLength)
        by (by eapply transposed_plain).
      unfold RenderTable.
      destruct (RenderTableFoldable tT tableName topLine "" DefaultFoldAtLength);
        simpl; split.
      * by eauto.
      * by eauto.
      * by intros [? [=]].
      * by intros [[? [=]] _].
    + cbn [mbind option_bind]. split; [by intros [? [=]]|].
      intros [_ Hlens].
      assert (is_Some (TransposeTable (keyValueTable t))) as [? Hsome].
      { by rewrite (TransposeTable_is_Some (keyValueTable t) _ _ eq_refl). }
      congruence.
  - intros format r t'. unfold RenderTransposedTable.
    case_bool_decide as Hformat.
    + unfold RenderTable. by apply render_other_unchanged.
    + destruct (TransposeTable _) as [tT|]; [|done]. cbn [mbind option_bind].
      destruct (RenderTable tT tableName topLine format); simpl; [|done].
      by intros [= _ <-].
Qed.

Lemma humanReadableLoop_spec fields first rest : ∀ i sb,
  (i + length fields ≤ length first)%nat →
  humanReadableLoop fmt_Sprintf fields i (first :: rest) sb
  = Some (sb ++ String.concat ""
                  (zip_with (λ f d, fmt_Sprintf ("%s: %v" ++ nl)
                                      [VString (FieldName f); d])
                     fields (drop i first))).
Proof.
  induction fields as [|f fields IH]; intros i sb Hlen; simpl.
  { by rewrite append_nil_r. }
  simpl in Hlen.
  destruct (lookup_lt_is_Some_2 first i) as [d Hd]; [lia|].
  rewrite Hd. simpl. rewrite IH by lia.
  rewrite (drop_S _ _ _ Hd). cbn [zip_with].
  by rewrite concat_cons, append_assoc.
Qed.

Lemma humanReadableLoop_is_Some fields data : ∀ i sb,
  is_Some (humanReadableLoop fmt_Sprintf fields i data sb)
  ↔ fields = []
    ∨ ∃ first, head data = Some first ∧ (i + length fields ≤ length first)%nat.
Proof.
  destruct fields as [|f fields]; intros i sb.
  { simpl. split; [by left | by eauto]. }
  destruct data as [|first rest].
  { simpl. split; [by intros [? [=]] | by intros [[=]|(? & [=] & _)]]. }
  split.
  - intros Hsome. right. exists first. split; [done|].
    simpl in Hsome. destruct (first !! i) as [d|] eqn:Hd;
      [|by destruct Hsome as [? [=]]].
    simpl in Hsome. apply lookup_lt_Some in Hd.
    revert i d sb Hd Hsome. generalize f.
    induction fields as [|g fields IH]; intros f0 i d sb Hd Hsome;
      [simpl; lia|].
    simpl in Hsome. destruct (first !! S i) as [d'|] eqn:Hd';
      [|by destruct Hsome as [? [=]]].
    simpl in Hsome. apply lookup_lt_Some in Hd'.
    specialize (IH g (S i) d' _ Hd' Hsome). simpl in *. lia.
  - intros [[=]|(first' & [= <-] & Hlen)].
    rewrite humanReadableLoop_spec by done. by eauto.
Qed.

(** X16. [RenderTransposedTableHumanReadable] prints one line for each
    field of the schema, with the cell of the first row: it returns
    exactly when the schema is empty or the first row exists and is not
    shorter than the schema, and panics otherwise.  It never returns an
    error, and the later rows, the table name and the top line play no
    part. *)
Theorem RenderTransposedTableHumanReadable_first_row (t : Table)
    (tableName topLine : string) :
  (is_Some (RenderTransposedTableHumanReadable t tableName topLine)
   ↔ Schema t = []
     ∨ ∃ first, head (Data t) = Some first
                ∧ (length (Schema t) ≤ length first)%nat)
  ∧ (∀ first rest,
       Data t = first :: rest →
       (length (Schema t) ≤ length first)%nat →
       RenderTransposedTableHumanReadable t tableName topLine
       = Some (Ok (String.concat ""
                     (zip_with (λ f d, fmt_Sprintf ("%s: %v" ++ nl)
                                         [VString (FieldName f); d])
                        (Schema t) first))))
  ∧ (∀ r, RenderTransposedTableHumanReadable t tableName topLine = Some r →
          ∃ s, r = Ok s).
Proof.
  unfold RenderTransposedTableHumanReadable. split; [|split].
  - rewrite <- (humanReadableLoop_is_Some (Schema t) (Data t) 0 "").
    destruct (humanReadableLoop _ _ _ _ _); simpl;
      split; intros [? [=]]; by eauto.
  - intros first rest -> Hlen. by rewrite humanReadableLoop_spec.
  - intros r. destruct (humanReadableLoop _ _ _ _ _); simpl; [|done].
    intros [= <-]. by eauto.
Qed.

End TransposedProperties.

(** ** Truncation *)

Lemma substring_prefix (n : nat) : ∀ s : string,
  (n ≤ String.length s)%nat →
  String.length (substring 0 n s) = n
  ∧ ∃ rest, s = substring 0 n s ++ rest.
Proof.
  induction n as [|n IH]; intros s Hn.
  { destruct s; simpl; (split; [done | by eexists]). }
  destruct s as [|c s]; simpl in Hn; [lia|].
  destruct (IH s) as (Hlen & rest & Hrest); [lia|].
  simpl. split; [by rewrite Hlen|].
  exists rest. by rewrite append_cons, <- Hrest.
Qed.

(** X17. [truncateString] gives the empty string back as it is, whatever
    the length asked for.  Of any other string it keeps the first
    [length] bytes and always adds the three dots, also when nothing was
    cut; a length that is negative or beyond the string makes it panic. *)
Theorem truncateString_cases (s : string) (length : Z) :
  truncateString "" length = Some ""
  ∧ (s ≠ "" → (0 <= length <= len s) →
     ∃ kept rest,
       truncateString s length = Some (kept ++ "...")
       ∧ len kept = length ∧ s = kept ++ rest)
  ∧ (s ≠ "" → length < 0 ∨ len s < length → truncateString s length = None).
Proof.
  assert (s ≠ "" → (0 <? len s) = true) as Hpos.
  { intros Hs. apply Z.ltb_lt. unfold len. destruct s; [done | simpl; lia]. }
  split; [reflexivity|]. split.
  - intros Hs Hlen. unfold truncateString. rewrite (Hpos Hs).
    destruct (Z.leb_spec 0 length); [|lia].
    destruct (Z.leb_spec length (len s)); [|lia]. simpl.
    destruct (substring_prefix (Z.to_nat length) s) as (Hkept & rest & Hrest).
    { unfold len in *. lia. }
    exists (substring 0 (Z.to_nat length) s), rest.
    split; [done|]. split; [unfold len; lia | done].
  - intros Hs Hout. unfold truncateString. rewrite (Hpos Hs).
    destruct (Z.leb_spec 0 length); destruct (Z.leb_spec length (len s));
      simpl; first [done | lia].
Qed.

Lemma truncateString_cases_witness :
  "table" ≠ "" ∧ (0 <= 5 <= len "table")
  ∧ ∃ kept rest,
      truncateString "table" 5 = Some (kept ++ "...")
      ∧ len kept = 5 ∧ "table" = kept ++ rest.
Proof.
  split; [discriminate|]. split; [by vm_compute|].
  apply (proj1 (proj2 (truncateString_cases "table" 5)));
    [discriminate | by vm_compute].
Defined.

(** ** The sort engine: keys, panics and order *)

Section SorterProperties.

Variable fmt_Sprintf : string → list value → string.
Context {GoTime : Type}.
Variable time_Parse : string → string → option GoTime.
Variable time_Before : GoTime → GoTime → bool.

Local Abbreviation lessFor := (lessFor fmt_Sprintf time_Parse time_Before).
Local Abbreviation lessDateTime :=
  (lessDateTime fmt_Sprintf time_Parse time_Before).
Local Abbreviation orderByLoop :=
  (orderByLoop fmt_Sprintf time_Parse time_Before).
Local Abbreviation OrderBy := (OrderBy fmt_Sprintf time_Parse time_Before).

Lemma orderByLoop_step ms k fn rest i field :
  list_find (λ f, FieldName f = fn) (schema ms) = Some (i, field) →
  returned (orderByLoop ms k (fn :: rest))
  = returned (orderByLoop (setKey ms k i (lessFor (FieldType field))) (S k) rest).
Proof.
  intros Hfind. simpl. rewrite Hfind.
  destruct (lessFor (FieldType field)); [reflexivity|].
  unfold returned, bindM, Print.
  by destruct (orderByLoop _ _ _) as [[out r]|].
Qed.

Lemma orderByLoop_spec names : ∀ ms k,
  length (less ms) = (k + length names)%nat →
  length (indexes ms) = (k + length names)%nat →
  ∃ r, returned (orderByLoop ms k names) = Some r
    ∧ match r with
      | None =>
          ∃ fn, fn ∈ names
                ∧ list_find (λ f, FieldName f = fn) (schema ms) = None
      | Some ms' =>
          data ms' = data ms ∧ schema ms' = schema ms
          ∧ length (less ms') = (k + length names)%nat
          ∧ length (indexes ms') = (k + length names)%nat
          ∧ (∀ j, (j < k)%nat →
                  less ms' !! j = less ms !! j
                  ∧ indexes ms' !! j = indexes ms !! j)
          ∧ (∀ j fn, names !! j = Some fn →
               ∃ i f,
                 list_find (λ f, FieldName f = fn) (schema ms) = Some (i, f)
                 ∧ indexes ms' !! (k + j)%nat = Some i
                 ∧ less ms' !! (k + j)%nat = Some (lessFor (FieldType f)))
      end.
Proof.
  induction names as [|fn names IH]; intros ms k Hless Hidx.
  { exists (Some ms). split; [reflexivity|].
    repeat (split; [done|]). by intros j fn [=]. }
  simpl in Hless, Hidx.
  destruct (list_find (λ f, FieldName f = fn) (schema ms)) as [[i field]|]
    eqn:Hfind.
  - rewrite (orderByLoop_step _ _ _ _ _ _ Hfind).
    destruct (IH (setKey ms k i (lessFor (FieldType field))) (S k))
      as (r & Hr & Hspec).
    { simpl. rewrite length_insert. lia. }
    { simpl. rewrite length_insert. lia. }
    exists r. split; [exact Hr|]. destruct r as [ms'|].
    + destruct Hspec as (Hd & Hs & Hl & Hi & Hbefore & Hkeys).
      simpl in Hd, Hs, Hbefore, Hkeys.
      split; [done|]. split; [done|].
      split; [simpl; lia|]. split; [simpl; lia|]. split.
      * intros j Hj. destruct (Hbefore j) as [Hlj Hij]; [lia|].
        rewrite Hlj, Hij. rewrite !list_lookup_insert_ne by lia. done.
      * intros [|j] fn' Hj; simpl in Hj.
        -- injection Hj as <-. exists i, field. split; [done|].
           destruct (Hbefore k) as [Hlk Hik]; [lia|].
           rewrite Nat.add_0_r, Hlk, Hik.
           rewrite !list_lookup_insert_eq by lia. done.
        -- destruct (Hkeys j fn' Hj) as (i' & f' & Hfind' & Hi' & Hl').
           exists i', f'. rewrite Nat.add_succ_r. done.
    + destruct Hspec as (fn' & Hin & Hnone). exists fn'.
      split; [by apply list_elem_of_further | done].
  - exists None. split.
    + simpl. rewrite Hfind. reflexivity.
    + exists fn. split; [by apply list_elem_of_here | done].
Qed.

(** X18. [OrderBy] never panics.  It returns nil exactly when one of the
    names is not the name of a field.  Otherwise the sorter it returns
    has the data and the schema it had, and one key for each name, in
    order: the index of the first field of that name, with the
    comparator of that field's type, which is missing for a type that has
    none. *)
Theorem OrderBy_keys (ms : MultiSorter) (names : list string) :
  ∃ r, returned (OrderBy ms names) = Some r
    ∧ (r = None ↔ ∃ fn, fn ∈ names ∧ fn ∉ map FieldName (schema ms))
    ∧ ∀ ms', r = Some ms' →
        data ms' = data ms ∧ schema ms' = schema ms
        ∧ length (less ms') = length names
        ∧ length (indexes ms') = length names
        ∧ ∀ k fn, names !! k = Some fn →
            ∃ i f,
              schema ms !! i = Some f ∧ FieldName f = fn
              ∧ (∀ j g, schema ms !! j = Some g → (j < i)%nat →
                        FieldName g ≠ fn)
              ∧ indexes ms' !! k = Some i
              ∧ less ms' !! k = Some (lessFor (FieldType f)).
Proof.
  destruct (orderByLoop_spec names
              {| data := data ms; less := replicate (length names) None;
                 schema := schema ms; indexes := replicate (length names) O |}
              0) as (r & Hr & Hspec).
  { simpl. by rewrite length_replicate. }
  { simpl. by rewrite length_replicate. }
  exists r. split; [exact Hr|]. destruct r as [ms'|]; simpl in Hspec.
  - destruct Hspec as (Hd & Hs & Hl & Hi & _ & Hkeys). split.
    + split; [done|]. intros (fn & [k Hk]%list_elem_of_lookup & Hnot).
      destruct (Hkeys k fn Hk) as (i & f & (Hf & Hname & _)%list_find_Some & _).
      destruct Hnot. apply list_elem_of_fmap. exists f.
      split; [done | by eapply list_elem_of_lookup_2].
    + intros ? [= <-]. repeat (split; [done|]). intros k fn Hk.
      destruct (Hkeys k fn Hk)
        as (i & f & (Hf & Hname & Hfirst)%list_find_Some & Hik & Hlk).
      exists i, f. repeat (split; [done|]). done.
  - destruct Hspec as (fn & Hin & Hnone). split; [|done].
    split; [|done]. intros _. exists fn. split; [done|].
    rewrite list_find_None, Forall_forall in Hnone.
    intros (f & Hname & Hf)%list_elem_of_fmap. by apply (Hnone f).
Qed.

Lemma OrderBy_less ms0 names ms k f :
  returned (OrderBy ms0 names) = Some (Some ms) →
  less ms !! k = Some (Some f) →
  ∃ i f0, schema ms0 !! i = Some f0 ∧ lessFor (FieldType f0) = Some f.
Proof.
  intros Hms Hk.
  destruct (orderByLoop_spec names
              {| data := data ms0; less := replicate (length names) None;
                 schema := schema ms0; indexes := replicate (length names) O |}
              0) as (r & Hr & Hspec).
  { simpl. by rewrite length_replicate. }
  { simpl. by rewrite length_replicate. }
  unfold OrderBy in Hms. rewrite Hr in Hms. injection Hms as ->.
  destruct Hspec as (_ & _ & Hl & _ & _ & Hkeys). simpl in Hl, Hkeys.
  destruct (lookup_lt_is_Some_2 names k) as [fn Hfn].
  { rewrite <- Hl. by eapply lookup_lt_Some. }
  destruct (Hkeys k fn Hfn) as (i & f0 & (Hf0 & _)%list_find_Some & _ & Hlk).
  exists i, f0. split; [done|]. congruence.
Qed.

Lemma callLess_nil ms k p q :
  less ms !! k = None ∨ less ms !! k = Some None →
  callLess ms k p q = None.
Proof.
  intros Hk. unfold callLess. unfold lessFunc in *.
  destruct (indexes ms !! k) as [index|]; [|done]. simpl.
  destruct Hk as [-> | ->]; [done|]. simpl.
  destruct (p !! index); simpl; [|done].
  destruct (q !! index); simpl; [|done].
  by destruct (schema ms !! index).
Qed.

Lemma lessLoop_first_panic ms n k p q :
  callLess ms k p q = None → lessLoop ms n k p q = None.
Proof. intros Hk. destruct n; simpl; by rewrite Hk. Qed.

(** X19. Without a comparator for its first key [Less] panics on every
    pair of rows: when the sorter has no keys at all, as after
    [TableSorter] alone or [OrderBy] without names, and when the first
    key has no comparator, which is what [OrderBy] leaves for a column
    whose type is not one of the five it knows, such as [TypeInterface]. *)
Theorem Less_without_comparator (ms : MultiSorter) (rows : list (list value))
    (i j : nat) :
  (less ms = [] ∨ less ms !! 0%nat = Some None →
   Less (setData ms rows) i j = None)
  ∧ Less (setData (TableSorter (schema ms)) rows) i j = None
  ∧ lessFor TypeInterface = None
  ∧ (∀ ty, lessFor ty = None
           ↔ ty ∉ [TypeInt; TypeString; TypeFloat; TypeDateTime; TypeBool]).
Proof.
  assert (∀ ms', less ms' = [] ∨ less ms' !! 0%nat = Some None →
                 Less (setData ms' rows) i j = None) as Hpanic.
  { intros ms' Hk. unfold Less. simpl.
    destruct (rows !! i) as [p|]; [|done].
    destruct (rows !! j) as [q|]; [|done]. simpl.
    rewrite (lessLoop_first_panic (setData ms' rows) _ 0 p q); [done|].
    apply callLess_nil. simpl. destruct Hk as [-> | ->]; [by left | by right]. }
  split; [apply Hpanic|]. split; [apply Hpanic; by left|].
  split; [reflexivity|].
  intros ty. unfold lessFor. rewrite !elem_of_cons, elem_of_nil.
  destruct (Z.eqb_spec ty TypeInt); [split; [done | tauto]|].
  destruct (Z.eqb_spec ty TypeString); [split; [done | tauto]|].
  destruct (Z.eqb_spec ty TypeFloat); [split; [done | tauto]|].
  destruct (Z.eqb_spec ty TypeDateTime); [split; [done | tauto]|].
  destruct (Z.eqb_spec ty TypeBool); [split; [done | tauto]|].
  split; [tauto | done].
Qed.

Lemma String_ltb_asym (x y : string) :
  String.ltb x y = true → String.ltb y x = false.
Proof.
  unfold String.ltb. rewrite (String.compare_antisym y x).
  by destruct (String.compare x y).
Qed.

Lemma SFltb_asym (x y : spec_float) : SFltb x y = true → SFltb y x = false.
Proof.
  unfold SFltb.
  destruct x as [sx|sx| |sx mx ex], y as [sy|sy| |sy my ey]; simpl;
    try done; try (by destruct sx); try (by destruct sy);
    try (by destruct sx, sy).
  destruct sx, sy; try done.
  - rewrite (Z.compare_antisym ex ey).
    destruct (ex ?= ey)%Z; simpl; try done.
    rewrite (Pos.compare_cont_antisym my mx Eq). simpl.
    by destruct (Pos.compare_cont Eq mx my).
  - rewrite (Z.compare_antisym ex ey).
    destruct (ex ?= ey)%Z; simpl; try done.
    pose proof (Pos.compare_cont_antisym mx my Eq) as Hanti. simpl in Hanti.
    rewrite <- Hanti. by destruct (Pos.compare_cont Eq mx my).
Qed.

Lemma lessFor_irreflexive ty f a field r :
  (∀ t, time_Before t t = false) →
  lessFor ty = Some f →
  returned (f a a field) = Some r → r = false.
Proof.
  intros Hbefore. unfold lessFor.
  destruct (ty =? TypeInt).
  { intros [= <-]. destruct a; simpl; try done.
    intros [= <-]. apply Z.ltb_irrefl. }
  destruct (ty =? TypeString).
  { intros [= <-]. destruct a; simpl; try done.
    intros [= <-]. destruct (String.ltb s s) eqn:Hlt; [|done].
    by rewrite (String_ltb_asym _ _ Hlt) in Hlt. }
  destruct (ty =? TypeFloat).
  { intros [= <-]. destruct a; simpl; try done.
    intros [= <-]. destruct (SFltb x x) eqn:Hlt; [|done].
    by rewrite (SFltb_asym _ _ Hlt) in Hlt. }
  destruct (ty =? TypeDateTime).
  { intros [= <-]. unfold lessDateTime. destruct a; simpl; try done.
    destruct (time_Parse _ s); simpl; [|by intros [= <-]].
    intros [= <-]. apply Hbefore. }
  destruct (ty =? TypeBool); [|done].
  intros [= <-]. destruct a; simpl; try done.
  intros [= <-]. by destruct b.
Qed.

Lemma lessFor_asymmetric ty f a b field :
  (∀ t u, time_Before t u = true → time_Before u t = false) →
  ty ≠ TypeBool →
  lessFor ty = Some f →
  returned (f a b field) = Some true →
  returned (f b a field) = Some false.
Proof.
  intros Hbefore Hty. unfold lessFor.
  destruct (ty =? TypeInt).
  { intros [= <-]. destruct a, b; simpl; try done.
    intros [= Hlt]. f_equal. apply Z.ltb_lt in Hlt. apply Z.ltb_ge. lia. }
  destruct (ty =? TypeString).
  { intros [= <-]. destruct a, b; simpl; try done.
    intros [= Hlt]. f_equal. by apply String_ltb_asym. }
  destruct (ty =? TypeFloat).
  { intros [= <-]. destruct a, b; simpl; try done.
    intros [= Hlt]. f_equal. by apply SFltb_asym. }
  destruct (ty =? TypeDateTime).
  { intros [= <-]. unfold lessDateTime. destruct a; simpl; try done.
    destruct (time_Parse _ s) as [ta|]; simpl; [|done].
    destruct b; simpl; try done.
    destruct (time_Parse _ s0) as [tb|]; simpl; [|done].
    intros [= Hlt]. f_equal. by apply Hbefore. }
  destruct (Z.eqb_spec ty TypeBool); done.
Qed.

Lemma callLess_irreflexive ms k p r :
  (∀ f, less ms !! k = Some (Some f) →
        ∀ a field r, returned (f a a field) = Some r → r = false) →
  returned (callLess ms k p p) = Some r → r = false.
Proof.
  intros Hf. rewrite callLess_returned.
  destruct (indexes ms !! k) as [index|]; simpl; [|done].
  destruct (less ms !! k) as [[f|]|] eqn:Hk; simpl; [| |done].
  - destruct (p !! index) as [a|]; simpl; [|done].
    destruct (schema ms !! index) as [field|]; simpl; [|done].
    by apply Hf.
  - destruct (p !! index) as [a|]; simpl; [|done].
    by destruct (schema ms !! index).
Qed.

Lemma callLess_asymmetric ms k p q :
  (∀ f, less ms !! k = Some (Some f) →
        ∀ a b field, returned (f a b field) = Some true →
                     returned (f b a field) = Some false) →
  returned (callLess ms k p q) = Some true →
  returned (callLess ms k q p) = Some false.
Proof.
  intros Hf. rewrite !callLess_returned.
  destruct (indexes ms !! k) as [index|]; simpl; [|done].
  destruct (less ms !! k) as [[f|]|] eqn:Hk; simpl; [| |done].
  - destruct (p !! index) as [a|]; simpl; [|done].
    destruct (q !! index) as [b|]; simpl; [|done].
    destruct (schema ms !! index) as [field|]; simpl; [|done].
    by apply Hf.
  - destruct (p !! index) as [a|]; simpl; [|done].
    destruct (q !! index) as [b|]; simpl; [|done].
    by destruct (schema ms !! index).
Qed.

Lemma lessLoop_irreflexive ms p n : ∀ k r,
  (∀ j f, less ms !! j = Some (Some f) →
          ∀ a field r, returned (f a a field) = Some r → r = false) →
  returned (lessLoop ms n k p p) = Some r → r = false.
Proof.
  induction n as [|n IH]; intros k r Hf; simpl.
  { apply callLess_irreflexive. intros f. apply Hf. }
  rewrite returned_bindM.
  destruct (returned (callLess ms k p p)) as [pq|] eqn:Hpq; simpl; [|done].
  assert (pq = false) as ->.
  { eapply callLess_irreflexive; [|exact Hpq]. intros f. apply Hf. }
  rewrite returned_bindM, Hpq. simpl. by apply IH.
Qed.

Lemma lessLoop_asymmetric ms p q n : ∀ k,
  (∀ j f, less ms !! j = Some (Some f) →
          ∀ a b field, returned (f a b field) = Some true →
                       returned (f b a field) = Some false) →
  returned (lessLoop ms n k p q) = Some true →
  returned (lessLoop ms n k q p) = Some false.
Proof.
  induction n as [|n IH]; intros k Hf; simpl.
  { apply callLess_asymmetric. intros f. apply Hf. }
  rewrite !returned_bindM.
  destruct (returned (callLess ms k p q)) as [[|]|] eqn:Hpq; simpl; [| |done].
  - intros _.
    rewrite (callLess_asymmetric ms k p q (λ f, Hf k f) Hpq). simpl.
    rewrite returned_bindM, Hpq. reflexivity.
  - rewrite !returned_bindM.
    destruct (returned (callLess ms k q p)) as [[|]|] eqn:Hqp; simpl;
      [done| |done].
    intros Hrest. rewrite returned_bindM, Hpq. simpl. by apply IH.
Qed.

(** X20. A sorter made by [OrderBy] never finds a row less than itself,
    whatever the keys are, provided no time is before itself. *)
Theorem Less_irreflexive (ms0 ms : MultiSorter) (names : list string)
    (rows : list (list value)) (i : nat) :
  (∀ t, time_Before t t = false) →
  returned (OrderBy ms0 names) = Some (Some ms) →
  returned (Less (setData ms rows) i i) ≠ Some true.
Proof.
  intros Hbefore Hms. enough (∀ r,
    returned (Less (setData ms rows) i i) = Some r → r = false) as Hfalse.
  { intros Htrue. by apply Hfalse in Htrue. }
  intros r. unfold Less. simpl.
  rewrite returned_bindM_liftM.
  destruct (rows !! i) as [p|]; cbn [mbind option_bind]; [|done].
  rewrite returned_bindM_liftM. cbn [mbind option_bind].
  apply lessLoop_irreflexive. simpl. intros j f Hj a field r'.
  destruct (OrderBy_less _ _ _ _ _ Hms Hj) as (idx & f0 & _ & Hf).
  by apply (lessFor_irreflexive _ _ _ _ _ Hbefore Hf).
Qed.

(** X21. When the schema has no Boolean column and the order of times is
    asymmetric, the order of a sorter made by [OrderBy] is asymmetric:
    if row [i] is less than row [j], then [Less] also returns on [j] and
    [i], and says no. *)
Theorem Less_asymmetric (ms0 ms : MultiSorter) (names : list string)
    (rows : list (list value)) (i j : nat) :
  (∀ t u, time_Before t u = true → time_Before u t = false) →
  Forall (λ f, FieldType f ≠ TypeBool) (schema ms0) →
  returned (OrderBy ms0 names) = Some (Some ms) →
  returned (Less (setData ms rows) i j) = Some true →
  returned (Less (setData ms rows) j i) = Some false.
Proof.
  intros Hbefore Hbool Hms. unfold Less. simpl.
  rewrite !returned_bindM_liftM.
  destruct (rows !! i) as [p|]; cbn [mbind option_bind]; [|done].
  rewrite !returned_bindM_liftM.
  destruct (rows !! j) as [q|]; cbn [mbind option_bind]; [|done].
  rewrite !returned_bindM_liftM. cbn [mbind option_bind].
  apply lessLoop_asymmetric. simpl. intros k f Hk a b field.
  destruct (OrderBy_less _ _ _ _ _ Hms Hk) as (idx & f0 & Hf0 & Hf).
  apply (lessFor_asymmetric _ _ _ _ _ Hbefore) with (2 := Hf).
  rewrite Forall_forall in Hbool. apply Hbool.
  by eapply list_elem_of_lookup_2.
Qed.

End SorterProperties.

Lemma Less_irreflexive_witness :
  (∀ t, Sample.time_Before t t = false)
  ∧ returned (Sample.OrderBy (TableSorter Sample.schema3)
                ["LABEL"; "ID"; "INST."]) = Some (Some Sample.keys6)
  ∧ returned (Less (setData Sample.keys6 Sample.data6) 1 1) ≠ Some true.
Proof.
  assert (∀ t, Sample.time_Before t t = false) as Hbefore
    by (intros t; apply Z.ltb_irrefl).
  assert (returned (Sample.OrderBy (TableSorter Sample.schema3)
                      ["LABEL"; "ID"; "INST."]) = Some (Some Sample.keys6))
    as Hkeys by reflexivity.
  split; [exact Hbefore|]. split; [exact Hkeys|].
  exact (Less_irreflexive Fmt.Sprintf Sample.time_Parse Sample.time_Before
           (TableSorter Sample.schema3) Sample.keys6 ["LABEL"; "ID"; "INST."]
           Sample.data6 1 Hbefore Hkeys).
Defined.

Lemma Less_asymmetric_witness :
  (∀ t u, Sample.time_Before t u = true → Sample.time_Before u t = false)
  ∧ Forall (λ f, FieldType f ≠ TypeBool) (schema (TableSorter Sample.schema3))
  ∧ returned (Sample.OrderBy (TableSorter Sample.schema3)
                ["LABEL"; "ID"; "INST."]) = Some (Some Sample.keys6)
  ∧ returned (Less (setData Sample.keys6 Sample.data6) 1 0) = Some true
  ∧ returned (Less (setData Sample.keys6 Sample.data6) 0 1) = Some false.
Proof.
  assert (∀ t u, Sample.time_Before t u = true → Sample.time_Before u t = false)
    as Hbefore.
  { intros t u Hlt. apply Z.ltb_lt in Hlt. apply Z.ltb_ge. lia. }
  assert (Forall (λ f, FieldType f ≠ TypeBool)
            (schema (TableSorter Sample.schema3))) as Hbool.
  { repeat (apply Forall_cons; split; [discriminate|]). apply Forall_nil_2. }
  assert (returned (Sample.OrderBy (TableSorter Sample.schema3)
                      ["LABEL"; "ID"; "INST."]) = Some (Some Sample.keys6))
    as Hkeys by reflexivity.
  assert (returned (Less (setData Sample.keys6 Sample.data6) 1 0) = Some true)
    as Hless by (vm_compute; reflexivity).
  split; [exact Hbefore|]. split; [exact Hbool|]. split; [exact Hkeys|].
  split; [exact Hless|].
  exact (Less_asymmetric Fmt.Sprintf Sample.time_Parse Sample.time_Before
           (TableSorter Sample.schema3) Sample.keys6 ["LABEL"; "ID"; "INST."]
           Sample.data6 1 0 Hbefore Hbool Hkeys Hless).
Defined.

(** X22. [Swap] panics unless both indexes are rows of the data.  When it
    returns, the two rows have changed places, every other row is where
    it was, the data is a permutation of what it was and as long, and a
    second [Swap] of the same indexes undoes the first. *)
Theorem Swap_exchanges (ms : MultiSorter) (i j : nat) :
  (is_Some (Swap ms i j)
   ↔ (i < length (data ms))%nat ∧ (j < length (data ms))%nat)
  ∧ ∀ ms', Swap ms i j = Some ms' →
      data ms' !! i = data ms !! j
      ∧ data ms' !! j = data ms !! i
      ∧ (∀ k, k ≠ i → k ≠ j → data ms' !! k = data ms !! k)
      ∧ data ms' ≡ₚ data ms
      ∧ Len ms' = Len ms
      ∧ Swap ms' i j = Some ms.
Proof.
  unfold Swap. split.
  - rewrite <- !lookup_lt_is_Some.
    destruct (data ms !! i) as [di|]; simpl.
    + destruct (data ms !! j) as [dj|]; simpl.
      * split; [by eauto | by eauto].
      * split; [by intros [? [=]] | by intros [_ [? [=]]]].
    + split; [by intros [? [=]] | by intros [[? [=]] _]].
  - intros ms'.
    destruct (data ms !! i) as [di|] eqn:Hi; simpl; [|done].
    destruct (data ms !! j) as [dj|] eqn:Hj; simpl; [|done].
    intros [= <-]. simpl.
    pose proof (lookup_lt_Some _ _ _ Hi) as Hilt.
    pose proof (lookup_lt_Some _ _ _ Hj) as Hjlt.
    assert ((<[j := di]> (<[i := dj]> (data ms))) !! i = Some dj) as Hi'.
    { destruct (decide (i = j)) as [->|Hne].
      - rewrite list_lookup_insert_eq by (by rewrite length_insert). congruence.
      - rewrite list_lookup_insert_ne by done.
        by rewrite list_lookup_insert_eq. }
    assert ((<[j := di]> (<[i := dj]> (data ms))) !! j = Some di) as Hj'.
    { rewrite list_lookup_insert_eq by (by rewrite length_insert). done. }
    split; [done|]. split; [done|]. split.
    { intros k Hki Hkj. by rewrite !list_lookup_insert_ne. }
    split; [by apply Permutation_insert_swap|].
    split; [unfold Len; simpl; by rewrite !length_insert|].
    rewrite Hi', Hj'. simpl. f_equal.
    destruct ms as [d l sch idx]. unfold setData. simpl in *. f_equal.
    apply list_eq. intros k.
    destruct (decide (k = j)) as [->|Hkj].
    { rewrite list_lookup_insert_eq by (by rewrite !length_insert). done. }
    rewrite list_lookup_insert_ne by done.
    destruct (decide (k = i)) as [->|Hki].
    { rewrite list_lookup_insert_eq by (by rewrite !length_insert). done. }
    by rewrite !list_lookup_insert_ne.
Qed.

(** ** Cells beyond the schema *)

Section ExtraCells.

Variable fmt_Sprintf : string → list value → string.
Variable strings_ToLower strcase_ToLowerCamel : string → string.
Variable yaml_Marshal : marshaller.
Variable json_MarshalIndent : list (gmap string value) → string → string → result.
Variable csv_Write : list string → string.

Local Abbreviation getCellSize := (getCellSize fmt_Sprintf).
Local Abbreviation formatCells := (formatCells fmt_Sprintf).
Local Abbreviation getTableRow := (getTableRow fmt_Sprintf).
Local Abbreviation getTableAsString := (getTableAsString fmt_Sprintf).
Local Abbreviation getRowSize := (getRowSize fmt_Sprintf).
Local Abbreviation rowSizeLoop := (rowSizeLoop fmt_Sprintf).
Local Abbreviation cellSizes := (cellSizes fmt_Sprintf).
Local Abbreviation adjustField := (adjustField fmt_Sprintf).
Local Abbreviation adjustFrom := (adjustFrom fmt_Sprintf).
Local Abbreviation AdjustFieldSizes := (AdjustFieldSizes fmt_Sprintf).
Local Abbreviation csvRecord := (csvRecord fmt_Sprintf).
Local Abbreviation getTableAsYAMLString :=
  (getTableAsYAMLString strings_ToLower strcase_ToLowerCamel yaml_Marshal).
Local Abbreviation getTableAsJSONString :=
  (getTableAsJSONString json_MarshalIndent).
Local Abbreviation getTableAsCSVString :=
  (getTableAsCSVString fmt_Sprintf csv_Write).
Local Abbreviation foldRows :=
  (foldRows strings_ToLower strcase_ToLowerCamel yaml_Marshal).
Local Abbreviation getFoldedTableAsString :=
  (getFoldedTableAsString fmt_Sprintf strings_ToLower strcase_ToLowerCamel
     yaml_Marshal).
Local Abbreviation RenderTableFoldable :=
  (RenderTableFoldable fmt_Sprintf strings_ToLower strcase_ToLowerCamel
     yaml_Marshal json_MarshalIndent csv_Write).
Local Abbreviation RenderTableAsJSON :=
  (RenderTableAsJSON fmt_Sprintf strings_ToLower strcase_ToLowerCamel
     yaml_Marshal json_MarshalIndent csv_Write).
Local Abbreviation RenderTableAsCSV :=
  (RenderTableAsCSV fmt_Sprintf strings_ToLower strcase_ToLowerCamel
     yaml_Marshal json_MarshalIndent csv_Write).
Local Abbreviation RenderTableAsYAML :=
  (RenderTableAsYAML fmt_Sprintf strings_ToLower strcase_ToLowerCamel
     yaml_Marshal json_MarshalIndent csv_Write).

(** X23. The three shorthands reach the serializer of their name: each
    gives what that serializer gives on the data and the schema, panics
    when it panics, and hands the table back untouched. *)
Theorem RenderTableAs_serializers (t : Table) :
  RenderTableAsJSON t
  = (λ r, (r, t)) <$> getTableAsJSONString (Data t) (Schema t)
  ∧ RenderTableAsCSV t
    = (λ r, (r, t)) <$> getTableAsCSVString (Data t) (Schema t)
  ∧ RenderTableAsYAML t
    = (λ r, (r, t)) <$> getTableAsYAMLString (Data t) (Schema t).
Proof.
  assert (isFormat "json" ["json"; "JSON"] = true) as Hjson by (by vm_compute).
  assert (isFormat "csv" ["json"; "JSON"] = false
          ∧ isFormat "csv" ["csv"; "CSV"] = true) as [Hcsv1 Hcsv2]
    by (by vm_compute).
  assert (isFormat "yaml" ["json"; "JSON"] = false
          ∧ isFormat "yaml" ["csv"; "CSV"] = false
          ∧ isFormat "yaml" ["yaml"; "YAML"] = true) as (Hy1 & Hy2 & Hy3)
    by (by vm_compute).
  split; [|split].
  - unfold RenderTableAsJSON, RenderTableFoldable. rewrite Hjson.
    by destruct (getTableAsJSONString _ _).
  - unfold RenderTableAsCSV, RenderTableFoldable. rewrite Hcsv1, Hcsv2.
    by destruct (getTableAsCSVString _ _).
  - unfold RenderTableAsYAML, RenderTableFoldable. rewrite Hy1, Hy2, Hy3.
    by destruct (getTableAsYAMLString _ _).
Qed.

Lemma formatCells_take fields m : ∀ i row rowStr rowHeight,
  (i + length fields ≤ m)%nat →
  formatCells fields i (take m row) rowStr rowHeight
  = formatCells fields i row rowStr rowHeight.
Proof.
  induction fields as [|f fields IH]; intros i row rowStr rowHeight Hm; simpl;
    [done|].
  simpl in Hm. rewrite lookup_take_lt by lia.
  destruct (row !! i) as [d|]; simpl; [|done].
  destruct (formatCell fmt_Sprintf f d rowHeight) as [[cell h]|]; simpl; [|done].
  apply IH. lia.
Qed.

Lemma getTableRow_take m row schema :
  (length schema ≤ m)%nat →
  getTableRow (take m row) schema = getTableRow row schema.
Proof.
  intros Hm. unfold getTableRow. by rewrite formatCells_take.
Qed.

Lemma mapM_take {B : Type} (g : list value → option B) m data :
  (∀ row, g (take m row) = g row) →
  mapM g (map (take m) data) = mapM g data.
Proof.
  intros Hg. induction data as [|row data IH]; simpl; [done|].
  by rewrite Hg, IH.
Qed.

Lemma adjustFrom_take data m fields : ∀ i,
  (i + length fields ≤ m)%nat →
  adjustFrom (map (take m) data) i fields = adjustFrom data i fields.
Proof.
  induction fields as [|f fields IH]; intros i Hm; simpl; [done|].
  simpl in Hm. rewrite IH by lia.
  assert (adjustField (map (take m) data) i f = adjustField data i f) as ->;
    [|done].
  unfold adjustField. rewrite !columnLoop_widest. unfold cellSizes.
  rewrite mapM_take; [done|].
  intros row. by rewrite lookup_take_lt by lia.
Qed.

Lemma rowWidths_take fields m : ∀ i row,
  (i + length fields ≤ m)%nat →
  rowWidths fmt_Sprintf fields i (take m row)
  = rowWidths fmt_Sprintf fields i row.
Proof.
  induction fields as [|f fields IH]; intros i row Hm; simpl; [done|].
  simpl in Hm. rewrite lookup_take_lt by lia. by rewrite IH by lia.
Qed.

Lemma getRowSize_take data m schema :
  (length schema ≤ m)%nat →
  getRowSize (map (take m) data) schema = getRowSize data schema.
Proof.
  intros Hm. destruct data as [|row rows]; [done|]. simpl map.
  rewrite !getRowSize_rowWidths. by rewrite rowWidths_take.
Qed.

Lemma rowAsMap_take key fields m : ∀ i row mp,
  (i + length fields ≤ m)%nat →
  rowAsMap key fields i (take m row) mp = rowAsMap key fields i row mp.
Proof.
  induction fields as [|f fields IH]; intros i row mp Hm; simpl; [done|].
  simpl in Hm. rewrite lookup_take_lt by lia.
  destruct (row !! i) as [d|]; simpl; [|done]. apply IH. lia.
Qed.

Lemma csvRecord_take fields m : ∀ i row,
  (i + length fields ≤ m)%nat →
  csvRecord fields i (take m row) = csvRecord fields i row.
Proof.
  induction fields as [|f fields IH]; intros i row Hm; simpl; [done|].
  simpl in Hm. rewrite lookup_take_lt by lia. by rewrite IH by lia.
Qed.

Lemma dataAsMap_take key data m schema :
  (length schema ≤ m)%nat →
  dataAsMap key (map (take m) data) schema = dataAsMap key data schema.
Proof.
  intros Hm. unfold dataAsMap. apply mapM_take.
  intros row. by apply rowAsMap_take.
Qed.

Lemma foldRows_take m schema rows : ∀ newData,
  (length schema ≤ m)%nat →
  foldRows (map (take m) rows) schema newData = foldRows rows schema newData.
Proof.
  induction rows as [|row rows IH]; intros newData Hm; [done|].
  simpl map. rewrite !foldRows_cons.
  assert (getTableAsYAMLString [take m row] schema
          = getTableAsYAMLString [row] schema) as ->.
  { unfold getTableAsYAMLString.
    by rewrite (dataAsMap_take _ [row] m schema Hm). }
  destruct (getTableAsYAMLString [row] schema) as [[cell|e]|]; simpl; [|done..].
  by apply IH.
Qed.

(** X24. Cells beyond the schema play no part in any output: under every
    format, rendering a table gives what rendering it with each row cut
    to the length of the schema gives, panics included. *)
Theorem render_ignores_extra_cells (t : Table)
    (tableName topLine format : string) (foldAtLength : Z) :
  fst <$> RenderTableFoldable
            {| Data := map (take (length (Schema t))) (Data t);
               Schema := Schema t |}
            tableName topLine format foldAtLength
  = fst <$> RenderTableFoldable t tableName topLine format foldAtLength.
Proof.
  unfold RenderTableFoldable. cbn [Data Schema].
  destruct (isFormat format ["json"; "JSON"]).
  { unfold getTableAsJSONString. rewrite dataAsMap_take by done.
    by destruct (dataAsMap _ _ _). }
  destruct (isFormat format ["csv"; "CSV"]).
  { unfold getTableAsCSVString.
    rewrite (mapM_take (csvRecord (Schema t) 0)).
    - by destruct (mapM _ _).
    - intros row. by apply csvRecord_take. }
  destruct (isFormat format ["yaml"; "YAML"]).
  { unfold getTableAsYAMLString. rewrite dataAsMap_take by done.
    destruct (dataAsMap _ _ _) as [maps|]; [|done]. cbn [mbind option_bind].
    by destruct (marshal yaml_Marshal maps). }
  destruct (isFormat format [""]); [|done].
  rewrite !AdjustFieldSizes_adjustFrom. cbn [Data Schema].
  rewrite adjustFrom_take by (simpl; lia).
  destruct (adjustFrom (Data t) 0 (Schema t)) as [schema'|] eqn:Hadj; [|done].
  apply adjustFrom_length in Hadj.
  cbn [fmap option_fmap option_map mbind option_bind Data Schema].
  rewrite length_map, getRowSize_take by lia.
  destruct (if (0 <? length (Data t))%nat then _ else _) as [rowSize|]; [|done].
  cbn [mbind option_bind].
  destruct (_ && _).
  - unfold getFoldedTableAsString. rewrite foldRows_take by lia.
    destruct (foldRows (Data t) schema' []) as [[e|newData]|]; [done| |done].
    cbn [mbind option_bind].
    destruct (AdjustFieldSizes _) as [table|]; [|done].
    cbn [mbind option_bind].
    by destruct (getTableAsString _ _).
  - unfold getTableAsString.
    rewrite (mapM_take (λ row, getTableRow row schema')).
    + destruct (getTableHeader fmt_Sprintf schema'); [|done].
      cbn [mbind option_bind]. by destruct (mapM _ _).
    + intros row. apply getTableRow_take. lia.
Qed.

End ExtraCells.

(** ** What one pass of [decolorize] leaves *)

Lemma paramsFinal_free (s : string) :
  paramsFinal s = Some (String.length s) → freeOf ESC s = true.
Proof.
  induction s as [|c s IH]; [done|].
  cbn [paramsFinal freeOf String.length].
  destruct (isFinal c) eqn:Hfinal.
  - intros [= Hlen]. destruct s; [|done].
    destruct (Ascii.eqb_spec c ESC) as [->|]; [done | reflexivity].
  - destruct (isParam c) eqn:Hparam; [|done].
    destruct (paramsFinal s) as [n|]; [|done]. intros [= ->].
    rewrite IH by done.
    destruct (Ascii.eqb_spec c ESC) as [->|]; [done | reflexivity].
Qed.

Lemma dropColors_none (c : ascii) (s : string) :
  matchColor (String c s) = None →
  dropColors 0 (String c s) = String c (dropColors 0 s).
Proof. intros Hnone. cbn [dropColors]. by rewrite Hnone. Qed.

(** X25. One pass of [decolorize] can leave a colour sequence behind, so
    a second pass can remove more: when a colour sequence stands right
    after the first two bytes of another one, only the inner sequence is
    removed and the outer one is put together again. *)
Theorem decolorize_leaves_colour (c tail : string) :
  isColour c →
  isColour (String ESC (String "[" tail)) →
  decolorize (String ESC (String "[" (c ++ tail))) = String ESC (String "[" tail)
  ∧ decolorize (decolorize (String ESC (String "[" (c ++ tail)))) = "".
Proof.
  intros Hc Houter.
  assert (decolorize (String ESC (String "[" (c ++ tail)))
          = String ESC (String "[" tail)) as Hone.
  { assert (paramsFinal tail = Some (String.length tail)) as Htail.
    { unfold isColour, matchColor in Houter. simpl in Houter.
      destruct (paramsFinal tail) as [n|]; [|done].
      injection Houter as ->. done. }
    assert (paramsFinal (c ++ tail) = None) as Hinner.
    { unfold isColour, matchColor in Hc. destruct c as [|c1 [|c2 rest]]; try done.
      destruct (Ascii.eqb_spec c1 ESC) as [->|]; [|done].
      rewrite append_cons. reflexivity. }
    assert (matchColor (String ESC (String "[" (c ++ tail))) = None) as Hfirst.
    { unfold matchColor. by rewrite Hinner. }
    assert (matchColor (String "[" (c ++ tail)) = None) as Hsecond.
    { unfold matchColor. by destruct (c ++ tail). }
    unfold decolorize.
    rewrite (dropColors_none _ _ Hfirst), (dropColors_none _ _ Hsecond).
    do 2 f_equal.
    change (dropColors 0 (c ++ tail)) with (decolorize (c ++ tail)).
    rewrite decolorize_colour_l by done.
    unfold decolorize. apply dropColors_free. by apply paramsFinal_free. }
  split; [exact Hone|]. rewrite Hone. by apply decolorize_colour.
Qed.

Lemma decolorize_leaves_colour_witness :
  isColour Sample.reset
  ∧ isColour (String ESC (String "[" "31m"))
  ∧ decolorize (String ESC (String "[" (Sample.reset ++ "31m")))
    = String ESC (String "[" "31m")
  ∧ decolorize (decolorize (String ESC (String "[" (Sample.reset ++ "31m"))))
    = "".
Proof.
  split; [reflexivity|]. split; [reflexivity|].
  apply (decolorize_leaves_colour Sample.reset "31m"); reflexivity.
Defined.

(** ** Border and header *)

Lemma getTableDelimiter_fold schema : ∀ row,
  len (fold_left
         (λ row field,
            (row ++ repeatString "-" (Z.to_nat (wrapInt (FieldSize field + 1)))) ++ "+")
         schema row)
  = len row + sumZ (map (λ f, Z.max 0 (wrapInt (FieldSize f + 1)) + 1) schema).
Proof.
  induction schema as [|f schema IH]; intros row; simpl; [lia|].
  rewrite IH, !len_append, len_repeatString_one.
  change (len "+") with 1. lia.
Qed.

Lemma getTableDelimiter_sizes schema : ∀ schema' row,
  map FieldSize schema' = map FieldSize schema →
  fold_left
    (λ row field,
       (row ++ repeatString "-" (Z.to_nat (wrapInt (FieldSize field + 1)))) ++ "+")
    schema' row
  = fold_left
      (λ row field,
         (row ++ repeatString "-" (Z.to_nat (wrapInt (FieldSize field + 1)))) ++ "+")
      schema row.
Proof.
  induction schema as [|f schema IH]; intros [|f' schema'] row; simpl;
    try done.
  intros [= Hf Hrest]. rewrite Hf. by apply IH.
Qed.

Section AssemblerOutcomes.

Variable fmt_Sprintf : string → list value → string.

Local Abbreviation getTableRow := (getTableRow fmt_Sprintf).
Local Abbreviation getTableHeader := (getTableHeader fmt_Sprintf).
Local Abbreviation getTableAsString := (getTableAsString fmt_Sprintf).

(** X26. The border of a table is one [+] and then, for each column, a
    run of dashes and a [+]; only the field sizes play a part.  A column
    gets as many dashes as its width plus one, none when that is
    negative; the sum is made in an [int], so a column of the largest
    width there is gets no dash at all. *)
Theorem getTableDelimiter_length (schema : list SchemaField) :
  len (getTableDelimiter schema)
  = 1 + sumZ (map (λ f, Z.max 0 (wrapInt (FieldSize f + 1)) + 1) schema)
  ∧ (Forall (λ f, - 2 ^ 63 <= FieldSize f < 2 ^ 63 - 1) schema →
     len (getTableDelimiter schema)
     = 1 + sumZ (map (λ f, Z.max 0 (FieldSize f + 1) + 1) schema))
  ∧ (∀ f, FieldSize f = 2 ^ 63 - 1 → getTableDelimiter [f] = "++")
  ∧ ∀ schema', map FieldSize schema' = map FieldSize schema →
      getTableDelimiter schema' = getTableDelimiter schema.
Proof.
  split; [apply getTableDelimiter_fold|]. split; [|split].
  - intros Hsizes. unfold getTableDelimiter.
    rewrite getTableDelimiter_fold. do 2 f_equal.
    apply map_ext_Forall. eapply Forall_impl; [exact Hsizes|].
    intros f Hf. cbv beta in *. rewrite wrapInt_small; [done | lia].
  - intros f Hf. unfold getTableDelimiter. cbn [fold_left]. by rewrite Hf.
  - intros schema'. apply getTableDelimiter_sizes.
Qed.

(** X27. The header line is built without a panic for every schema,
    whatever the types of its fields.  A row is rendered exactly when
    each field finds a cell that passes its type assertion, and the whole
    table exactly when every row does. *)
Theorem assembler_returns (data : list (list value)) (row : list value)
    (schema : list SchemaField) :
  is_Some (getTableHeader schema)
  ∧ (is_Some (getTableRow row schema) ↔ rowTyped schema 0 row)
  ∧ (is_Some (getTableAsString data schema)
     ↔ Forall (rowTyped schema 0) data).
Proof.
  split; [apply getTableHeader_is_Some|].
  split; [apply getTableRow_is_Some|].
  split; [|apply getTableAsString_is_Some].
  unfold getTableAsString.
  destruct (getTableHeader_is_Some fmt_Sprintf schema) as [header ->].
  cbn [mbind option_bind].
  destruct (mapM (λ row, getTableRow row schema) data) as [body|] eqn:Hbody;
    [|by intros [? [=]]].
  intros _. assert (is_Some (mapM (λ row, getTableRow row schema) data))
    as Hsome by eauto.
  rewrite mapM_is_Some in Hsome.
  eapply Forall_impl; [exact Hsome|].
  intros r Hr. by apply (getTableRow_is_Some fmt_Sprintf).
Qed.

End AssemblerOutcomes.

(** ** Percent signs in text cells *)

Lemma len_ReplaceAll_percent (v : string) :
  len (strings_ReplaceAll v "%" "%%") = len v + Z.of_nat (countOf "%" v).
Proof.
  induction v as [|c v IH]; [reflexivity|].
  cbn [strings_ReplaceAll countOf]. rewrite len_append, IH.
  destruct (Ascii.eqb c "%"); unfold len; simpl String.length; lia.
Qed.

Lemma freeOf_ReplaceAll_percent (c : ascii) (v : string) :
  Ascii.eqb "%" c = false →
  freeOf c v = true → freeOf c (strings_ReplaceAll v "%" "%%") = true.
Proof.
  intros Hc. induction v as [|c' v IH]; [done|].
  cbn [freeOf strings_ReplaceAll]. intros [Hc' Hv]%andb_prop.
  rewrite freeOf_append, IH by done. rewrite andb_true_r.
  destruct (Ascii.eqb c' "%"); cbn [freeOf]; [|by rewrite Hc'].
  by rewrite Hc.
Qed.


